(** * rag-agent-v1: the retrieval pipeline, embedded in Rocq

    A shallow embedding of the text splitter ([TextSplitter],
    src/utils/textSplitter.js), the conversation context service
    ([ConversationContextService], in src/app.js), the in-process vector store
    ([SimpleVectorStore], in src/app.js), the facade that chooses between
    ChromaDB and that store ([VectorStore], in src/app.js), the embedding
    service ([EmbeddingService], in src/app.js) and the chat service ([ChatService],
    src/services/chat.js), with the properties their specification states
    about them and further properties of the code.

    JavaScript integers are [Z]; strings are [string] (code units below 256);
    numbers of the vector store are an interface [Number], instantiated with
    binary64, the numbers the program computes with; what binary64 computes
    is related to the real numbers through the specification of the
    primitive floats.
    Effects are explicit: identifiers drawn from [uuidv4()], clock readings
    and the answers of the embedding and chat services are arguments. *)

From Stdlib Require Import ZArith List String Ascii Bool Lia.
From Stdlib Require Import Sorting.Sorted Sorting.Permutation.
From Stdlib Require Import DecimalString Floats Reals Lra.
From Stdlib Require DecimalPos DecimalZ.
From stdpp Require Import base gmap strings list.

Local Open Scope string_scope.
Local Open Scope Z_scope.

(** ** JavaScript primitives used by the program *)

Module JS.

(** [Array.prototype.slice(start, end)] and [String.prototype.slice]: a
    negative index counts from the end, both indices are clamped to the
    length, and an empty range gives an empty result. *)
Definition relative_index (len i : Z) : Z :=
  if i <? 0 then Z.max (len + i) 0 else Z.min i len.

Definition slice {A} (l : list A) (start end_ : Z) : list A :=
  let len := Z.of_nat (length l) in
  let from := relative_index len start in
  let to := relative_index len end_ in
  take (Z.to_nat (to - from)) (drop (Z.to_nat from) l).

(** [slice(start)]: the end defaults to the length. *)
Definition slice_from {A} (l : list A) (start : Z) : list A :=
  slice l start (Z.of_nat (length l)).

Definition chars (s : string) : list ascii := list_ascii_of_string s.
Definition str (l : list ascii) : string := string_of_list_ascii l.

Definition str_slice (s : string) (start end_ : Z) : string :=
  str (slice (chars s) start end_).

(** [s.substring(0, n)] for [n >= 0]. *)
Definition substring0 (s : string) (n : nat) : string :=
  str (take n (chars s)).

Definition nl : string := String (ascii_of_nat 10) EmptyString.

Fixpoint starts_with (pat s : list ascii) : bool :=
  match pat, s with
  | [], _ => true
  | _ :: _, [] => false
  | p :: pat', c :: s' => if Ascii.eqb p c then starts_with pat' s' else false
  end.

(** The largest [k <= from] at which [pat] occurs in [s], or [-1]. *)
Fixpoint lastIndexOf_down (pat s : list ascii) (from : nat) : Z :=
  if starts_with pat (drop from s) then Z.of_nat from
  else match from with
       | O => -1
       | S k => lastIndexOf_down pat s k
       end.

(** [s.lastIndexOf(pat, position)]: the position is clamped to
    [0 .. length s] and the search runs backwards from it. *)
Definition lastIndexOf (s pat : string) (position : Z) : Z :=
  let len := Z.of_nat (String.length s) in
  let start := Z.min (Z.max position 0) len in
  lastIndexOf_down (chars pat) (chars s) (Z.to_nat start).

(** White space and line terminators that [trim] removes, among the code
    units below 256: TAB, LF, VT, FF, CR, SPACE and NO-BREAK SPACE. *)
Definition is_space (c : ascii) : bool :=
  let n := nat_of_ascii c in
  ((9 <=? n) && (n <=? 13) || (n =? 32) || (n =? 160))%nat.

Fixpoint trim_start (l : list ascii) : list ascii :=
  match l with
  | c :: l' => if is_space c then trim_start l' else l
  | [] => []
  end.

Definition trim (s : string) : string :=
  str (rev (trim_start (rev (trim_start (chars s))))).

(** [hay.includes(needle)]. *)
Definition includes (hay needle : string) : bool :=
  match String.index 0 needle hay with Some _ => true | None => false end.

Definition underscore : ascii := ascii_of_nat 95.

(** An integer inside a template literal: its decimal digits. *)
Definition show (n : Z) : string := NilZero.string_of_int (Z.to_int n).

(** [Array.prototype.sort(comparator)]. The sort is stable, and for a
    comparator that orders the elements consistently every stable sort returns
    the same array; it is written here as an insertion sort. [after a b] says
    that the comparator is positive on [(a, b)]: [a] goes behind [b]. *)
Fixpoint insert {A} (after : A -> A -> bool) (x : A) (l : list A) : list A :=
  match l with
  | [] => [x]
  | y :: l' => if after x y then y :: insert after x l' else x :: l
  end.

Definition sort {A} (after : A -> A -> bool) (l : list A) : list A :=
  fold_right (insert after) [] l.

(** [array.map((x, index) => f(x, index))]. *)
Fixpoint map_index_from {A B} (f : A -> nat -> B) (i : nat) (l : list A) : list B :=
  match l with
  | [] => []
  | x :: l' => f x i :: map_index_from f (S i) l'
  end.

Definition map_index {A B} (f : A -> nat -> B) (l : list A) : list B :=
  map_index_from f 0 l.

End JS.

(** ** TextSplitter (src/utils/textSplitter.js) *)

Module TextSplitter.

Record t := { chunkSize : Z; chunkOverlap : Z }.

(** The constructor's defaults. *)
Definition default : t := {| chunkSize := 1000; chunkOverlap := 200 |}.

(** One pass through the body of the [while] loop of [splitText]: the chunk
    pushed and the next value of [start]. *)
Definition iteration (ts : t) (text : string) (start : Z) : string * Z :=
  let len := Z.of_nat (String.length text) in
  let end0 := start + chunkSize ts in
  let end1 :=
    if end0 <? len then
      let sentenceEnd := JS.lastIndexOf text "." end0 in
      let paragraphEnd := JS.lastIndexOf text (JS.nl ++ JS.nl) end0 in
      let breakPoint := Z.max sentenceEnd paragraphEnd in
      if start <? breakPoint then breakPoint + 1 else end0
    else end0 in
  (JS.trim (JS.str_slice text start end1), end1 - chunkOverlap ts).

Definition nonempty (chunk : string) : bool := (0 <? String.length chunk)%nat.

(** The loop [while (start < text.length)], run for at most [fuel] passes;
    [None] when the loop has not left after [fuel] passes. The final
    [filter] drops the empty chunks. *)
Fixpoint loop (fuel : nat) (ts : t) (text : string) (start : Z)
    (chunks : list string) : option (list string) :=
  if start <? Z.of_nat (String.length text) then
    match fuel with
    | O => None
    | S fuel' =>
        let '(chunk, start') := iteration ts text start in
        loop fuel' ts text start' (chunks ++ [chunk])
    end
  else Some (List.filter nonempty chunks).

Definition splitText (fuel : nat) (ts : t) (text : string) : option (list string) :=
  loop fuel ts text 0 [].

(** The scenario of the specification: two sentences, chunks of 20 with an
    overlap of 5. *)
Definition scenario_config : t := {| chunkSize := 20; chunkOverlap := 5 |}.
Definition scenario_text : string := "Cats are mammals. Dogs are mammals too.".

Section Documents.
(** A document as [splitDocuments] reads it: its [content] and, opaque to
    the splitter and copied by the spread [...doc], its other properties
    ([source], [title], [type], ...). *)
Context {Fields : Type}.

Record Document := { doc_content : string; doc_fields : Fields }.

(** [{ ...doc, content: chunk, chunkIndex, originalDocIndex: docIndex }]. *)
Record SplitDocument := {
  content : string;
  fields : Fields;
  chunkIndex : Z;
  originalDocIndex : Z
}.

Definition split_document (doc : Document) (docIndex : nat) (chunk : string)
    (index : nat) : SplitDocument :=
  {| content := chunk; fields := doc_fields doc;
     chunkIndex := Z.of_nat index; originalDocIndex := Z.of_nat docIndex |}.

(** [documents.forEach((doc, docIndex) => ...)] from [docIndex] on, pushing
    onto [splitDocuments]; [None] when [splitText] has not returned on one of
    the documents after [fuel] passes of its loop. *)
Fixpoint each_document (fuel : nat) (ts : t) (docs : list Document) (docIndex : nat)
    (splitDocuments : list SplitDocument) : option (list SplitDocument) :=
  match docs with
  | [] => Some splitDocuments
  | doc :: docs' =>
      match splitText fuel ts (doc_content doc) with
      | None => None
      | Some chunks =>
          each_document fuel ts docs' (S docIndex)
            (splitDocuments ++ JS.map_index (split_document doc docIndex) chunks)
      end
  end.

Definition splitDocuments (fuel : nat) (ts : t) (docs : list Document)
    : option (list SplitDocument) :=
  each_document fuel ts docs 0 [].

(** The chunk comes from the document at index [d]. *)
Definition of_document (d : nat) (e : SplitDocument) : bool :=
  originalDocIndex e =? Z.of_nat d.

End Documents.

Arguments Document : clear implicits.
Arguments SplitDocument : clear implicits.

(** The window of [chunkSize] characters from [start] on, trimmed. *)
Definition window (ts : t) (text : string) (start : Z) : string :=
  JS.trim (JS.str_slice text start (start + chunkSize ts)).

(** The windows a text is cut into when no break point is taken: one every
    [chunkSize - chunkOverlap] characters, as long as it starts inside the
    text. *)
Definition windows (ts : t) (text : string) : list string :=
  let stride := chunkSize ts - chunkOverlap ts in
  let count := (Z.of_nat (String.length text) + stride - 1) / stride in
  map (fun i => window ts text (Z.of_nat i * stride)) (seq 0 (Z.to_nat count)).

(** Sample data: chunks of three characters, and three documents of which
    the second is empty. *)
Definition small_config : t := {| chunkSize := 3; chunkOverlap := 0 |}.

Definition three_documents : list (Document string) :=
  [ {| doc_content := "abc.def"; doc_fields := "a.txt" |};
    {| doc_content := ""; doc_fields := "b.txt" |};
    {| doc_content := "xyz"; doc_fields := "c.txt" |} ].

End TextSplitter.

(** ** ConversationContextService (src/app.js) *)

Module ConversationContext.

(** A truthy string argument: [sessionId || uuidv4()] takes the right-hand
    side for [null] and for the empty string. *)
Definition truthy (s : option string) : option string :=
  match s with
  | Some v => if String.eqb v "" then None else Some v
  | None => None
  end.

(** [parseInt(env) || d]: [None] stands for [NaN]; [0] is falsy as well. *)
Definition or_default (parsed : option Z) (d : Z) : Z :=
  match parsed with
  | Some n => if n =? 0 then d else n
  | None => d
  end.

(** What one call draws from outside: the identifiers [uuidv4()] returns
    (one for a session created without an id, one for a message) and the
    reading of the clock (the [new Date()] of one call read the same
    instant). *)
Record Env := { session_uuid : string; message_uuid : string; now : Z }.

Section Service.
(** The metadata object attached to a message is opaque to the service. *)
Context {Metadata : Type}.

(** A stored message carries an id and metadata; the synthesized system
    message has neither field. *)
Record Message := {
  id : option string;
  role : string;
  content : string;
  timestamp : Z;
  metadata : option Metadata
}.

Record Conversation := {
  messages : list Message;
  createdAt : Z;
  lastAccessed : Z
}.

Record t := {
  conversations : gmap string Conversation;
  maxContextLength : Z;
  maxTokens : Z
}.

Record Stats := {
  messageCount : Z;
  stats_createdAt : Z;
  stats_lastAccessed : Z;
  estimatedTokens : Z
}.

Definition constructor (window_env tokens_env : option Z) : t :=
  {| conversations := empty;
     maxContextLength := or_default window_env 10;
     maxTokens := or_default tokens_env 4000 |}.

Definition set_conversation (st : t) (sid : string) (c : Conversation) : t :=
  {| conversations := <[sid := c]> (conversations st);
     maxContextLength := maxContextLength st;
     maxTokens := maxTokens st |}.

Definition has (st : t) (sid : string) : bool :=
  match conversations st !! sid with Some _ => true | None => false end.

Definition createSession (st : t) (sessionId : option string) (env : Env) : string * t :=
  let id := match truthy sessionId with Some v => v | None => session_uuid env end in
  (id, set_conversation st id
         {| messages := []; createdAt := now env; lastAccessed := now env |}).

(** [Math.ceil(n / 4)] for a length [n]. *)
Definition ceil_div4 (n : Z) : Z := (n + 3) / 4.

Definition estimateTokens (msgs : list Message) : Z :=
  fold_left (fun total message =>
               total + ceil_div4 (Z.of_nat (String.length (content message))))
            msgs 0.

(** The [while] loop of [trimConversation]: [messages.slice(1)] as long as
    the estimate exceeds the budget and more than two messages remain. *)
Fixpoint trim_tokens (budget : Z) (msgs : list Message) : list Message :=
  match msgs with
  | [] => []
  | _ :: rest =>
      if (budget <? estimateTokens msgs) && (2 <? Z.of_nat (length msgs))
      then trim_tokens budget rest
      else msgs
  end.

Definition trim_messages (st : t) (msgs : list Message) : list Message :=
  let by_count :=
    if maxContextLength st <? Z.of_nat (length msgs)
    then JS.slice_from msgs (- maxContextLength st)
    else msgs in
  trim_tokens (maxTokens st) by_count.

Definition trimConversation (st : t) (sid : string) : t :=
  match conversations st !! sid with
  | None => st
  | Some c =>
      set_conversation st sid
        {| messages := trim_messages st (messages c);
           createdAt := createdAt c;
           lastAccessed := lastAccessed c |}
  end.

(** [addMessage]: [None] is the [TypeError] raised when
    [this.conversations.get(sessionId)] is [undefined] (the session was
    auto-created under another key). *)
Definition addMessage (st : t) (sid role body : string) (meta : Metadata)
    (env : Env) : option (Message * t) :=
  let st1 := if has st sid then st else snd (createSession st (Some sid) env) in
  match conversations st1 !! sid with
  | None => None
  | Some c =>
      let message :=
        {| id := Some (message_uuid env); role := role; content := body;
           timestamp := now env; metadata := Some meta |} in
      let st2 := set_conversation st1 sid
                   {| messages := messages c ++ [message];
                      createdAt := createdAt c;
                      lastAccessed := now env |} in
      Some (message, trimConversation st2 sid)
  end.

Definition buildSystemPrompt : string :=
  "You are a specialist AI agent with expertise in document analysis and question answering. "
  ++ JS.nl ++ JS.nl ++
  "You have access to a knowledge base of documents and can maintain conversation context. When answering questions:"
  ++ JS.nl ++ JS.nl ++
  "1. Use the provided document context to give accurate, detailed answers" ++ JS.nl ++
  "2. Reference previous parts of the conversation when relevant" ++ JS.nl ++
  "3. Maintain consistency with earlier responses" ++ JS.nl ++
  "4. If you don't know something based on the documents, clearly state this" ++ JS.nl ++
  "5. Provide specific citations from the source documents when possible"
  ++ JS.nl ++ JS.nl ++
  "Remember to be helpful, accurate, and maintain the conversation flow naturally.".

Definition systemMessage (at_ : Z) : Message :=
  {| id := None; role := "system"; content := buildSystemPrompt;
     timestamp := at_; metadata := None |}.

Definition getContext (st : t) (sid : string) (includeSystemMessage : bool)
    (at_ : Z) : list Message * t :=
  match conversations st !! sid with
  | None => (if includeSystemMessage then [systemMessage at_] else [], st)
  | Some c =>
      let st' := set_conversation st sid
                   {| messages := messages c;
                      createdAt := createdAt c;
                      lastAccessed := at_ |} in
      let context := JS.slice_from (messages c) (- maxContextLength st) in
      (if includeSystemMessage && (0 <? Z.of_nat (length context))
       then systemMessage at_ :: context
       else context, st')
  end.

Definition getRecentContext (st : t) (sid : string) (excludeLast : Z) : list Message :=
  match conversations st !! sid with
  | None => []
  | Some c =>
      let msgs := JS.slice (messages c) 0 (- excludeLast) in
      JS.slice_from msgs (- maxContextLength st)
  end.

Definition summary_line (msg : Message) : string :=
  role msg ++ ": " ++ JS.substring0 (content msg) 100
  ++ (if (100 <? String.length (content msg))%nat then "..." else "").

Definition getConversationSummary (st : t) (sid : string) : string :=
  match conversations st !! sid with
  | None => ""
  | Some c =>
      let recentMessages := JS.slice_from (messages c) (-5) in
      match recentMessages with
      | [] => ""
      | _ => "Recent conversation context:" ++ JS.nl
             ++ String.concat JS.nl (map summary_line recentMessages)
      end
  end.

Definition clearConversation (st : t) (sid : string) : t :=
  match conversations st !! sid with
  | None => st
  | Some c =>
      set_conversation st sid
        {| messages := []; createdAt := createdAt c; lastAccessed := lastAccessed c |}
  end.

Definition deleteSession (st : t) (sid : string) : t :=
  {| conversations := delete sid (conversations st);
     maxContextLength := maxContextLength st;
     maxTokens := maxTokens st |}.

(** [null] for an unknown session. *)
Definition getConversationStats (st : t) (sid : string) : option Stats :=
  match conversations st !! sid with
  | None => None
  | Some c =>
      Some {| messageCount := Z.of_nat (length (messages c));
              stats_createdAt := createdAt c;
              stats_lastAccessed := lastAccessed c;
              estimatedTokens := estimateTokens (messages c) |}
  end.

Definition updateContextConfig (st : t) (maxLength maxTok : Z) : t :=
  {| conversations := conversations st;
     maxContextLength := maxLength;
     maxTokens := maxTok |}.

Record Config := {
  config_maxContextLength : Z;
  config_maxTokens : Z;
  activeConversations : Z
}.

Definition getConfig (st : t) : Config :=
  {| config_maxContextLength := maxContextLength st;
     config_maxTokens := maxTokens st;
     activeConversations := Z.of_nat (size (conversations st)) |}.


(** The messages a session holds; none for an unknown session. *)
Definition session_messages (st : t) (sid : string) : list Message :=
  match conversations st !! sid with
  | Some c => messages c
  | None => []
  end.

(** The characters of content a list of messages holds. *)
Definition characters (msgs : list Message) : Z :=
  fold_right (fun message n => Z.of_nat (String.length (content message)) + n) 0 msgs.

(** The arguments of one [addMessage] call on a session, with what the call
    draws from outside. *)
Record Call := {
  call_role : string;
  call_content : string;
  call_metadata : Metadata;
  call_env : Env
}.

Definition call_message (c : Call) : Message :=
  {| id := Some (message_uuid (call_env c)); role := call_role c;
     content := call_content c; timestamp := now (call_env c);
     metadata := Some (call_metadata c) |}.

(** A sequence of [addMessage] calls on one session, one after the other;
    [None] as soon as one raises. *)
Fixpoint addMessages (st : t) (sid : string) (calls : list Call) : option t :=
  match calls with
  | [] => Some st
  | c :: calls' =>
      match addMessage st sid (call_role c) (call_content c) (call_metadata c)
                       (call_env c) with
      | None => None
      | Some (_, st') => addMessages st' sid calls'
      end
  end.

End Service.

Arguments Message : clear implicits.
Arguments Conversation : clear implicits.
Arguments t : clear implicits.
Arguments Call : clear implicits.

(** Sample data: an environment and a one-message session [s1]. *)
Definition env0 : Env :=
  {| session_uuid := "uuid-session"; message_uuid := "uuid-message"; now := 1000 |}.

Definition hello : Message unit :=
  {| id := Some "m1"; role := "user"; content := "hello"; timestamp := 1;
     metadata := Some tt |}.

Definition one_session (msgs : list (Message unit)) : t unit :=
  set_conversation (constructor None None) "s1"
    {| messages := msgs; createdAt := 0; lastAccessed := 0 |}.

Definition call0 : Call unit :=
  {| call_role := "user"; call_content := "hi"; call_metadata := tt; call_env := env0 |}.

(** The service started with [CONTEXT_WINDOW_LENGTH=-1] in the environment:
    [parseInt] gives [-1], which is truthy. *)
Definition negative_window : t unit := constructor (Some (-1)) None.

End ConversationContext.

(** ** JavaScript numbers *)

Module Num.

(** The arithmetic the vector store performs on numbers. [ltb] and [leb] are
    the comparisons [<] and [<=] (false when an operand is [NaN]);
    [json_number x] is what the arithmetic sees after [x] went through
    [JSON.stringify] and [JSON.parse]. *)
Class Number (T : Type) := {
  zero : T;
  one : T;
  add : T -> T -> T;
  sub : T -> T -> T;
  mul : T -> T -> T;
  div : T -> T -> T;
  sqrt : T -> T;
  ltb : T -> T -> bool;
  leb : T -> T -> bool;
  json_number : T -> T
}.

(** IEEE 754 binary64, the numbers the program computes with.
    [JSON.stringify] writes [NaN] and the infinities as [null], which every
    multiplication of [cosineSimilarity] reads as [+0], and writes [-0] as
    [0]; a finite number is read back unchanged. *)
Definition binary64_json (x : float) : float :=
  if PrimFloat.is_finite x then
    if PrimFloat.is_zero x then PrimFloat.zero else x
  else PrimFloat.zero.

#[global] Instance binary64 : Number float := {|
  zero := PrimFloat.zero;
  one := PrimFloat.one;
  add := PrimFloat.add;
  sub := PrimFloat.sub;
  mul := PrimFloat.mul;
  div := PrimFloat.div;
  sqrt := PrimFloat.sqrt;
  ltb := PrimFloat.ltb;
  leb := PrimFloat.leb;
  json_number := binary64_json
|}.

(** A number other than zero with the sign [s] ([true] for negative): a
    finite number or an infinity. *)
Definition has_sign (s : bool) (d : spec_float) : bool :=
  match d with
  | S754_finite s' _ _ | S754_infinity s' => Bool.eqb s s'
  | _ => false
  end.

(** Every component of every embedding is a finite number. *)
Definition all_finite (vectors : list (list float)) : bool :=
  forallb (forallb PrimFloat.is_finite) vectors.

(** No score of the list is [NaN]. *)
Definition no_nan (scores : list float) : bool :=
  forallb (fun s => negb (PrimFloat.is_nan s)) scores.

End Num.

(** ** binary64 numbers as real numbers *)

Module Float64.

(** [2^e]. *)
Definition bpow (e : Z) : R := powerRZ 2 e.

(** The real number a finite binary64 number stands for; 0 for the zeros
    (and, by convention, for the infinities and [NaN]). *)
Definition SF2R (d : spec_float) : R :=
  match d with
  | S754_finite s m e => (if s then -1 else 1) * IZR (Zpos m) * bpow e
  | _ => 0
  end.

Definition value (x : float) : R := SF2R (Prim2SF x).

(** The place of a real [y] in [[m, m + 1)] that a rounding location
    records: on [m], below the middle, on it, or above it. *)
Definition inbetween (y : R) (m : Z) (l : location) : Prop :=
  match l with
  | loc_Exact => y = IZR m
  | loc_Inexact Lt => (IZR m < y < IZR m + / 2)%R
  | loc_Inexact Eq => y = (IZR m + / 2)%R
  | loc_Inexact Gt => (IZR m + / 2 < y < IZR m + 1)%R
  end.

(** The dot product of two vectors over the real numbers, without any
    rounding. *)
Definition exact_dot (a b : list float) : R :=
  fold_right (fun '(x, y) acc => (value x * value y + acc)%R) 0%R (combine a b).

(** A positive finite number: greater than zero and less than infinity
    (so not a zero, not negative, not an infinity and not [NaN]); normal or
    subnormal. *)
Definition positive_finite (x : float) : bool :=
  PrimFloat.ltb PrimFloat.zero x && PrimFloat.ltb x PrimFloat.infinity.

(** Two finite components of which one is a zero; two vectors that have such
    components at every index: their supports are disjoint. *)
Definition one_is_zero (x y : float) : bool :=
  PrimFloat.is_finite x && PrimFloat.is_finite y
  && (PrimFloat.is_zero x || PrimFloat.is_zero y).

Definition disjoint_supports (a b : list float) : bool :=
  forallb (fun '(x, y) => one_is_zero x y) (combine a b).

End Float64.

(** ** EmbeddingService (src/app.js) *)

Module EmbeddingService.

Section Service.
Context {T : Type}.

(** The embedding model behind [this.client.embeddings]: the vector it
    answers a prompt with, or [None] when the request fails. *)
Variable embeddings : string -> option (list T).

(** [generateEmbedding]: the error of a failed request is logged and thrown
    again. *)
Definition generateEmbedding (text : string) : option (list T) := embeddings text.

Definition batchSize : Z := 5.

(** [Promise.all]: the results in the order of the promises, or a rejection
    when one of them is rejected. *)
Fixpoint promise_all {A} (promises : list (option A)) : option (list A) :=
  match promises with
  | [] => Some []
  | None :: _ => None
  | Some x :: promises' =>
      match promise_all promises' with
      | Some xs => Some (x :: xs)
      | None => None
      end
  end.

(** One call of [generateEmbeddings]: the prompts sent to the model, in the
    order they were sent, and what the call returns ([None]: it throws). *)
Record Run := { requested : list string; returned : option (list (list T)) }.

(** The loop [for (let i = 0; i < texts.length; i += batchSize)], run for at
    most [fuel] passes. [batch.map(text => this.generateEmbedding(text))]
    sends the request of every text of the batch before the first answer is
    awaited. *)
Fixpoint batches (fuel : nat) (texts : list string) (i : Z)
    (embeddings_ : list (list T)) (sent : list string) : option Run :=
  if i <? Z.of_nat (length texts) then
    match fuel with
    | O => None
    | S fuel' =>
        let batch := JS.slice texts i (i + batchSize) in
        let batchPromises := map generateEmbedding batch in
        match promise_all batchPromises with
        | Some batchEmbeddings =>
            batches fuel' texts (i + batchSize) (embeddings_ ++ batchEmbeddings)
                    (sent ++ batch)
        | None => Some {| requested := sent ++ batch; returned := None |}
        end
    end
  else Some {| requested := sent; returned := Some embeddings_ |}.

Definition generateEmbeddings (fuel : nat) (texts : list string) : option Run :=
  batches fuel texts 0 [] [].

End Service.

Arguments Run : clear implicits.

(** Sample data: seven texts, a model that answers every prompt, and one
    that fails on the prompt [bad]. *)
Definition seven_texts : list string := ["a"; "b"; "c"; "d"; "e"; "f"; "g"].

Definition constant_model : string -> option (list Z) := fun _ => Some [1].

Definition model_failing_on (bad : string) : string -> option (list Z) :=
  fun text => if String.eqb text bad then None else Some [1].

End EmbeddingService.

(** ** SimpleVectorStore (src/app.js) *)

Module SimpleVectorStore.

Import Num.

(** [value || fallback] for a string: [undefined] and the empty string are
    falsy. *)
Definition string_or (value : option string) (fallback : string) : string :=
  match value with
  | Some v => if String.eqb v "" then fallback else v
  | None => fallback
  end.

(** [value || 0] for an integer. *)
Definition int_or_zero (value : option Z) : Z :=
  match value with Some v => v | None => 0 end.

(** [value || []]: an array, even an empty one, is truthy. *)
Definition list_or_empty {A} (value : option (list A)) : list A :=
  match value with Some l => l | None => [] end.

(** A chunk handed to [addDocuments]; the fields the store reads. *)
Record Chunk := {
  chunk_content : string;
  chunk_source : option string;
  chunk_title : option string;
  chunkIndex : option Z
}.

Record Metadata := {
  source : string;
  title : string;
  chunk_index : Z
}.

Section Store.
Context {T : Type} `{Number T}.

Record t := {
  documents : list string;
  embeddings : list (list T);
  metadatas : list Metadata;
  ids : list string;
  collectionName : string
}.

(** The parsed content of [vector_storage.json]; a field may be missing. *)
Record Snapshot := {
  snap_documents : option (list string);
  snap_embeddings : option (list (list T));
  snap_metadatas : option (list Metadata);
  snap_ids : option (list string);
  snap_collectionName : option string
}.

(** The storage file: absent (or unreadable), or holding a snapshot. *)
Definition Disk := option Snapshot.

Record SearchResult := {
  content : option string;
  metadata : option Metadata;
  distance : T;
  similarity : T
}.

Definition constructor (collection_env : option string) : t :=
  {| documents := []; embeddings := []; metadatas := []; ids := [];
     collectionName := string_or collection_env "specialist-agent" |}.

Definition cosineSimilarity (a b : list T) : T :=
  if (length a =? length b)%nat then
    let '(dotProduct, normA, normB) :=
      fold_left
        (fun '(dotProduct, normA, normB) '(x, y) =>
           (add dotProduct (mul x y), add normA (mul x x), add normB (mul y y)))
        (combine a b) (zero, zero, zero) in
    div dotProduct (mul (sqrt normA) (sqrt normB))
  else zero.

(** The comparator of the search, [(a, b) => b.similarity - a.similarity],
    is positive. *)
Definition after (a b : SearchResult) : bool :=
  ltb zero (sub (similarity b) (similarity a)).

Definition result_at (st : t) (sim : T) (index : nat) : SearchResult :=
  {| content := documents st !! index;
     metadata := metadatas st !! index;
     distance := sub one sim;
     similarity := sim |}.

(** The similarities in store order, and the records built from them, before
    sorting. *)
Definition similarities (st : t) (queryEmbedding : list T) : list T :=
  map (cosineSimilarity queryEmbedding) (embeddings st).

Definition scored (st : t) (queryEmbedding : list T) : list SearchResult :=
  JS.map_index (result_at st) (similarities st queryEmbedding).

(** [embed] is the embedding service, [generateEmbedding]. *)
Definition similarity_search (embed : string -> list T) (st : t)
    (query : string) (k : Z) : list SearchResult :=
  if (length (embeddings st) =? 0)%nat then []
  else JS.slice (JS.sort after (scored st (embed query))) 0 k.

Definition snapshot (st : t) : Snapshot :=
  {| snap_documents := Some (documents st);
     snap_embeddings := Some (map (map json_number) (embeddings st));
     snap_metadatas := Some (metadatas st);
     snap_ids := Some (ids st);
     snap_collectionName := Some (collectionName st) |}.

(** [saveToStorage]: the file after [JSON.stringify(data)] was written, as
    [JSON.parse] reads it. (A write that fails is logged and leaves the file
    as it was; the write modelled here succeeds.) *)
Definition saveToStorage (st : t) : Disk := Some (snapshot st).

(** [loadFromStorage]: a missing file leaves the instance as it is. *)
Definition loadFromStorage (st : t) (disk : Disk) : t :=
  match disk with
  | None => st
  | Some parsed =>
      {| documents := list_or_empty (snap_documents parsed);
         embeddings := list_or_empty (snap_embeddings parsed);
         metadatas := list_or_empty (snap_metadatas parsed);
         ids := list_or_empty (snap_ids parsed);
         collectionName := string_or (snap_collectionName parsed) (collectionName st) |}
  end.

(** [initialize]: the store starts from the storage file when there is one. *)
Definition initialize (st : t) (disk : Disk) : t := loadFromStorage st disk.

Definition metadata_of (doc : Chunk) : Metadata :=
  {| source := string_or (chunk_source doc) "unknown";
     title := string_or (chunk_title doc) "untitled";
     chunk_index := int_or_zero (chunkIndex doc) |}.

(** The id of the document at [index], made when the clock reads [now]. *)
Definition make_id (now : Z) (index : nat) : string :=
  "doc_" ++ JS.show now ++ "_" ++ JS.show (Z.of_nat index).

(** [addDocuments]: [embed] is the embedding service and [clock index] the
    value of [Date.now()] when the id of the document at [index] is made.
    Returns the store and the storage file written. *)
Definition addDocuments (embed : string -> list T) (clock : nat -> Z) (st : t)
    (docs : list Chunk) : t * Disk :=
  let texts := map chunk_content docs in
  let new_embeddings := map embed texts in
  let new_ids := JS.map_index (fun _ index => make_id (clock index) index) docs in
  let new_metadatas := map metadata_of docs in
  let st' :=
    {| documents := documents st ++ texts;
       embeddings := embeddings st ++ new_embeddings;
       metadatas := metadatas st ++ new_metadatas;
       ids := ids st ++ new_ids;
       collectionName := collectionName st |} in
  (st', saveToStorage st').

Definition clear (st : t) : t * Disk :=
  let st' :=
    {| documents := []; embeddings := []; metadatas := []; ids := [];
       collectionName := collectionName st |} in
  (st', saveToStorage st').

(** The two calls with an embedding service that can fail.
    [generateEmbedding] and [generateEmbeddings] throw the error of a failed
    request again, and it leaves [similarity_search] and [addDocuments] too:
    [None]. An empty index is answered before the service is asked;
    [addDocuments] asks the service before it changes anything. Where the
    service answers, the calls are the ones above with its answer. *)
Definition similarity_search_or_throw (generateEmbedding : string -> option (list T))
    (st : t) (query : string) (k : Z) : option (list SearchResult) :=
  if (length (embeddings st) =? 0)%nat then Some []
  else match generateEmbedding query with
       | Some queryEmbedding =>
           Some (JS.slice (JS.sort after (scored st queryEmbedding)) 0 k)
       | None => None
       end.

Definition addDocuments_or_throw
    (generateEmbeddings : list string -> option (list (list T))) (clock : nat -> Z)
    (st : t) (docs : list Chunk) : option (t * Disk) :=
  let texts := map chunk_content docs in
  match generateEmbeddings texts with
  | None => None
  | Some new_embeddings =>
      let new_ids := JS.map_index (fun _ index => make_id (clock index) index) docs in
      let new_metadatas := map metadata_of docs in
      let st' :=
        {| documents := documents st ++ texts;
           embeddings := embeddings st ++ new_embeddings;
           metadatas := metadatas st ++ new_metadatas;
           ids := ids st ++ new_ids;
           collectionName := collectionName st |} in
      Some (st', saveToStorage st')
  end.

(** The similarity metric in the words of the specification: the dot product
    divided by the product of the two magnitudes, and [0] for vectors of
    different lengths. *)
Definition dot_product (a b : list T) : T :=
  fold_left (fun acc '(x, y) => add acc (mul x y)) (combine a b) zero.

Definition magnitude (a : list T) : T := sqrt (dot_product a a).

Definition cosine_spec (a b : list T) : T :=
  if (length a =? length b)%nat
  then div (dot_product a b) (mul (magnitude a) (magnitude b))
  else zero.

(** A result list is sorted by non-increasing similarity: each result's
    similarity is at least the next one's. *)
Definition non_increasing (earlier later : SearchResult) : Prop :=
  leb (similarity later) (similarity earlier) = true.

(** The comparator [b - a] agrees with the order on two scores: where it is
    positive [a <= b], and where it is not [b <= a]. It does not on [NaN]. *)
Definition comparator_agrees (a b : T) : bool :=
  if ltb zero (sub b a) then leb a b else leb b a.

Definition ordered_scores (scores : list T) : bool :=
  forallb (fun a => forallb (comparator_agrees a) scores) scores.

(** Every component of every stored embedding is read back from the storage
    file as it was written. *)
Definition json_stable (st : t) : Prop :=
  Forall (Forall (fun x => json_number x = x)) (embeddings st).

(** The four parallel arrays describe the same records: they have one
    length. *)
Definition aligned (st : t) : Prop :=
  length (documents st) = length (embeddings st)
  /\ length (metadatas st) = length (embeddings st)
  /\ length (ids st) = length (embeddings st).

End Store.

Arguments t : clear implicits.
Arguments Snapshot : clear implicits.
Arguments Disk : clear implicits.
Arguments SearchResult : clear implicits.

(** Sample data over binary64. *)
Definition chunk0 : Chunk :=
  {| chunk_content := "Cats are mammals."; chunk_source := Some "cats.txt";
     chunk_title := Some "cats"; chunkIndex := None |}.

Definition embed_const (v : list float) : string -> list float := fun _ => v.

(** An embedding service that answers every request with [v], and one whose
    every request fails. *)
Definition service_const (v : list float) : string -> option (list float) :=
  fun _ => Some v.

Definition service_down : string -> option (list float) := fun _ => None.

Definition batch_const (v : list float) : list string -> option (list (list float)) :=
  fun texts => Some (map (fun _ => v) texts).

Definition batch_down : list string -> option (list (list float)) := fun _ => None.

(** Three records whose second embedding is the zero vector. *)
Definition store_with_zero_vector : t float :=
  {| documents := ["a"; "b"; "c"];
     embeddings := [[0; 1]; [0; 0]; [1; 0]]%float;
     metadatas := []; ids := ["id0"; "id1"; "id2"];
     collectionName := "specialist-agent" |}.

(** One record with an infinite component. *)
Definition store_with_infinity : t float :=
  {| documents := ["a"];
     embeddings := [[infinity; 1]]%float;
     metadatas := []; ids := ["id0"];
     collectionName := "specialist-agent" |}.

(** Two records, one with a negative zero component. *)
Definition store_with_negative_zero : t float :=
  {| documents := ["a"; "b"];
     embeddings := [[- 0; 1]; [1; 1]]%float;
     metadatas := []; ids := ["id0"; "id1"];
     collectionName := "specialist-agent" |}.

Definition store_plain : t float :=
  {| documents := ["a"; "b"; "c"];
     embeddings := [[0; 1]; [1; 1]; [1; 0]]%float;
     metadatas := []; ids := ["id0"; "id1"; "id2"];
     collectionName := "specialist-agent" |}.

(** One record with the embedding [[1, 1, 1]]. *)
Definition store_ones : t float :=
  {| documents := ["a"];
     embeddings := [[1; 1; 1]]%float;
     metadatas := []; ids := ["id0"];
     collectionName := "specialist-agent" |}.

(** The store after one [addDocuments] call with two chunks. *)
Definition store_two_records : t float :=
  fst (addDocuments (embed_const [1; 0]%float) (fun _ => 1700000000000)
         (constructor None) [chunk0; chunk0]).

End SimpleVectorStore.

(** ** VectorStore, the facade over ChromaDB and the in-process store
    (src/app.js) *)

Module VectorStore.

Import Num.

Section Store.
Context {T : Type} `{Number T}.

(** ChromaDB, outside the program. [Collection] is the handle the client
    returns. [getCollection] answers with the handle or with the message of
    the error it throws; [createCollection], [add] and [query] answer or
    throw ([None], [false]). *)
Context {Collection : Type}.

Record QueryResult := {
  result_documents : list (list string);
  result_metadatas : list (list SimpleVectorStore.Metadata);
  result_distances : list (list T)
}.

Record AddRequest := {
  add_ids : list string;
  add_embeddings : list (list T);
  add_documents : list string;
  add_metadatas : list SimpleVectorStore.Metadata
}.

Record Chroma := {
  getCollection : string -> Collection + string;
  createCollection : string -> option Collection;
  add : Collection -> AddRequest -> bool;
  query : Collection -> list T -> Z -> option QueryResult
}.

(** The facade with the in-process store it falls back to (the one instance
    of [SimpleVectorStore]) and that store's storage file. *)
Record t := {
  collectionName : string;
  collection : option Collection;
  useSimpleStore : bool;
  simple : SimpleVectorStore.t T;
  disk : SimpleVectorStore.Disk T
}.

(** A result as the facade returns it: a record of the in-process store has
    the four fields, one built from a ChromaDB answer has no [similarity]. *)
Record Result := {
  content : option string;
  metadata : option SimpleVectorStore.Metadata;
  distance : option T;
  similarity : option T
}.

Definition constructor (collection_env : option string)
    (simpleVectorStore : SimpleVectorStore.t T) (file : SimpleVectorStore.Disk T) : t :=
  {| collectionName := SimpleVectorStore.string_or collection_env "specialist-agent";
     collection := None;
     useSimpleStore := false;
     simple := simpleVectorStore;
     disk := file |}.

Definition connection_failure (message : string) : bool :=
  JS.includes message "Could not connect to tenant"
  || JS.includes message "Failed to connect to chromadb".

(** [this.useSimpleStore = true; await simpleVectorStore.initialize()]. *)
Definition use_simple_store (st : t) : t :=
  {| collectionName := collectionName st;
     collection := collection st;
     useSimpleStore := true;
     simple := SimpleVectorStore.initialize (simple st) (disk st);
     disk := disk st |}.

Definition set_collection (st : t) (c : Collection) : t :=
  {| collectionName := collectionName st;
     collection := Some c;
     useSimpleStore := useSimpleStore st;
     simple := simple st;
     disk := disk st |}.

Definition initialize (chroma : Chroma) (st : t) : t :=
  match getCollection chroma (collectionName st) with
  | inl c => set_collection st c
  | inr message =>
      if connection_failure message then use_simple_store st
      else match createCollection chroma (collectionName st) with
           | Some c => set_collection st c
           | None => use_simple_store st
           end
  end.

(** [if (!this.collection) await this.initialize()]. *)
Definition ensure_collection (chroma : Chroma) (st : t) : t :=
  match collection st with
  | Some _ => st
  | None => initialize chroma st
  end.

Definition of_simple (r : SimpleVectorStore.SearchResult T) : Result :=
  {| content := SimpleVectorStore.content r;
     metadata := SimpleVectorStore.metadata r;
     distance := Some (SimpleVectorStore.distance r);
     similarity := Some (SimpleVectorStore.similarity r) |}.

(** [results.documents[0].map((doc, index) => ...)]; [None] is the
    [TypeError] of reading into an [undefined] first row. *)
Definition of_chroma (results : QueryResult) : option (list Result) :=
  match result_documents results !! 0%nat with
  | None => None
  | Some [] => Some []
  | Some docs =>
      match result_metadatas results !! 0%nat, result_distances results !! 0%nat with
      | Some metadatas, Some distances =>
          Some (JS.map_index
                  (fun doc index =>
                     {| content := Some doc;
                        metadata := metadatas !! index;
                        distance := distances !! index;
                        similarity := None |})
                  docs)
      | _, _ => None
      end
  end.

(** [similarity_search]: the results, or [None] when an exception leaves
    the function, and the state afterwards. [generateEmbedding] is the
    embedding service, which answers or throws ([None]). *)
Definition similarity_search (chroma : Chroma)
    (generateEmbedding : string -> option (list T)) (st : t)
    (query_ : string) (k : Z) : option (list Result) * t :=
  if useSimpleStore st then
    (option_map (map of_simple)
       (SimpleVectorStore.similarity_search_or_throw generateEmbedding (simple st) query_ k),
     st)
  else
    let st1 := ensure_collection chroma st in
    match generateEmbedding query_ with
    | None => (None, st1)
    | Some queryEmbedding =>
        match collection st1 with
        | None => (None, st1)
        | Some c =>
            match query chroma c queryEmbedding k with
            | None => (None, st1)
            | Some results => (of_chroma results, st1)
            end
        end
    end.

(** The facade after its in-process store changed to [simple'] and wrote
    [file]. *)
Definition set_simple (st : t) (simple' : SimpleVectorStore.t T)
    (file : SimpleVectorStore.Disk T) : t :=
  {| collectionName := collectionName st;
     collection := collection st;
     useSimpleStore := useSimpleStore st;
     simple := simple';
     disk := file |}.

(** [addDocuments]: [Some tt] when the call returns, [None] when an
    exception leaves it, and the state afterwards. [generateEmbeddings] is
    the embedding service, which answers or throws ([None]); [uuid index] is
    the value of [uuidv4()] for the document at [index], [clock] the readings
    of [Date.now()] the in-process store takes. *)
Definition addDocuments (chroma : Chroma)
    (generateEmbeddings : list string -> option (list (list T)))
    (clock : nat -> Z) (uuid : nat -> string) (st : t)
    (docs : list SimpleVectorStore.Chunk) : option unit * t :=
  if useSimpleStore st then
    match SimpleVectorStore.addDocuments_or_throw generateEmbeddings clock (simple st) docs with
    | Some (simple', file) => (Some tt, set_simple st simple' file)
    | None => (None, st)
    end
  else
    let st1 := ensure_collection chroma st in
    let texts := map SimpleVectorStore.chunk_content docs in
    match generateEmbeddings texts with
    | None => (None, st1)
    | Some embeddings =>
        let ids := JS.map_index (fun _ index => uuid index) docs in
        let metadatas := map SimpleVectorStore.metadata_of docs in
        match collection st1 with
        | None => (None, st1)
        | Some c =>
            if add chroma c {| add_ids := ids; add_embeddings := embeddings;
                               add_documents := texts; add_metadatas := metadatas |}
            then (Some tt, st1)
            else (None, st1)
        end
    end.

(** The facade has been initialized: it holds a collection or has switched to
    the in-process store. *)
Definition initialized (st : t) : Prop :=
  useSimpleStore st = true \/ is_Some (collection st).

(** ChromaDB cannot be used: [getCollection] fails, with a message that tells
    a failed connection or followed by a [createCollection] that fails. *)
Definition unavailable (chroma : Chroma) (name : string) : Prop :=
  exists message,
    getCollection chroma name = inr message
    /\ (connection_failure message = true \/ createCollection chroma name = None).

End Store.

Arguments t : clear implicits.
Arguments Chroma : clear implicits.
Arguments Result : clear implicits.
Arguments QueryResult : clear implicits.
Arguments AddRequest : clear implicits.

(** Sample data: a ChromaDB that cannot be reached. *)
Definition offline : Chroma float unit :=
  {| getCollection := fun _ => inr "Failed to connect to chromadb";
     createCollection := fun _ => None;
     add := fun _ _ => false;
     query := fun _ _ _ => None |}.

Definition not_initialized : t float unit :=
  constructor None SimpleVectorStore.store_two_records None.

End VectorStore.

(** ** ChatService (src/services/chat.js) *)

Module ChatService.

Import Num.

Section Chat.
Context {T : Type} `{Number T}.

(** One cited source, and the metadata object of a stored message: the
    default [{}] or [{ sources: [...] }]. *)
Record SourceRef := {
  ref_source : string;
  ref_title : string;
  ref_similarity : T
}.

Inductive MessageMetadata :=
| EmptyObject
| Sources (sources : list SourceRef).

(** [vectorStore.similarity_search] and the chat model (the content of the
    message [this.client.chat] answers with), both outside this class. Either
    answers or throws: [None]. *)
Variable similarity_search :
  string -> Z -> option (list (SimpleVectorStore.SearchResult T)).
Variable chat : string -> option string.

Definition buildPrompt (query documentContext conversationContext : string) : string :=
  let prompt :=
    "You are a specialist AI agent with expertise in document analysis and question answering. Use the provided context to answer the user's question accurately and comprehensively."
    ++ JS.nl ++ JS.nl ++ "Document Context:" ++ JS.nl ++ documentContext in
  let prompt :=
    if String.eqb conversationContext "" then prompt
    else prompt ++ JS.nl ++ JS.nl ++ "Conversation Context:" ++ JS.nl ++ conversationContext in
  prompt ++ JS.nl ++ JS.nl ++ "Question: " ++ query ++ JS.nl ++ JS.nl
  ++ "Instructions:" ++ JS.nl
  ++ "- Answer based primarily on the provided document context" ++ JS.nl
  ++ "- Use conversation context to maintain continuity and provide more relevant responses" ++ JS.nl
  ++ "- Be specific and detailed in your response" ++ JS.nl
  ++ "- If the context doesn't contain enough information, clearly state what's missing" ++ JS.nl
  ++ "- Cite specific sources when possible" ++ JS.nl
  ++ "- Maintain a professional and knowledgeable tone" ++ JS.nl
  ++ "- Reference previous parts of the conversation when relevant" ++ JS.nl ++ JS.nl
  ++ "Answer:".

(** [generateResponse(query, context = '')] declares two parameters: a third
    argument of a call is bound to nothing, and [buildPrompt] is called with
    two arguments, so its [conversationContext] takes the default [''].
    Returns the prompt sent to the chat model and the model's answer, [None]
    when the request fails: the error is logged and thrown again. *)
Definition generateResponse (query context : string) (unbound : string)
    : string * option string :=
  let prompt := buildPrompt query context "" in
  (prompt, chat prompt).

(** [`Source: ${doc.metadata.source}\n${doc.content}`]; [None] is the
    [TypeError] of reading [source] on an [undefined] metadata. *)
Definition render_document (doc : SimpleVectorStore.SearchResult T) : option string :=
  match SimpleVectorStore.metadata doc with
  | None => None
  | Some m =>
      Some ("Source: " ++ SimpleVectorStore.source m ++ JS.nl
            ++ match SimpleVectorStore.content doc with
               | Some c => c
               | None => "undefined"
               end)
  end.

Definition source_ref (doc : SimpleVectorStore.SearchResult T) : option SourceRef :=
  match SimpleVectorStore.metadata doc with
  | None => None
  | Some m =>
      Some {| ref_source := SimpleVectorStore.source m;
              ref_title := SimpleVectorStore.title m;
              ref_similarity := sub one (SimpleVectorStore.distance doc) |}
  end.

Fixpoint all_some {A} (l : list (option A)) : option (list A) :=
  match l with
  | [] => Some []
  | None :: _ => None
  | Some x :: l' =>
      match all_some l' with Some xs => Some (x :: xs) | None => None end
  end.

Definition separator : string := JS.nl ++ JS.nl ++ "---" ++ JS.nl ++ JS.nl.

Record Answer := {
  sent : list string;
  answer : string;
  sources : list SourceRef;
  sessionId : option string;
  service : ConversationContext.t MessageMetadata
}.

(** The block that records the exchange; an error inside it is caught and
    the state reached so far is kept. *)
Definition store_exchange (svc : ConversationContext.t MessageMetadata)
    (sid question response : string) (cited : list SourceRef)
    (env_create env_user env_assistant : ConversationContext.Env)
    : ConversationContext.t MessageMetadata :=
  let svc1 :=
    if ConversationContext.has svc sid then svc
    else snd (ConversationContext.createSession svc (Some sid) env_create) in
  match ConversationContext.addMessage svc1 sid "user" question EmptyObject env_user with
  | None => svc1
  | Some (_, svc2) =>
      match ConversationContext.addMessage svc2 sid "assistant" response
              (Sources cited) env_assistant with
      | None => svc2
      | Some (_, svc3) => svc3
      end
  end.

(** [answerQuestion]; [None] is an exception that leaves the function: the
    one the search throws, the [TypeError] of a record without metadata, or
    the one [generateResponse] throws. *)
Definition answerQuestion (svc : ConversationContext.t MessageMetadata)
    (question : string) (sessionId : option string)
    (env_create env_user env_assistant : ConversationContext.Env) : option Answer :=
  match similarity_search question 5 with
  | None => None
  | Some relevantDocs =>
      match all_some (map render_document relevantDocs),
            all_some (map source_ref relevantDocs) with
      | Some rendered, Some cited =>
          let documentContext := String.concat separator rendered in
          let conversationContextText :=
            match ConversationContext.truthy sessionId with
            | Some sid => ConversationContext.getConversationSummary svc sid
            | None => ""
            end in
          match generateResponse question documentContext conversationContextText with
          | (prompt, Some response) =>
              let svc' :=
                match ConversationContext.truthy sessionId with
                | Some sid =>
                    store_exchange svc sid question response cited
                                   env_create env_user env_assistant
                | None => svc
                end in
              Some {| sent := [prompt]; answer := response; sources := cited;
                      sessionId := sessionId; service := svc' |}
          | (_, None) => None
          end
      | _, _ => None
      end
  end.

End Chat.

(** Sample data: a service holding the session [s1] with one user message,
    a vector store answering every search with one chunk, and a chat model
    with a fixed answer. *)
Definition session_s1 : ConversationContext.t (@MessageMetadata float) :=
  ConversationContext.set_conversation (ConversationContext.constructor None None) "s1"
    {| ConversationContext.messages :=
         [ {| ConversationContext.id := Some "m1";
              ConversationContext.role := "user";
              ConversationContext.content := "hello";
              ConversationContext.timestamp := 1;
              ConversationContext.metadata := Some EmptyObject |} ];
       ConversationContext.createdAt := 0;
       ConversationContext.lastAccessed := 1 |}.

Definition one_chunk
    : string -> Z -> option (list (SimpleVectorStore.SearchResult float)) :=
  fun _ _ =>
    Some [ {| SimpleVectorStore.content := Some "Cats are mammals.";
              SimpleVectorStore.metadata :=
                Some {| SimpleVectorStore.source := "cats.txt";
                        SimpleVectorStore.title := "cats";
                        SimpleVectorStore.chunk_index := 0 |};
              SimpleVectorStore.distance := 0.25%float;
              SimpleVectorStore.similarity := 0.75%float |} ].

(** A vector store answering every search with one record that has no
    metadata. *)
Definition chunk_without_metadata
    : string -> Z -> option (list (SimpleVectorStore.SearchResult float)) :=
  fun _ _ =>
    Some [ {| SimpleVectorStore.content := Some "Cats are mammals.";
              SimpleVectorStore.metadata := None;
              SimpleVectorStore.distance := 0.25%float;
              SimpleVectorStore.similarity := 0.75%float |} ].

Definition fixed_answer : string -> option string := fun _ => Some "Cats are mammals.".

(** A search and a chat model whose request fails. *)
Definition failing_search
    : string -> Z -> option (list (SimpleVectorStore.SearchResult float)) :=
  fun _ _ => None.

Definition failing_chat : string -> option string := fun _ => None.

Definition question0 : string := "What are cats?".

Definition document_context0 : string := "Source: cats.txt" ++ JS.nl ++ "Cats are mammals.".

Definition summary_s1 : string :=
  "Recent conversation context:" ++ JS.nl ++ "user: hello".

End ChatService.

(** * Properties *)

(** ** The model on small inputs *)

Example slice_last_two : JS.slice_from [1; 2; 3; 4; 5] (-2) = [4; 5].
Proof. reflexivity. Qed.

Example slice_without_last : JS.slice [1; 2; 3; 4; 5] 0 (-1) = [1; 2; 3; 4].
Proof. reflexivity. Qed.

Example slice_beyond_the_end : JS.slice [1; 2; 3] 1 10 = [2; 3].
Proof. reflexivity. Qed.

Example lastIndexOf_full_stop :
  JS.lastIndexOf "Cats are mammals. Dogs are mammals too." "." 20 = 16.
Proof. reflexivity. Qed.

Example lastIndexOf_absent : JS.lastIndexOf "no paragraph" (JS.nl ++ JS.nl) 5 = -1.
Proof. reflexivity. Qed.

Example trim_both_ends : JS.trim "  two words  " = "two words".
Proof. reflexivity. Qed.

Example show_negative : JS.show (-42) = "-42".
Proof. reflexivity. Qed.

Example sort_descending :
  JS.sort (fun a b => 0 <? b - a) [2; 5; 1; 5; 3] = [5; 5; 3; 2; 1].
Proof. reflexivity. Qed.

Example splitText_without_break :
  TextSplitter.splitText 10 {| TextSplitter.chunkSize := 10; TextSplitter.chunkOverlap := 3 |}
    "abcdefghijklmnopqrstuvwxyz"
  = Some ["abcdefghij"; "hijklmnopq"; "opqrstuvwx"; "vwxyz"].
Proof. reflexivity. Qed.

Example splitText_at_sentence_end :
  TextSplitter.splitText 10 {| TextSplitter.chunkSize := 20; TextSplitter.chunkOverlap := 0 |}
    TextSplitter.scenario_text
  = Some ["Cats are mammals."; "Dogs are mammals to"; "o."].
Proof. reflexivity. Qed.

Example summary_of_one_message :
  ConversationContext.getConversationSummary
    (ConversationContext.one_session [ConversationContext.hello]) "s1"
  = "Recent conversation context:" ++ JS.nl ++ "user: hello".
Proof. reflexivity. Qed.

Example cosine_of_a_vector_with_itself :
  SimpleVectorStore.cosineSimilarity [3; 4]%float [3; 4]%float = 1%float.
Proof. reflexivity. Qed.

Example cosine_of_orthogonal_vectors :
  SimpleVectorStore.cosineSimilarity [1; 0]%float [0; 1]%float = 0%float.
Proof. reflexivity. Qed.

Example make_id_sample : SimpleVectorStore.make_id 1700000000000 3 = "doc_1700000000000_3".
Proof. reflexivity. Qed.

(** ** The text splitter *)

Section TextSplitterFacts.
Import TextSplitter.
Variables (ts : t) (text : string).

Lemma loop_enter fuel start chunks :
  start < Z.of_nat (String.length text) ->
  loop (S fuel) ts text start chunks =
  loop fuel ts text (snd (iteration ts text start))
       (chunks ++ [fst (iteration ts text start)]).
Proof.
  intros Hlt. cbn [loop].
  destruct (Z.ltb_spec start (Z.of_nat (String.length text))) as [_|Hge]; [|lia].
  destruct (iteration ts text start); reflexivity.
Qed.

Lemma loop_leave fuel start chunks :
  Z.of_nat (String.length text) <= start ->
  loop fuel ts text start chunks = Some (List.filter nonempty chunks).
Proof.
  intros Hge. destruct fuel; cbn [loop];
    destruct (Z.ltb_spec start (Z.of_nat (String.length text))); (lia || reflexivity).
Qed.

(** A value of [start] inside the text that one pass maps to itself is
    never left: the loop pushes chunks for ever. *)
Lemma loop_stuck start :
  start < Z.of_nat (String.length text) ->
  snd (iteration ts text start) = start ->
  forall fuel chunks, loop fuel ts text start chunks = None.
Proof.
  intros Hlt Hfix fuel. induction fuel as [|fuel IH]; intros chunks.
  - cbn [loop].
    destruct (Z.ltb_spec start (Z.of_nat (String.length text))); [reflexivity|lia].
  - rewrite loop_enter by exact Hlt. rewrite Hfix. apply IH.
Qed.

Lemma filter_nonempty chunks :
  Forall (fun chunk => (0 < String.length chunk)%nat) (List.filter nonempty chunks).
Proof.
  apply List.Forall_forall. intros c Hc.
  apply List.filter_In in Hc as [_ Hc]. unfold nonempty in Hc.
  apply Nat.ltb_lt in Hc. exact Hc.
Qed.

(** Whatever the loop returns has passed the final filter. *)
Lemma loop_nonempty fuel start chunks result :
  loop fuel ts text start chunks = Some result ->
  Forall (fun chunk => (0 < String.length chunk)%nat) result.
Proof.
  revert start chunks. induction fuel as [|fuel IH]; intros start chunks; cbn [loop];
    destruct (Z.ltb_spec start (Z.of_nat (String.length text))); try discriminate.
  - intros [= <-]. apply filter_nonempty.
  - destruct (iteration ts text start). apply IH.
  - intros [= <-]. apply filter_nonempty.
Qed.

(** With an overlap of at most one character every pass moves [start]
    forward. *)
Lemma iteration_advances start :
  chunkOverlap ts < chunkSize ts -> chunkOverlap ts <= 1 ->
  start + 1 <= snd (iteration ts text start).
Proof.
  intros Hlt Hov. unfold iteration. cbn [snd].
  destruct (_ <? Z.of_nat (String.length text)); [|lia].
  destruct (Z.ltb_spec start
              (Z.max (JS.lastIndexOf text "." (start + chunkSize ts))
                     (JS.lastIndexOf text (JS.nl ++ JS.nl) (start + chunkSize ts)))); lia.
Qed.

Lemma loop_returns fuel start chunks :
  chunkOverlap ts < chunkSize ts -> chunkOverlap ts <= 1 ->
  Z.of_nat (String.length text) - start <= Z.of_nat fuel ->
  exists result, loop fuel ts text start chunks = Some result.
Proof.
  intros Hlt Hov. revert start chunks.
  induction fuel as [|fuel IH]; intros start chunks Hfuel.
  - rewrite loop_leave by lia. eauto.
  - destruct (Z.lt_ge_cases start (Z.of_nat (String.length text))) as [Hin|Hout].
    + rewrite loop_enter by exact Hin. apply IH.
      pose proof (iteration_advances start Hlt Hov). lia.
    + rewrite loop_leave by lia. eauto.
Qed.

End TextSplitterFacts.

(** C1 (the code does not do what the claim says). With [chunkSize = 20] and
    [chunkOverlap = 5], so [chunkSize > 0] and [chunkOverlap < chunkSize],
    [splitText] on the text of the specification's own scenario never
    returns: the first pass ends at the full stop (index 16) and moves
    [start] to 12; from 12 the window again ends at that full stop, the chunk
    [mals.] is pushed and [start] is 12 again. No number of passes leaves
    the loop. *)
Theorem splitText_scenario_diverges :
  TextSplitter.chunkSize TextSplitter.scenario_config > 0 /\
  TextSplitter.chunkOverlap TextSplitter.scenario_config
    < TextSplitter.chunkSize TextSplitter.scenario_config /\
  TextSplitter.iteration TextSplitter.scenario_config TextSplitter.scenario_text 0
    = ("Cats are mammals.", 12) /\
  TextSplitter.iteration TextSplitter.scenario_config TextSplitter.scenario_text 12
    = ("mals.", 12) /\
  forall fuel,
    TextSplitter.splitText fuel TextSplitter.scenario_config TextSplitter.scenario_text
    = None.
Proof.
  repeat split; try reflexivity.
  intros [|fuel]; [reflexivity|].
  unfold TextSplitter.splitText. rewrite loop_enter by (vm_compute; reflexivity).
  change (snd (TextSplitter.iteration TextSplitter.scenario_config
                 TextSplitter.scenario_text 0)) with 12.
  apply loop_stuck; reflexivity.
Qed.

(** X1. With an overlap of at most one character (and less than the chunk
    size), [splitText] returns after at most as many passes as the text has
    characters, and every chunk it returns is non-empty. *)
Theorem splitText_small_overlap_terminates (ts : TextSplitter.t) (text : string) :
  TextSplitter.chunkOverlap ts < TextSplitter.chunkSize ts ->
  TextSplitter.chunkOverlap ts <= 1 ->
  exists chunks,
    TextSplitter.splitText (String.length text) ts text = Some chunks /\
    Forall (fun chunk => (0 < String.length chunk)%nat) chunks.
Proof.
  intros Hlt Hov.
  destruct (loop_returns ts text (String.length text) 0 [] Hlt Hov) as [r Hr]; [lia|].
  exists r. split; [exact Hr|]. eapply loop_nonempty. exact Hr.
Qed.

Lemma splitText_small_overlap_witness :
  exists chunks,
    TextSplitter.splitText 26 {| TextSplitter.chunkSize := 10; TextSplitter.chunkOverlap := 1 |}
      "abcdefghijklmnopqrstuvwxyz" = Some chunks /\
    Forall (fun chunk => (0 < String.length chunk)%nat) chunks.
Proof.
  apply (splitText_small_overlap_terminates
           {| TextSplitter.chunkSize := 10; TextSplitter.chunkOverlap := 1 |}
           "abcdefghijklmnopqrstuvwxyz"); simpl; lia.
Defined.

(** ** Slices *)

Section SliceFacts.
Context {A : Type}.
Implicit Types l : list A.

Lemma slice_from_drop l start :
  JS.slice_from l start
  = drop (Z.to_nat (JS.relative_index (Z.of_nat (length l)) start)) l.
Proof.
  unfold JS.slice_from, JS.slice.
  set (len := Z.of_nat (length l)).
  assert (Hto : JS.relative_index len len = len).
  { unfold JS.relative_index. destruct (Z.ltb_spec len 0); lia. }
  rewrite Hto. apply take_ge. rewrite length_drop.
  assert (0 <= JS.relative_index len start <= len).
  { unfold JS.relative_index. destruct (Z.ltb_spec start 0); lia. }
  lia.
Qed.

(** [slice(-0)] is [slice(0)]: the whole array. *)
Lemma slice_from_zero l : JS.slice_from l (- 0) = l.
Proof.
  change (- 0) with 0. rewrite slice_from_drop. unfold JS.relative_index.
  destruct (Z.ltb_spec 0 0); [lia|].
  replace (Z.to_nat (Z.min 0 (Z.of_nat (length l)))) with O by lia. reflexivity.
Qed.

(** [slice(-n)] for a positive [n]: the last [n] elements. *)
Lemma slice_from_last l n :
  0 < n -> JS.slice_from l (- n) = drop (length l - Z.to_nat n) l.
Proof.
  intros Hn. rewrite slice_from_drop. unfold JS.relative_index.
  destruct (Z.ltb_spec (- n) 0); [|lia]. f_equal. lia.
Qed.

Lemma slice_from_suffix l start : JS.slice_from l start `suffix_of` l.
Proof. rewrite slice_from_drop. apply suffix_drop. Qed.

(** [slice(0, -0)] is [slice(0, 0)]: nothing. *)
Lemma slice_to_zero l : JS.slice l 0 (- 0) = [].
Proof.
  change (- 0) with 0. unfold JS.slice, JS.relative_index.
  destruct (Z.ltb_spec 0 0); [lia|].
  rewrite Z.sub_diag. reflexivity.
Qed.

(** [slice(0, -n)] for a positive [n]: all but the last [n] elements. *)
Lemma slice_drop_last l n :
  0 < n -> JS.slice l 0 (- n) = take (length l - Z.to_nat n) l.
Proof.
  intros Hn. unfold JS.slice, JS.relative_index.
  destruct (Z.ltb_spec (- n) 0); [|lia].
  destruct (Z.ltb_spec 0 0); [lia|].
  replace (Z.to_nat (Z.min 0 (Z.of_nat (length l)))) with O by lia.
  rewrite drop_0. f_equal. lia.
Qed.

End SliceFacts.

(** ** The conversation context service *)

Section ConversationFacts.
Import ConversationContext.
Context {Metadata : Type}.
Implicit Types (st : t Metadata) (msgs : list (Message Metadata)).

(** [ceil_div4] is the ceiling of a quarter. *)
Lemma ceil_div4_spec n :
  0 <= n -> 4 * (ceil_div4 n - 1) < n <= 4 * ceil_div4 n.
Proof.
  intros Hn. unfold ceil_div4.
  pose proof (Z.div_mod (n + 3) 4 ltac:(lia)).
  pose proof (Z.mod_pos_bound (n + 3) 4 ltac:(lia)). lia.
Qed.

Lemma trim_tokens_suffix budget msgs : trim_tokens budget msgs `suffix_of` msgs.
Proof.
  induction msgs as [|m rest IH]; [reflexivity|].
  cbn [trim_tokens].
  destruct ((budget <? estimateTokens (m :: rest)) && (2 <? Z.of_nat (length (m :: rest)))).
  - apply suffix_cons_r. exact IH.
  - reflexivity.
Qed.

(** When the loop stops, the estimate fits the budget or at most two
    messages are left. *)
Lemma trim_tokens_stops budget msgs :
  estimateTokens (trim_tokens budget msgs) <= budget
  \/ (length (trim_tokens budget msgs) < 3)%nat.
Proof.
  induction msgs as [|m rest IH]; [right; simpl; lia|].
  cbn [trim_tokens].
  destruct (Z.ltb_spec budget (estimateTokens (m :: rest))) as [Hover|Hfit];
    [|left; exact Hfit].
  destruct (Z.ltb_spec 2 (Z.of_nat (length (m :: rest)))) as [Hmany|Hfew]; cbn [andb].
  - exact IH.
  - right. lia.
Qed.

Lemma trim_messages_suffix st msgs : trim_messages st msgs `suffix_of` msgs.
Proof.
  unfold trim_messages. etransitivity; [apply trim_tokens_suffix|].
  destruct (_ <? _); [apply slice_from_suffix|reflexivity].
Qed.

Lemma trim_messages_stops st msgs :
  estimateTokens (trim_messages st msgs) <= maxTokens st
  \/ (length (trim_messages st msgs) < 3)%nat.
Proof. apply trim_tokens_stops. Qed.

(** The cap by count, for a window of at least one message. *)
Lemma trim_messages_length st msgs :
  1 <= maxContextLength st ->
  Z.of_nat (length (trim_messages st msgs)) <= maxContextLength st.
Proof.
  intros Hpos. unfold trim_messages.
  destruct (Z.ltb_spec (maxContextLength st) (Z.of_nat (length msgs))) as [Hlong|Hshort];
    match goal with |- Z.of_nat (length (trim_tokens ?b ?l)) <= _ =>
      pose proof (suffix_length _ _ (trim_tokens_suffix b l)) as Hlen end.
  - rewrite slice_from_last in Hlen |- * by lia.
    rewrite length_drop in Hlen. lia.
  - lia.
Qed.

Lemma has_lookup st sid :
  has st sid = true <-> is_Some (conversations st !! sid).
Proof.
  unfold has. destruct (conversations st !! sid); split; intros Hs;
    try reflexivity; try discriminate; eauto.
  destruct Hs as [? ?]; discriminate.
Qed.

Lemma session_messages_set st sid c :
  session_messages (set_conversation st sid c) sid = messages c.
Proof. unfold session_messages. cbn. rewrite lookup_insert_eq. reflexivity. Qed.

(** What a successful [addMessage] leaves behind: the returned message is
    appended to the session's messages and the result is trimmed; the
    configuration is untouched. *)
Lemma addMessage_Some st sid role body meta env m st' :
  addMessage st sid role body meta env = Some (m, st') ->
  m = {| id := Some (message_uuid env); role := role; content := body;
         timestamp := now env; metadata := Some meta |}
  /\ is_Some (conversations st' !! sid)
  /\ session_messages st' sid = trim_messages st (session_messages st sid ++ [m])%list
  /\ maxContextLength st' = maxContextLength st
  /\ maxTokens st' = maxTokens st.
Proof.
  unfold addMessage.
  set (st1 := if has st sid then st else snd (createSession st (Some sid) env)).
  assert (Hcfg : maxContextLength st1 = maxContextLength st
                 /\ maxTokens st1 = maxTokens st).
  { subst st1. destruct (has st sid); split; reflexivity. }
  assert (Hmsgs : forall c, conversations st1 !! sid = Some c ->
                            messages c = session_messages st sid).
  { subst st1. unfold session_messages. destruct (has st sid) eqn:Hhas.
    - intros c ->. reflexivity.
    - unfold has in Hhas. destruct (conversations st !! sid) eqn:Hst; [discriminate|].
      intros c. cbn. intros Hc.
      apply lookup_insert_Some in Hc as [[_ <-]|[_ Hc]]; [reflexivity|congruence]. }
  destruct (conversations st1 !! sid) as [c|] eqn:Hc; [|discriminate].
  intros [= <- <-]. specialize (Hmsgs c eq_refl). destruct Hcfg as [Hlen Htok].
  unfold trimConversation. cbn. rewrite lookup_insert_eq. cbn.
  rewrite insert_insert_eq. rewrite lookup_insert_eq.
  split; [reflexivity|]. split; [eauto|].
  unfold session_messages at 1. cbn. rewrite lookup_insert_eq. cbn.
  rewrite Hmsgs. split; [|split; assumption].
  unfold trim_messages. cbn. rewrite Hlen, Htok. reflexivity.
Qed.

(** [addMessage] raises only for the empty session id. *)
Lemma addMessage_returns st sid role body meta env :
  sid <> "" -> is_Some (addMessage st sid role body meta env).
Proof.
  intros Hsid. unfold addMessage.
  destruct (has st sid) eqn:Hhas.
  - apply has_lookup in Hhas as [c Hc]. rewrite Hc. eauto.
  - unfold createSession, truthy. destruct (String.eqb_spec sid ""); [contradiction|].
    cbn. rewrite lookup_insert_eq. eauto.
Qed.

Lemma addMessages_returns st sid calls :
  sid <> "" -> is_Some (addMessages st sid calls).
Proof.
  intros Hsid. revert st. induction calls as [|c calls IH]; intros st; cbn [addMessages].
  - eauto.
  - destruct (addMessage_returns st sid (call_role c) (call_content c)
                (call_metadata c) (call_env c) Hsid) as [[m st1] Hadd].
    rewrite Hadd. apply IH.
Qed.

(** Over a whole sequence of appends nothing is removed except at the oldest
    end, and the configuration stays. *)
Lemma addMessages_suffix st sid calls st' :
  addMessages st sid calls = Some st' ->
  session_messages st' sid
    `suffix_of` (session_messages st sid ++ map call_message calls)%list
  /\ maxContextLength st' = maxContextLength st
  /\ maxTokens st' = maxTokens st.
Proof.
  revert st. induction calls as [|c calls IH]; intros st; cbn [addMessages].
  - intros [= <-]. rewrite app_nil_r. repeat split; reflexivity.
  - destruct (addMessage st sid _ _ _ _) as [[m st1]|] eqn:Hadd; [|discriminate].
    intros Hrest. apply IH in Hrest as (Hsuf & Hlen & Htok).
    apply addMessage_Some in Hadd as (Hm & _ & Hmsgs & Hlen1 & Htok1).
    split; [|split; congruence].
    etransitivity; [exact Hsuf|].
    rewrite Hmsgs. cbn [map]. rewrite (cons_middle (call_message c)), app_assoc.
    apply suffix_app.
    replace (call_message c) with m by (rewrite Hm; reflexivity).
    apply trim_messages_suffix.
Qed.

(** The last append of a non-empty sequence. *)
Lemma addMessages_last st sid calls st' :
  calls <> [] ->
  addMessages st sid calls = Some st' ->
  exists st0 c m,
    addMessage st0 sid (call_role c) (call_content c) (call_metadata c) (call_env c)
    = Some (m, st')
    /\ maxContextLength st0 = maxContextLength st
    /\ maxTokens st0 = maxTokens st.
Proof.
  revert st. induction calls as [|c calls IH]; intros st Hne; [contradiction|].
  cbn [addMessages].
  destruct (addMessage st sid _ _ _ _) as [[m st1]|] eqn:Hadd; [|discriminate].
  destruct calls as [|c' calls'].
  - cbn [addMessages]. intros [= <-]. exists st, c, m. repeat split. exact Hadd.
  - intros Hrest. apply IH in Hrest as (st0 & c0 & m0 & H0 & Hlen & Htok); [|discriminate].
    apply addMessage_Some in Hadd as (_ & _ & _ & Hlen1 & Htok1).
    exists st0, c0, m0. split; [exact H0|]. split; congruence.
Qed.

End ConversationFacts.

Section ConversationClaims.
Import ConversationContext.
Context {Metadata : Type}.
Implicit Types (st : t Metadata).

Lemma trim_single st (m : Message Metadata) :
  0 <= maxContextLength st -> trim_messages st [m] = [m].
Proof.
  intros Hwin. unfold trim_messages.
  assert (Hcount : (if maxContextLength st <? Z.of_nat (length [m])
                    then JS.slice_from [m] (- maxContextLength st) else [m]) = [m]).
  { destruct (Z.ltb_spec (maxContextLength st) (Z.of_nat (length [m]))) as [Hlt|Hge];
      [|reflexivity].
    cbn [length] in Hlt. replace (maxContextLength st) with 0 by lia.
    apply slice_from_zero. }
  rewrite Hcount. cbn [trim_tokens length].
  destruct (2 <? Z.of_nat 1) eqn:Htwo; [discriminate|].
  rewrite andb_false_r. reflexivity.
Qed.

Lemma stats_messageCount st sid :
  is_Some (conversations st !! sid) ->
  messageCount <$> getConversationStats st sid
  = Some (Z.of_nat (length (session_messages st sid))).
Proof.
  intros [c Hc]. unfold getConversationStats, session_messages. rewrite Hc. reflexivity.
Qed.

(** C9, as amended. For every configuration with [maxContextLength >= 0] and
    every non-empty session id that is not known, [addMessage] returns the
    message, the session exists afterwards and holds exactly that message,
    and [getConversationStats] reports a message count of 1. *)
Theorem addMessage_auto_creates st sid role body meta env :
  conversations st !! sid = None ->
  sid <> "" ->
  0 <= maxContextLength st ->
  exists m st',
    addMessage st sid role body meta env = Some (m, st')
    /\ is_Some (conversations st' !! sid)
    /\ session_messages st' sid = [m]
    /\ messageCount <$> getConversationStats st' sid = Some 1.
Proof.
  intros Hnew Hsid Hwin.
  destruct (addMessage_returns st sid role body meta env Hsid) as [[m st'] Hadd].
  exists m, st'. split; [exact Hadd|].
  apply addMessage_Some in Hadd as (_ & Hex & Hmsgs & _ & _).
  assert (Hone : session_messages st' sid = [m]).
  { rewrite Hmsgs. unfold session_messages at 1. rewrite Hnew. cbn [app].
    apply trim_single. exact Hwin. }
  split; [exact Hex|]. split; [exact Hone|].
  rewrite stats_messageCount by exact Hex. rewrite Hone. reflexivity.
Qed.

(** C5, as amended. For every configuration with [maxContextLength >= 1],
    every state of the service, every session id and every non-empty
    sequence of [addMessage] calls on that session: the calls succeed when
    the id is not empty, and after the last of them (so after each append, a
    prefix of the sequence being a sequence) the session holds at most
    [maxContextLength] messages, its estimated token sum is at most
    [maxTokens] unless fewer than 3 messages remain, and what it holds is a
    suffix of the messages it held before followed by the appended ones:
    messages are only removed at the oldest end. *)
Theorem trimming_after_appends st sid (calls : list (Call Metadata)) :
  1 <= maxContextLength st ->
  calls <> [] ->
  (sid <> "" -> is_Some (addMessages st sid calls))
  /\ forall st',
      addMessages st sid calls = Some st' ->
      is_Some (conversations st' !! sid)
      /\ Z.of_nat (length (session_messages st' sid)) <= maxContextLength st
      /\ (estimateTokens (session_messages st' sid) <= maxTokens st
          \/ (length (session_messages st' sid) < 3)%nat)
      /\ session_messages st' sid
           `suffix_of` (session_messages st sid ++ map call_message calls)%list.
Proof.
  intros Hwin Hne. split; [apply addMessages_returns|].
  intros st' Hrun.
  destruct (addMessages_suffix st sid calls st' Hrun) as (Hsuf & _ & _).
  destruct (addMessages_last st sid calls st' Hne Hrun) as (st0 & c & m & Hadd & Hlen & Htok).
  apply addMessage_Some in Hadd as (_ & Hex & Hmsgs & _ & _).
  split; [exact Hex|]. rewrite Hmsgs, <- Hlen, <- Htok.
  split; [apply trim_messages_length; lia|].
  split; [apply trim_messages_stops|].
  rewrite <- Hmsgs. exact Hsuf.
Qed.

(** C10. With the system-preamble flag set, [getContext] on an unknown
    session id returns exactly one message, the synthesized one: its role is
    [system], its content is the system prompt, its timestamp is the time of
    the call, and it has no id and no metadata. On a known session with no
    messages it returns the empty sequence; for a known session that message
    is put in front exactly when the window of stored messages is not
    empty. *)
Theorem getContext_preamble_asymmetry st sid at_ :
  (conversations st !! sid = None ->
   fst (getContext st sid true at_)
   = [ {| id := None; role := "system"; content := buildSystemPrompt;
          timestamp := at_; metadata := None |} ])
  /\ (forall c, conversations st !! sid = Some c -> messages c = [] ->
      fst (getContext st sid true at_) = [])
  /\ (forall c, conversations st !! sid = Some c ->
      fst (getContext st sid true at_)
      = match JS.slice_from (messages c) (- maxContextLength st) with
        | [] => []
        | window =>
            {| id := None; role := "system"; content := buildSystemPrompt;
               timestamp := at_; metadata := None |} :: window
        end).
Proof.
  unfold getContext, systemMessage. split; [|split].
  - intros ->. reflexivity.
  - intros c -> ->. cbn [fst andb].
    rewrite slice_from_drop, drop_nil. reflexivity.
  - intros c ->. cbn [fst andb].
    destruct (JS.slice_from (messages c) (- maxContextLength st)); reflexivity.
Qed.

(** C3 (the code does not do what the claim says). With [excludeLast = 0]
    the first slice is [slice(0, -0)], that is [slice(0, 0)]: for every
    state and session [getRecentContext] returns the empty sequence, also
    where [getContext] without preamble returns a non-empty window. *)
Theorem getRecentContext_zero_is_empty :
  (forall st sid, getRecentContext st sid 0 = [])
  /\ session_messages (one_session [hello]) "s1" = [hello]
  /\ getRecentContext (one_session [hello]) "s1" 0 = []
  /\ fst (getContext (one_session [hello]) "s1" false 5) = [hello].
Proof.
  split; [|repeat split; vm_compute; reflexivity].
  intros st sid. unfold getRecentContext.
  destruct (conversations st !! sid) as [c|]; [|reflexivity].
  change (- 0) with 0.
  assert (Hnone : JS.slice (messages c) 0 0 = []).
  { apply (slice_to_zero (messages c)). }
  rewrite Hnone, slice_from_drop. apply drop_nil.
Qed.

(** X2. For [excludeLast >= 1] and a window of at least one message,
    [getRecentContext] on a known session drops the last [excludeLast]
    messages and returns the last [maxContextLength] of the rest. *)
Theorem getRecentContext_positive st sid c excludeLast :
  conversations st !! sid = Some c ->
  1 <= excludeLast ->
  1 <= maxContextLength st ->
  let kept := take (length (messages c) - Z.to_nat excludeLast) (messages c) in
  getRecentContext st sid excludeLast
  = drop (length kept - Z.to_nat (maxContextLength st)) kept.
Proof.
  intros Hc Hex Hwin. cbn zeta. unfold getRecentContext. rewrite Hc.
  rewrite slice_drop_last by lia. rewrite slice_from_last by lia. reflexivity.
Qed.

End ConversationClaims.

Lemma addMessage_auto_creates_witness :
  exists m st',
    ConversationContext.addMessage (ConversationContext.one_session [])
      "ghost" "user" "hi" tt ConversationContext.env0 = Some (m, st')
    /\ is_Some (ConversationContext.conversations st' !! "ghost")
    /\ ConversationContext.session_messages st' "ghost" = [m]
    /\ ConversationContext.messageCount
         <$> ConversationContext.getConversationStats st' "ghost" = Some 1.
Proof.
  apply (addMessage_auto_creates (ConversationContext.one_session [])
           "ghost" "user" "hi" tt ConversationContext.env0).
  - vm_compute. reflexivity.
  - discriminate.
  - vm_compute. discriminate.
Defined.

Lemma trimming_after_appends_witness :
  exists st',
    ConversationContext.addMessages (ConversationContext.one_session
      [ConversationContext.hello]) "s1" [ConversationContext.call0] = Some st'
    /\ is_Some (ConversationContext.conversations st' !! "s1")
    /\ Z.of_nat (length (ConversationContext.session_messages st' "s1")) <= 10
    /\ (ConversationContext.estimateTokens (ConversationContext.session_messages st' "s1")
        <= 4000
        \/ (length (ConversationContext.session_messages st' "s1") < 3)%nat)
    /\ ConversationContext.session_messages st' "s1"
         `suffix_of` [ConversationContext.hello;
                      ConversationContext.call_message ConversationContext.call0].
Proof.
  destruct (trimming_after_appends
              (ConversationContext.one_session [ConversationContext.hello])
              "s1" [ConversationContext.call0]) as [Hreturns Hafter].
  - vm_compute. discriminate.
  - discriminate.
  - destruct (Hreturns ltac:(discriminate)) as [st' Hst'].
    exists st'. split; [exact Hst'|]. exact (Hafter st' Hst').
Defined.

(** C5 as stated fails for a window that is not positive. Started with a
    window of [-1], the service answers the first append to a session by
    dropping the message just appended: the session holds 0 messages, which
    is more than [maxContextLength = -1]. With a window of [0] (set through
    [updateContextConfig]) the count cap is [slice(-0)], the whole array: the
    session holds 1 message. *)
Lemma trimming_counterexample :
  (exists st',
     ConversationContext.addMessages ConversationContext.negative_window "s1"
       [ConversationContext.call0] = Some st'
     /\ ConversationContext.session_messages st' "s1" = []
     /\ ~ Z.of_nat (length (ConversationContext.session_messages st' "s1"))
          <= ConversationContext.maxContextLength ConversationContext.negative_window)
  /\ (exists st',
     ConversationContext.addMessages
       (ConversationContext.updateContextConfig (ConversationContext.one_session []) 0 4000)
       "s1" [ConversationContext.call0] = Some st'
     /\ length (ConversationContext.session_messages st' "s1") = 1%nat
     /\ ~ Z.of_nat (length (ConversationContext.session_messages st' "s1"))
          <= ConversationContext.maxContextLength
               (ConversationContext.updateContextConfig
                  (ConversationContext.one_session []) 0 4000)).
Proof.
  split.
  - eexists. split; [vm_compute; reflexivity|].
    split; [vm_compute; reflexivity|]. vm_compute. intros Hle. apply Hle. reflexivity.
  - eexists. split; [vm_compute; reflexivity|].
    split; [vm_compute; reflexivity|]. vm_compute. intros Hle. apply Hle. reflexivity.
Qed.

(** C9 as stated fails in two places. For the empty session id the session
    is auto-created under a fresh uuid ([sessionId || uuidv4()]), the lookup
    of the empty id that follows finds nothing, and [addMessage] raises. And
    with a window of [-1] the message appended to the new session is trimmed
    away at once: the statistics report 0 messages. *)
Lemma addMessage_auto_create_counterexample :
  (ConversationContext.conversations (ConversationContext.one_session []) !! "" = None
   /\ ConversationContext.addMessage (ConversationContext.one_session [])
        "" "user" "hi" tt ConversationContext.env0 = None)
  /\ (ConversationContext.conversations ConversationContext.negative_window !! "ghost" = None
      /\ exists m st',
          ConversationContext.addMessage ConversationContext.negative_window
            "ghost" "user" "hi" tt ConversationContext.env0 = Some (m, st')
          /\ ConversationContext.messageCount
               <$> ConversationContext.getConversationStats st' "ghost" = Some 0).
Proof.
  split; split; try (vm_compute; reflexivity).
  do 2 eexists. split; vm_compute; reflexivity.
Qed.

Lemma getContext_preamble_witness :
  fst (ConversationContext.getContext (ConversationContext.one_session []) "ghost" true 7)
  = [ {| ConversationContext.id := None;
         ConversationContext.role := "system";
         ConversationContext.content := ConversationContext.buildSystemPrompt;
         ConversationContext.timestamp := 7;
         ConversationContext.metadata := None |} ]
  /\ fst (ConversationContext.getContext (ConversationContext.one_session []) "s1" true 7)
     = [].
Proof.
  split.
  - apply (proj1 (getContext_preamble_asymmetry
                    (ConversationContext.one_session []) "ghost" 7)).
    vm_compute. reflexivity.
  - apply (proj1 (proj2 (getContext_preamble_asymmetry
                           (ConversationContext.one_session []) "s1" 7))
             {| ConversationContext.messages := [];
                ConversationContext.createdAt := 0;
                ConversationContext.lastAccessed := 0 |}).
    + vm_compute. reflexivity.
    + reflexivity.
Defined.

Lemma getRecentContext_positive_witness :
  ConversationContext.getRecentContext
    (ConversationContext.one_session [ConversationContext.hello; ConversationContext.hello])
    "s1" 1
  = [ConversationContext.hello].
Proof.
  apply (getRecentContext_positive
           (ConversationContext.one_session [ConversationContext.hello; ConversationContext.hello])
           "s1"
           {| ConversationContext.messages := [ConversationContext.hello; ConversationContext.hello];
              ConversationContext.createdAt := 0;
              ConversationContext.lastAccessed := 0 |} 1).
  - vm_compute. reflexivity.
  - lia.
  - vm_compute. discriminate.
Defined.

(** ** binary64: order, signed zeros and the comparator of the search

    From the specification of the primitive floats ([SpecFloat] and the
    axioms that relate it to the primitives): the comparator [b - a] agrees
    with the order on numbers other than [NaN], a sum that does not start
    from [-0] is never [-0], and a zero divided by a non-zero number is a
    zero. *)

Section Binary64.

Local Abbreviation emin := (SpecFloat.emin prec emax).
Local Abbreviation fexp := (SpecFloat.fexp prec emax).

Lemma digits2_pos_upper q : Zpos q < 2 ^ Zpos (digits2_pos q).
Proof.
  induction q as [q IH|q IH|]; cbn [digits2_pos];
    rewrite ?Pos2Z.inj_succ, ?Z.pow_succ_r by lia; lia.
Qed.

Lemma digits2_pos_lower q : 2 ^ (Zpos (digits2_pos q) - 1) <= Zpos q.
Proof.
  induction q as [q IH|q IH|]; cbn [digits2_pos]; [| |reflexivity];
    rewrite Pos2Z.inj_succ;
    replace (Z.succ (Zpos (digits2_pos q)) - 1) with (Z.succ (Zpos (digits2_pos q) - 1)) by lia;
    rewrite Z.pow_succ_r by lia; lia.
Qed.

Lemma iter_xO q d : Zpos (Pos.iter xO q d) = Zpos q * 2 ^ Zpos d.
Proof.
  induction d as [|d IH] using Pos.peano_ind.
  - cbn. lia.
  - rewrite Pos.iter_succ, Pos2Z.inj_succ, Z.pow_succ_r by lia.
    rewrite Pos2Z.inj_xO, IH. lia.
Qed.

Lemma shl_align_value m e e' :
  e' <= e -> Zpos (fst (shl_align m e e')) = Zpos m * 2 ^ (e - e').
Proof.
  intros Hle. unfold shl_align. destruct (e' - e) as [|d|d] eqn:Hd; cbn [fst].
  - replace (e - e') with 0 by lia. lia.
  - lia.
  - rewrite iter_xO. f_equal. f_equal. lia.
Qed.

(** What validity says of a finite binary64 number. *)
Lemma bounded_canonical m e :
  SpecFloat.bounded prec emax m e = true ->
  emin <= e /\ Zpos (digits2_pos m) <= prec
  /\ (emin < e -> Zpos (digits2_pos m) = prec).
Proof.
  unfold SpecFloat.bounded, canonical_mantissa, SpecFloat.fexp. intros Hb.
  apply andb_prop in Hb as [Hc _]. apply Z.eqb_eq in Hc.
  unfold SpecFloat.emin, prec, emax in *. lia.
Qed.

Lemma pow2_ge_2 k : 0 < k -> 2 <= 2 ^ k.
Proof.
  intros Hk. replace k with (Z.succ (k - 1)) by lia.
  rewrite Z.pow_succ_r by lia. pose proof (Z.pow_pos_nonneg 2 (k - 1)). lia.
Qed.

(** A valid number with the smaller exponent has the smaller magnitude once
    both are written at that exponent. *)
Lemma aligned_lt m1 e1 m2 e2 :
  SpecFloat.bounded prec emax m1 e1 = true -> SpecFloat.bounded prec emax m2 e2 = true ->
  e1 < e2 ->
  Zpos m1 < Zpos m2 * 2 ^ (e2 - e1).
Proof.
  intros H1 H2 Hlt.
  apply bounded_canonical in H1 as (Hmin1 & Hd1 & _).
  apply bounded_canonical in H2 as (_ & _ & Hd2). specialize (Hd2 ltac:(lia)).
  pose proof (digits2_pos_upper m1) as Hup.
  pose proof (digits2_pos_lower m2) as Hlow. rewrite Hd2 in Hlow.
  assert (Hpow : 2 ^ Zpos (digits2_pos m1) <= 2 ^ prec)
    by (apply Z.pow_le_mono_r; lia).
  pose proof (pow2_ge_2 (e2 - e1) ltac:(lia)) as Hstep.
  assert (Hprec : 2 ^ prec = 2 * 2 ^ (prec - 1)).
  { replace prec with (Z.succ (prec - 1)) at 1 by lia.
    apply Z.pow_succ_r. unfold prec. lia. }
  nia.
Qed.

Lemma compare_aligned s1 m1 e1 s2 m2 e2 :
  SpecFloat.bounded prec emax m1 e1 = true -> SpecFloat.bounded prec emax m2 e2 = true ->
  SFcompare (S754_finite s1 m1 e1) (S754_finite s2 m2 e2)
  = Some (Z.compare
            (cond_Zopp s1 (Zpos (fst (shl_align m1 e1 (Z.min e1 e2)))))
            (cond_Zopp s2 (Zpos (fst (shl_align m2 e2 (Z.min e1 e2)))))).
Proof.
  intros H1 H2.
  pose proof (shl_align_value m1 e1 (Z.min e1 e2) ltac:(lia)) as V1.
  pose proof (shl_align_value m2 e2 (Z.min e1 e2) ltac:(lia)) as V2.
  remember (fst (shl_align m1 e1 (Z.min e1 e2))) as a eqn:Ha.
  remember (fst (shl_align m2 e2 (Z.min e1 e2))) as b eqn:Hb.
  clear Ha Hb. cbn [SFcompare]. f_equal.
  destruct (Z.compare_spec e1 e2) as [Heq|Hlt|Hgt].
  - subst e2. rewrite Z.min_id, Z.sub_diag, Z.pow_0_r, Z.mul_1_r in V1, V2.
    injection V1 as ->. injection V2 as ->.
    destruct s1, s2; reflexivity.
  - pose proof (aligned_lt m1 e1 m2 e2 H1 H2 Hlt) as Hval.
    replace (Z.min e1 e2) with e1 in V1, V2 by lia.
    rewrite Z.sub_diag, Z.pow_0_r, Z.mul_1_r in V1.
    assert (Hab : Zpos a < Zpos b) by lia.
    destruct s1, s2; cbn [cond_Zopp]; symmetry;
      first [apply Z.compare_lt_iff; lia | apply Z.compare_gt_iff; lia].
  - pose proof (aligned_lt m2 e2 m1 e1 H2 H1 ltac:(lia)) as Hval.
    replace (Z.min e1 e2) with e2 in V1, V2 by lia.
    rewrite Z.sub_diag, Z.pow_0_r, Z.mul_1_r in V2.
    assert (Hab : Zpos b < Zpos a) by lia.
    destruct s1, s2; cbn [cond_Zopp]; symmetry;
      first [apply Z.compare_lt_iff; lia | apply Z.compare_gt_iff; lia].
Qed.


(** Shifting right by fewer places than the mantissa has digits leaves a
    positive mantissa. *)
Lemma shr_1_positive q r s :
  1 < Zpos (digits2_pos q) ->
  exists q' r' s',
    shr_1 {| shr_m := Zpos q; shr_r := r; shr_s := s |}
    = {| shr_m := Zpos q'; shr_r := r'; shr_s := s' |}
    /\ Zpos (digits2_pos q') = Zpos (digits2_pos q) - 1.
Proof.
  intros Hd. destruct q as [q|q|]; cbn [digits2_pos] in *; [| |lia];
    do 3 eexists; (split; [reflexivity|lia]).
Qed.

Lemma iter_shr_1_positive p : forall q r s,
  Zpos p < Zpos (digits2_pos q) ->
  exists q' r' s',
    SpecFloat.iter_pos shr_1 p {| shr_m := Zpos q; shr_r := r; shr_s := s |}
    = {| shr_m := Zpos q'; shr_r := r'; shr_s := s' |}
    /\ Zpos (digits2_pos q') = Zpos (digits2_pos q) - Zpos p.
Proof.
  induction p as [p IH|p IH|]; intros q r s Hlt; cbn [SpecFloat.iter_pos].
  - destruct (shr_1_positive q r s ltac:(lia)) as (q1 & r1 & s1 & -> & Hd1).
    destruct (IH q1 r1 s1 ltac:(lia)) as (q2 & r2 & s2 & -> & Hd2).
    destruct (IH q2 r2 s2 ltac:(lia)) as (q3 & r3 & s3 & -> & Hd3).
    do 3 eexists. split; [reflexivity|lia].
  - destruct (IH q r s ltac:(lia)) as (q2 & r2 & s2 & -> & Hd2).
    destruct (IH q2 r2 s2 ltac:(lia)) as (q3 & r3 & s3 & -> & Hd3).
    do 3 eexists. split; [reflexivity|lia].
  - apply shr_1_positive. lia.
Qed.

Lemma shr_fexp_positive q e l :
  emin <= e ->
  exists q' r' s' e',
    shr_fexp prec emax (Zpos q) e l
    = ({| shr_m := Zpos q'; shr_r := r'; shr_s := s' |}, e')
    /\ emin <= e'.
Proof.
  intros He. unfold shr_fexp, shr. cbn [Zdigits2].
  destruct (shr_record_of_loc (Zpos q) l) as [m r s] eqn:Hrec.
  assert (m = Zpos q) as -> by (destruct l as [|[]]; cbn in Hrec; congruence).
  destruct (fexp (Zpos (digits2_pos q) + e) - e) as [|n|n] eqn:Hn.
  - do 4 eexists. split; [reflexivity|exact He].
  - destruct (iter_shr_1_positive n q r s) as (q' & r' & s' & -> & _).
    + unfold SpecFloat.fexp, SpecFloat.emin, prec, emax in *. lia.
    + do 4 eexists. split; [reflexivity|lia].
  - do 4 eexists. split; [reflexivity|exact He].
Qed.

Lemma round_nearest_even_positive q l :
  exists q', round_nearest_even (Zpos q) l = Zpos q'.
Proof.
  destruct l as [|[]]; cbn [round_nearest_even].
  - exists q. reflexivity.
  - destruct (Z.even (Zpos q)); [exists q|exists (q + 1)%positive]; reflexivity.
  - exists q. reflexivity.
  - exists (q + 1)%positive. reflexivity.
Qed.

Lemma binary_round_aux_sign sx q e l :
  emin <= e -> Num.has_sign sx (binary_round_aux prec emax sx (Zpos q) e l) = true.
Proof.
  intros He. unfold binary_round_aux.
  destruct (shr_fexp_positive q e l He) as (q1 & r1 & s1 & e1 & -> & He1).
  cbn [shr_m].
  destruct (round_nearest_even_positive q1
              (loc_of_shr_record {| shr_m := Zpos q1; shr_r := r1; shr_s := s1 |}))
    as (q2 & ->).
  destruct (shr_fexp_positive q2 e1 loc_Exact He1) as (q3 & r3 & s3 & e3 & -> & _).
  cbn [shr_m]. destruct (e3 <=? emax - prec); destruct sx; reflexivity.
Qed.

(** Rounding a non-zero mantissa at an exponent of at least [emin] gives a
    finite number or an infinity of the same sign, never a zero. *)
Lemma binary_round_sign sx q e :
  emin <= e -> Num.has_sign sx (binary_round prec emax sx q e) = true.
Proof.
  intros He. unfold binary_round.
  destruct (shl_align q e (fexp (Zpos (digits2_pos q) + e))) as [mz ez] eqn:Hal.
  apply binary_round_aux_sign.
  unfold shl_align in Hal.
  destruct (fexp (Zpos (digits2_pos q) + e) - e) eqn:Hd; injection Hal as <- <-;
    try exact He.
  unfold SpecFloat.fexp. lia.
Qed.

Lemma positive_ltb d : Num.has_sign false d = true -> SFltb (S754_zero false) d = true.
Proof. destruct d as [s|s| |s m e]; try destruct s; (discriminate || reflexivity). Qed.

Lemma negative_ltb d : Num.has_sign true d = true -> SFltb (S754_zero false) d = false.
Proof. destruct d as [s|s| |s m e]; try destruct s; (discriminate || reflexivity). Qed.

(** The comparator [b - a] of two numbers agrees with their order. *)
Lemma SF_comparator_agrees (a b : spec_float) :
  valid_binary a = true -> valid_binary b = true ->
  a <> S754_nan -> b <> S754_nan ->
  (if SFltb (S754_zero false) (SF64sub b a) then SFleb a b else SFleb b a) = true.
Proof.
  intros Va Vb Na Nb.
  destruct a as [sa|sa| |sa ma ea]; [| |contradiction|];
    destruct b as [sb|sb| |sb mb eb]; try contradiction;
    try (destruct sa, sb; reflexivity).
  cbn [SpecFloat.valid_binary] in Va, Vb.
  unfold SF64sub, SFsub, SFleb.
  rewrite (compare_aligned sa ma ea sb mb eb Va Vb).
  rewrite (compare_aligned sb mb eb sa ma ea Vb Va).
  rewrite (Z.min_comm ea eb).
  set (ia := cond_Zopp sa (Zpos (fst (shl_align ma ea (Z.min eb ea))))).
  set (ib := cond_Zopp sb (Zpos (fst (shl_align mb eb (Z.min eb ea))))).
  assert (Hmin : emin <= Z.min eb ea).
  { apply bounded_canonical in Va as [? _]. apply bounded_canonical in Vb as [? _]. lia. }
  unfold binary_normalize.
  destruct (ib - ia) as [|d|d] eqn:Hd.
  - cbn [SFltb SFcompare]. replace ib with ia by lia. rewrite Z.compare_refl. reflexivity.
  - rewrite positive_ltb by (apply binary_round_sign; exact Hmin).
    assert (Hlt : ia < ib) by lia. apply Z.compare_lt_iff in Hlt. rewrite Hlt. reflexivity.
  - rewrite negative_ltb by (apply binary_round_sign; exact Hmin).
    assert (Hlt : ib < ia) by lia. apply Z.compare_lt_iff in Hlt. rewrite Hlt. reflexivity.
Qed.

Lemma not_nan_spec x : PrimFloat.is_nan x = false -> Prim2SF x <> S754_nan.
Proof.
  unfold PrimFloat.is_nan. rewrite FloatAxioms.eqb_spec. intros Hx Hnan.
  rewrite Hnan in Hx. discriminate.
Qed.

Lemma binary64_comparator x y :
  PrimFloat.is_nan x = false -> PrimFloat.is_nan y = false ->
  (if (0 <? y - x)%float then (x <=? y)%float else (y <=? x)%float) = true.
Proof.
  intros Hx Hy.
  rewrite FloatAxioms.ltb_spec, !FloatAxioms.leb_spec, FloatAxioms.sub_spec.
  apply SF_comparator_agrees; auto using Prim2SF_valid, not_nan_spec.
Qed.

(** A finite number is a zero or has a mantissa. *)
Lemma finite_spec y :
  PrimFloat.is_finite y = true ->
  (exists s, Prim2SF y = S754_zero s) \/ (exists s m e, Prim2SF y = S754_finite s m e).
Proof.
  unfold PrimFloat.is_finite, PrimFloat.is_nan, PrimFloat.is_infinity.
  rewrite !FloatAxioms.eqb_spec, FloatAxioms.abs_spec.
  change (Prim2SF infinity) with (S754_infinity false).
  destruct (Prim2SF y) as [s|s| |s m e]; cbn; eauto.
  - rewrite orb_true_r. discriminate.
  - discriminate.
Qed.

(** What the arithmetic sees of a finite number after a round trip through
    JSON: the number itself, but [+0] for [-0]. *)
Lemma json_of_zero y s :
  PrimFloat.is_finite y = true -> Prim2SF y = S754_zero s ->
  Num.binary64_json y = PrimFloat.zero.
Proof.
  intros Hfin Hy. unfold Num.binary64_json. rewrite Hfin.
  unfold PrimFloat.is_zero. rewrite FloatAxioms.eqb_spec, Hy. reflexivity.
Qed.

Lemma json_of_nonzero y s m e :
  PrimFloat.is_finite y = true -> Prim2SF y = S754_finite s m e ->
  Num.binary64_json y = y.
Proof.
  intros Hfin Hy. unfold Num.binary64_json. rewrite Hfin.
  unfold PrimFloat.is_zero. rewrite FloatAxioms.eqb_spec, Hy.
  change (Prim2SF PrimFloat.zero) with (S754_zero false).
  destruct s; reflexivity.
Qed.

Lemma json_square y :
  PrimFloat.is_finite y = true ->
  (Num.binary64_json y * Num.binary64_json y = y * y)%float.
Proof.
  intros Hfin. destruct (finite_spec y Hfin) as [[s Hy]|(s & m & e & Hy)].
  - rewrite (json_of_zero y s Hfin Hy). apply Prim2SF_inj.
    rewrite !FloatAxioms.mul_spec, Hy.
    change (Prim2SF PrimFloat.zero) with (S754_zero false).
    destruct s; reflexivity.
  - rewrite (json_of_nonzero y s m e Hfin Hy). reflexivity.
Qed.

(** Added to a sum that is not [-0], a product with [-0] and the product
    with [+0] give the same sum. *)
Lemma json_product_sum d x y :
  Prim2SF d <> S754_zero true ->
  PrimFloat.is_finite y = true ->
  (d + x * Num.binary64_json y = d + x * y)%float.
Proof.
  intros Hd Hfin. destruct (finite_spec y Hfin) as [[s Hy]|(s & m & e & Hy)].
  - rewrite (json_of_zero y s Hfin Hy). apply Prim2SF_inj.
    rewrite !FloatAxioms.add_spec, !FloatAxioms.mul_spec, Hy.
    change (Prim2SF PrimFloat.zero) with (S754_zero false).
    destruct (Prim2SF x) as [sx|sx| |sx mx ex];
      destruct (Prim2SF d) as [sd|sd| |sd md ed]; cbn;
      try reflexivity;
      destruct s; try destruct sx; try destruct sd; cbn;
      try reflexivity; try contradiction.
  - rewrite (json_of_nonzero y s m e Hfin Hy). reflexivity.
Qed.

(** A sum is [-0] only if it starts from [-0]. *)
Lemma SFadd_not_negative_zero (d v : spec_float) :
  valid_binary d = true -> valid_binary v = true ->
  d <> S754_zero true -> SF64add d v <> S754_zero true.
Proof.
  intros Vd Vv Hd.
  destruct d as [sd|sd| |sd md ed]; destruct v as [sv|sv| |sv mv ev];
    cbn; try discriminate;
    try (destruct sd, sv; (discriminate || contradiction)).
  cbn [SpecFloat.valid_binary] in Vd, Vv.
  assert (Hmin : emin <= Z.min ed ev).
  { apply bounded_canonical in Vd as [? _]. apply bounded_canonical in Vv as [? _]. lia. }
  unfold binary_normalize.
  destruct (_ + _) as [|q|q]; [discriminate| |].
  - pose proof (binary_round_sign false q (Z.min ed ev) Hmin) as Hs.
    intros Heq. rewrite Heq in Hs. discriminate.
  - pose proof (binary_round_sign true q (Z.min ed ev) Hmin) as Hs.
    intros Heq. rewrite Heq in Hs. discriminate.
Qed.

Lemma sum_not_negative_zero d v :
  Prim2SF d <> S754_zero true -> Prim2SF (d + v)%float <> S754_zero true.
Proof.
  intros Hd. rewrite FloatAxioms.add_spec.
  apply SFadd_not_negative_zero; auto using Prim2SF_valid.
Qed.

(** A zero divided by a number that is neither zero nor [NaN] is a zero. *)
Lemma binary64_zero_div x d :
  PrimFloat.is_zero x = true ->
  PrimFloat.is_nan d = false -> PrimFloat.is_zero d = false ->
  PrimFloat.is_zero (x / d) = true.
Proof.
  unfold PrimFloat.is_zero, PrimFloat.is_nan.
  rewrite !FloatAxioms.eqb_spec, FloatAxioms.div_spec.
  change (Prim2SF PrimFloat.zero) with (S754_zero false).
  destruct (Prim2SF x) as [sx|sx| |sx mx ex]; cbn; try discriminate;
    try (destruct sx; discriminate).
  intros _.
  destruct (Prim2SF d) as [sd|sd| |sd md ed]; cbn; try discriminate; reflexivity.
Qed.

End Binary64.

(** ** Sorting and indexed maps *)

Section SortFacts.
Context {A : Type} (after : A -> A -> bool) (R : A -> A -> Prop).
Implicit Types (x y : A) (l : list A).

Lemma insert_perm x l : Permutation (JS.insert after x l) (x :: l).
Proof.
  induction l as [|y l IH]; cbn [JS.insert]; [reflexivity|].
  destruct (after x y); [|reflexivity].
  rewrite IH. apply perm_swap.
Qed.

Lemma sort_perm l : Permutation (JS.sort after l) l.
Proof.
  induction l as [|x l IH]; cbn; [reflexivity|].
  fold (JS.sort after l). rewrite insert_perm. constructor. exact IH.
Qed.

Lemma sort_length l : length (JS.sort after l) = length l.
Proof. apply Permutation_length, sort_perm. Qed.

Lemma insert_HdRel x y l :
  R y x -> HdRel R y l -> HdRel R y (JS.insert after x l).
Proof.
  intros Hyx Hhd. destruct l as [|z l]; cbn [JS.insert]; [constructor; exact Hyx|].
  inversion Hhd; subst. destruct (after x z); constructor; assumption.
Qed.

(** Where the comparator agrees with [R] on the elements at hand, inserting
    keeps a sorted list sorted. *)
Lemma insert_sorted (dom : A -> Prop) x l :
  (forall a b, dom a -> dom b -> if after a b then R b a else R a b) ->
  dom x -> Forall dom l -> Sorted R l -> Sorted R (JS.insert after x l).
Proof.
  intros Hagree Hx. induction l as [|y l IH]; intros Hdom Hsorted; cbn [JS.insert].
  - repeat constructor.
  - inversion Hdom as [|? ? Hy Hl]; subst. inversion Hsorted as [|? ? Hs Hhd]; subst.
    pose proof (Hagree x y Hx Hy) as Hxy.
    destruct (after x y).
    + constructor; [apply IH; assumption|].
      apply insert_HdRel; assumption.
    + constructor; [exact Hsorted|]. constructor. exact Hxy.
Qed.

Lemma sort_sorted (dom : A -> Prop) l :
  (forall a b, dom a -> dom b -> if after a b then R b a else R a b) ->
  Forall dom l -> Sorted R (JS.sort after l).
Proof.
  intros Hagree. induction l as [|x l IH]; intros Hdom; cbn.
  - constructor.
  - fold (JS.sort after l). inversion Hdom; subst.
    apply (insert_sorted dom); try assumption.
    + rewrite (sort_perm l). assumption.
    + apply IH. assumption.
Qed.

Lemma Sorted_take n l : Sorted R l -> Sorted R (take n l).
Proof.
  revert l. induction n as [|n IH]; intros [|x l] Hs; cbn; try constructor.
  - apply IH. inversion Hs; assumption.
  - inversion Hs as [|? ? _ Hhd]; subst.
    destruct l as [|y l]; destruct n; cbn; constructor.
    inversion Hhd; assumption.
Qed.

(** [slice(0, k)] for [k >= 0]: the first [min(k, length)] elements. *)
Lemma slice_prefix l k :
  0 <= k -> JS.slice l 0 k = take (Z.to_nat k) l.
Proof.
  intros Hk. unfold JS.slice, JS.relative_index.
  destruct (Z.ltb_spec 0 0); [lia|]. destruct (Z.ltb_spec k 0); [lia|].
  replace (Z.to_nat (Z.min 0 (Z.of_nat (length l)))) with O by lia.
  rewrite drop_0.
  destruct (Z.le_ge_cases k (Z.of_nat (length l))) as [Hle|Hge].
  - f_equal. lia.
  - rewrite !take_ge by lia. reflexivity.
Qed.

End SortFacts.

Section MapIndexFacts.
Context {A B : Type} (f : A -> nat -> B).

Lemma map_index_from_length i (l : list A) :
  length (JS.map_index_from f i l) = length l.
Proof.
  revert i. induction l as [|x l IH]; intros i; cbn; [reflexivity|].
  rewrite IH. reflexivity.
Qed.

Lemma map_index_from_In i (l : list A) (y : B) :
  In y (JS.map_index_from f i l) -> exists x j, In x l /\ y = f x j.
Proof.
  revert i. induction l as [|x l IH]; intros i; cbn; [contradiction|].
  intros [<-|Hin]; [eauto|].
  apply IH in Hin as (x' & j & Hx & ->). eauto.
Qed.

End MapIndexFacts.

(** ** The in-process vector store: search *)

Section SearchFacts.
Import Num SimpleVectorStore.
Context {T : Type} `{Number T}.
Implicit Types (st : t T) (a b : list T).

Lemma result_similarities st i (sims : list T) :
  map similarity (JS.map_index_from (result_at st) i sims) = sims.
Proof.
  revert i. induction sims as [|s sims IH]; intros i; cbn; [reflexivity|].
  rewrite IH. reflexivity.
Qed.

Lemma scored_similarity st q : map similarity (scored st q) = similarities st q.
Proof. apply result_similarities. Qed.

Lemma scored_length st q : length (scored st q) = length (embeddings st).
Proof.
  unfold scored, JS.map_index. rewrite map_index_from_length.
  unfold similarities. apply length_map.
Qed.

Lemma ordered_scores_agree (scores : list T) x y :
  ordered_scores scores = true -> In x scores -> In y scores ->
  comparator_agrees x y = true.
Proof.
  unfold ordered_scores. intros Hall Hx Hy.
  rewrite forallb_forall in Hall. specialize (Hall x Hx).
  rewrite forallb_forall in Hall. exact (Hall y Hy).
Qed.

Lemma search_nonempty embed st query k :
  embeddings st <> [] ->
  similarity_search embed st query k
  = JS.slice (JS.sort after (scored st (embed query))) 0 k.
Proof.
  intros Hne. unfold similarity_search.
  destruct (embeddings st); [contradiction|reflexivity].
Qed.

(** In every arithmetic: the length of the result, the empty index, the
    permutation for a large [k], and sortedness where the comparator agrees
    with the order on the scores. *)
Lemma similarity_search_generic embed st query k :
  0 <= k ->
  (ordered_scores (similarities st (embed query)) = true ->
   Sorted non_increasing (similarity_search embed st query k))
  /\ Z.of_nat (length (similarity_search embed st query k))
     = Z.min k (Z.of_nat (length (embeddings st)))
  /\ (embeddings st = [] -> forall embed', similarity_search embed' st query k = [])
  /\ (Z.of_nat (length (embeddings st)) <= k ->
      Permutation (similarity_search embed st query k) (scored st (embed query))).
Proof.
  intros Hk.
  destruct (embeddings st) as [|e es] eqn:Hemb.
  - assert (Hnil : forall embed', similarity_search embed' st query k = []).
    { intros embed'. unfold similarity_search. rewrite Hemb. reflexivity. }
    rewrite Hnil. cbn [length]. repeat split.
    + constructor.
    + lia.
    + intros _. exact Hnil.
    + intros _. unfold scored, similarities. rewrite Hemb. reflexivity.
  - assert (Hne : embeddings st <> []) by (rewrite Hemb; discriminate).
    rewrite search_nonempty by exact Hne.
    rewrite slice_prefix by exact Hk.
    assert (Hlen : length (JS.sort after (scored st (embed query))) = length (e :: es)).
    { rewrite sort_length, scored_length, Hemb. reflexivity. }
    repeat split.
    + intros Hord. apply Sorted_take.
      apply (sort_sorted after non_increasing
               (fun r => In (similarity r) (similarities st (embed query)))).
      * intros r1 r2 H1 H2.
        pose proof (ordered_scores_agree _ _ _ Hord H1 H2) as Hagree.
        unfold comparator_agrees in Hagree. unfold after, non_increasing.
        destruct (ltb zero (sub (similarity r2) (similarity r1))); exact Hagree.
      * apply List.Forall_forall. intros r Hr.
        rewrite <- scored_similarity. apply in_map. exact Hr.
    + rewrite length_take, Hlen. lia.
    + discriminate.
    + intros Hall. rewrite take_ge by (rewrite Hlen; lia). apply sort_perm.
Qed.

End SearchFacts.

(** On binary64 the comparator agrees with the order on every list of scores
    without [NaN]. *)
Lemma no_nan_ordered (scores : list float) :
  Num.no_nan scores = true -> SimpleVectorStore.ordered_scores scores = true.
Proof.
  unfold Num.no_nan, SimpleVectorStore.ordered_scores. intros Hnan.
  rewrite forallb_forall in Hnan.
  apply forallb_forall. intros x Hx. apply forallb_forall. intros y Hy.
  apply binary64_comparator.
  - apply negb_true_iff. apply Hnan. exact Hx.
  - apply negb_true_iff. apply Hnan. exact Hy.
Qed.

(** C6, as amended. On binary64, for every index state, query and [k >= 0],
    [similarity_search] on the in-process store returns [min(k, n)] results
    for [n] stored records; on an empty index it returns the empty sequence
    (whatever the embedding service would do); for [k >= n] it returns every
    record exactly once; and the results are sorted by non-increasing
    similarity whenever no similarity score of a stored record is [NaN]. *)
Theorem similarity_search_sorted_prefix
    (embed : string -> list float) (st : SimpleVectorStore.t float)
    (query : string) (k : Z) :
  0 <= k ->
  (Num.no_nan (SimpleVectorStore.similarities st (embed query)) = true ->
   Sorted SimpleVectorStore.non_increasing
     (SimpleVectorStore.similarity_search embed st query k))
  /\ Z.of_nat (length (SimpleVectorStore.similarity_search embed st query k))
     = Z.min k (Z.of_nat (length (SimpleVectorStore.embeddings st)))
  /\ (SimpleVectorStore.embeddings st = [] ->
      forall embed', SimpleVectorStore.similarity_search embed' st query k = [])
  /\ (Z.of_nat (length (SimpleVectorStore.embeddings st)) <= k ->
      Permutation (SimpleVectorStore.similarity_search embed st query k)
                  (SimpleVectorStore.scored st (embed query))).
Proof.
  intros Hk.
  destruct (similarity_search_generic embed st query k Hk) as (Hs & Hl & He & Hp).
  split; [|split; [exact Hl|split; [exact He|exact Hp]]].
  intros Hnan. apply Hs. apply no_nan_ordered. exact Hnan.
Qed.

Lemma similarity_search_sorted_witness :
  Sorted SimpleVectorStore.non_increasing
    (SimpleVectorStore.similarity_search
       (SimpleVectorStore.embed_const [1; 0]%float)
       SimpleVectorStore.store_plain "query" 2)
  /\ Z.of_nat (length (SimpleVectorStore.similarity_search
                         (SimpleVectorStore.embed_const [1; 0]%float)
                         SimpleVectorStore.store_plain "query" 2))
     = 2
  /\ Permutation
       (SimpleVectorStore.similarity_search
          (SimpleVectorStore.embed_const [1; 0]%float)
          SimpleVectorStore.store_plain "query" 3)
       (SimpleVectorStore.scored SimpleVectorStore.store_plain [1; 0]%float).
Proof.
  pose proof (similarity_search_sorted_prefix
                (SimpleVectorStore.embed_const [1; 0]%float)
                SimpleVectorStore.store_plain "query" 2 ltac:(lia)) as (Hs & Hl & _).
  pose proof (similarity_search_sorted_prefix
                (SimpleVectorStore.embed_const [1; 0]%float)
                SimpleVectorStore.store_plain "query" 3 ltac:(lia)) as (_ & _ & _ & Hp).
  split; [apply Hs; vm_compute; reflexivity|].
  split; [exact Hl|]. apply Hp. vm_compute. discriminate.
Defined.

(** C6 as stated fails where a score is [NaN]. The second stored embedding
    is the zero vector, its similarity with the query embedding [[1; 0]] is
    [0 / 0]; the comparator is [NaN], hence not positive, on every pair it
    takes part in, the three records stay in store order, and the result with
    similarity 0 comes before the result with similarity 1. *)
Lemma similarity_search_nan_counterexample :
  map SimpleVectorStore.similarity
    (SimpleVectorStore.similarity_search
       (SimpleVectorStore.embed_const [1; 0]%float)
       SimpleVectorStore.store_with_zero_vector "query" 3)
  = [0; nan; 1]%float
  /\ (0 <? 1)%float = true
  /\ ~ Sorted SimpleVectorStore.non_increasing
       (SimpleVectorStore.similarity_search
          (SimpleVectorStore.embed_const [1; 0]%float)
          SimpleVectorStore.store_with_zero_vector "query" 3).
Proof.
  split; [vm_compute; reflexivity|]. split; [reflexivity|].
  remember (SimpleVectorStore.similarity_search
              (SimpleVectorStore.embed_const [1; 0]%float)
              SimpleVectorStore.store_with_zero_vector "query" 3) as results eqn:Hres.
  vm_compute in Hres. subst results. intros Hsorted.
  inversion Hsorted as [|r rs _ Hhd]; subst.
  inversion Hhd as [|r1 rs1 Hrel]; subst.
  vm_compute in Hrel. discriminate.
Qed.

(** ** The in-process vector store: the similarity metric *)

Section MetricFacts.
Import Num SimpleVectorStore.
Context {T : Type} `{Number T}.
Implicit Types (a b : list T).

(** The loop of [cosineSimilarity] keeps three sums at once; each is the sum
    it would be on its own. *)
Lemma cosine_loop a b (d na nb : T) :
  length a = length b ->
  fold_left
    (fun '(dotProduct, normA, normB) '(x, y) =>
       (add dotProduct (mul x y), add normA (mul x x), add normB (mul y y)))
    (combine a b) (d, na, nb)
  = (fold_left (fun acc '(x, y) => add acc (mul x y)) (combine a b) d,
     fold_left (fun acc '(x, y) => add acc (mul x y)) (combine a a) na,
     fold_left (fun acc '(x, y) => add acc (mul x y)) (combine b b) nb).
Proof.
  revert b d na nb. induction a as [|x a IH]; intros [|y b] d na nb Hlen;
    try discriminate; cbn; [reflexivity|].
  apply IH. cbn in Hlen. congruence.
Qed.

Lemma cosine_refines_spec a b : cosineSimilarity a b = cosine_spec a b.
Proof.
  unfold cosineSimilarity, cosine_spec.
  destruct (Nat.eqb_spec (length a) (length b)) as [Hlen|]; [|reflexivity].
  rewrite cosine_loop by exact Hlen. reflexivity.
Qed.

Lemma cosine_mismatch a b : length a <> length b -> cosineSimilarity a b = zero.
Proof.
  intros Hne. unfold cosineSimilarity.
  destruct (Nat.eqb_spec (length a) (length b)); [contradiction|reflexivity].
Qed.

Lemma cosine_same_length a b :
  length a = length b ->
  cosineSimilarity a b = div (dot_product a b) (mul (magnitude a) (magnitude b)).
Proof.
  intros Hlen. rewrite cosine_refines_spec. unfold cosine_spec.
  rewrite Hlen, Nat.eqb_refl. reflexivity.
Qed.

(** Every result carries [distance = 1 - similarity]. *)
Lemma search_distance embed (st : t T) query k r :
  In r (similarity_search embed st query k) ->
  distance r = sub one (similarity r).
Proof.
  unfold similarity_search. destruct (_ =? _)%nat; [contradiction|].
  intros Hin.
  assert (Hscored : In r (scored st (embed query))).
  { apply (Permutation_in r (sort_perm after _)).
    unfold JS.slice in Hin.
    apply list_elem_of_In in Hin. apply list_elem_of_In.
    apply elem_of_take in Hin as (i & Hi & _).
    rewrite lookup_drop in Hi. eapply list_elem_of_lookup_2. exact Hi. }
  apply map_index_from_In in Hscored as (s & i & _ & ->). reflexivity.
Qed.

End MetricFacts.

(** ** binary64: rounding

    What the specification of the primitive floats says of the rounding of
    a product, a square root and a quotient: in the normal range each is a
    normal number within half a unit in the last place of the real result,
    hence within the fraction [2^-53] of it; below the normal range a
    product is rounded to a multiple of [2^-1074]. *)

Section Powers.
Import Float64.
Local Open Scope R_scope.

Lemma Rabs_le_inv a b : Rabs a <= b -> - b <= a <= b.
Proof. unfold Rabs. destruct (Rcase_abs a); lra. Qed.

Lemma bpow_pos e : 0 < bpow e.
Proof. apply powerRZ_lt. lra. Qed.

Lemma bpow_add a b : bpow (a + b) = bpow a * bpow b.
Proof. apply powerRZ_add. lra. Qed.

Lemma bpow_opp e : bpow (- e) = / bpow e.
Proof. apply powerRZ_neg'. Qed.

Lemma bpow_IZR e : (0 <= e)%Z -> bpow e = IZR (2 ^ e).
Proof.
  intros He. unfold bpow. rewrite <- (Z2Nat.id e He) at 1 2.
  rewrite <- pow_powerRZ, pow_IZR. reflexivity.
Qed.

Lemma bpow_ge_1 e : (0 <= e)%Z -> 1 <= bpow e.
Proof.
  intros He. rewrite bpow_IZR by exact He. apply IZR_le.
  pose proof (Z.pow_pos_nonneg 2 e). lia.
Qed.

Lemma bpow_le a b : (a <= b)%Z -> bpow a <= bpow b.
Proof.
  intros Hle. replace b with (a + (b - a))%Z by lia. rewrite bpow_add.
  pose proof (bpow_pos a). pose proof (bpow_ge_1 (b - a) ltac:(lia)). nra.
Qed.

Lemma bpow_succ a : bpow (a + 1) = 2 * bpow a.
Proof. rewrite bpow_add. change (bpow 1) with (2 * 1). lra. Qed.

Lemma bpow_lt a b : (a < b)%Z -> bpow a < bpow b.
Proof.
  intros Hlt. pose proof (bpow_le (a + 1) b ltac:(lia)) as Hle.
  rewrite bpow_succ in Hle. pose proof (bpow_pos a). lra.
Qed.

Lemma bpow_lt_inv a b : bpow a < bpow b -> (a < b)%Z.
Proof.
  intros Hlt. destruct (Z_lt_le_dec a b) as [|Hge]; [assumption|].
  apply bpow_le in Hge. lra.
Qed.

Lemma bpow_sub a b : bpow (a - b) = bpow a / bpow b.
Proof. unfold Z.sub. rewrite bpow_add, bpow_opp. reflexivity. Qed.

(** The exponent of the binade of a positive real is unique. *)
Lemma binade_unique x a b :
  bpow (a - 1) <= x < bpow a -> bpow (b - 1) <= x < bpow b -> a = b.
Proof.
  intros [Ha1 Ha2] [Hb1 Hb2].
  assert (a - 1 < b)%Z by (apply bpow_lt_inv; lra).
  assert (b - 1 < a)%Z by (apply bpow_lt_inv; lra).
  lia.
Qed.

End Powers.

Section Shift.
Import Float64.
Local Open Scope R_scope.

Lemma shr_1_inbetween y mrs :
  (0 <= shr_m mrs)%Z ->
  inbetween y (shr_m mrs) (loc_of_shr_record mrs) ->
  (0 <= shr_m (shr_1 mrs))%Z
  /\ inbetween (y / 2) (shr_m (shr_1 mrs)) (loc_of_shr_record (shr_1 mrs)).
Proof.
  destruct mrs as [m r s]. cbn [shr_m]. intros Hm Hin.
  destruct m as [|p|p]; [| |lia].
  - destruct r, s; cbn [shr_1 shr_m loc_of_shr_record orb inbetween] in *;
      (split; [lia|lra]).
  - destruct p as [p|p|]; destruct r, s;
      cbn [shr_1 shr_m loc_of_shr_record orb inbetween] in *;
      try rewrite (Pos2Z.inj_xI p) in Hin; try rewrite (Pos2Z.inj_xO p) in Hin;
      try rewrite plus_IZR in Hin; try rewrite mult_IZR in Hin;
      (split; [lia|lra]).
Qed.

Lemma iter_shr_1_inbetween n : forall y mrs,
  (0 <= shr_m mrs)%Z ->
  inbetween y (shr_m mrs) (loc_of_shr_record mrs) ->
  (0 <= shr_m (SpecFloat.iter_pos shr_1 n mrs))%Z
  /\ inbetween (y / bpow (Zpos n)) (shr_m (SpecFloat.iter_pos shr_1 n mrs))
       (loc_of_shr_record (SpecFloat.iter_pos shr_1 n mrs)).
Proof.
  induction n as [n IH|n IH|]; intros y mrs Hm Hin; cbn [SpecFloat.iter_pos].
  - destruct (shr_1_inbetween y mrs Hm Hin) as [Hm1 Hin1].
    destruct (IH _ _ Hm1 Hin1) as [Hm2 Hin2].
    destruct (IH _ _ Hm2 Hin2) as [Hm3 Hin3].
    split; [exact Hm3|].
    replace (y / bpow (Zpos n~1)) with (y / 2 / bpow (Zpos n) / bpow (Zpos n));
      [exact Hin3|].
    rewrite Pos2Z.inj_xI. replace (2 * Zpos n + 1)%Z with (Zpos n + Zpos n + 1)%Z by lia.
    rewrite bpow_succ, bpow_add. pose proof (bpow_pos (Zpos n)). field. lra.
  - destruct (IH _ _ Hm Hin) as [Hm2 Hin2].
    destruct (IH _ _ Hm2 Hin2) as [Hm3 Hin3].
    split; [exact Hm3|].
    replace (y / bpow (Zpos n~0)) with (y / bpow (Zpos n) / bpow (Zpos n));
      [exact Hin3|].
    rewrite Pos2Z.inj_xO. replace (2 * Zpos n)%Z with (Zpos n + Zpos n)%Z by lia.
    rewrite bpow_add. pose proof (bpow_pos (Zpos n)). field. lra.
  - change (bpow 1) with (2 * 1). replace (y / (2 * 1)) with (y / 2) by lra.
    apply shr_1_inbetween; assumption.
Qed.

Lemma record_of_loc m l :
  shr_m (shr_record_of_loc m l) = m
  /\ loc_of_shr_record (shr_record_of_loc m l) = l.
Proof. destruct l as [|[]]; split; reflexivity. Qed.

(** [shr] by [n] places: the same real, read at the exponent [e + n]. *)
Lemma shr_inbetween x mrs e n :
  (0 <= n)%Z -> (0 <= shr_m mrs)%Z ->
  inbetween (x / bpow e) (shr_m mrs) (loc_of_shr_record mrs) ->
  snd (shr mrs e n) = (e + n)%Z
  /\ (0 <= shr_m (fst (shr mrs e n)))%Z
  /\ inbetween (x / bpow (e + n)) (shr_m (fst (shr mrs e n)))
       (loc_of_shr_record (fst (shr mrs e n))).
Proof.
  intros Hn Hm Hin. unfold shr. destruct n as [|p|p]; [| |lia]; cbn [fst snd].
  - rewrite Z.add_0_r. auto.
  - destruct (iter_shr_1_inbetween p _ _ Hm Hin) as [Hm' Hin'].
    split; [reflexivity|]. split; [exact Hm'|].
    rewrite bpow_add. replace (x / (bpow e * bpow (Zpos p)))
      with (x / bpow e / bpow (Zpos p)); [exact Hin'|].
    pose proof (bpow_pos e). pose proof (bpow_pos (Zpos p)). field. lra.
Qed.

(** What a location says of the real: it lies in [[m, m + 1)]. *)
Lemma inbetween_bounds y m l : inbetween y m l -> IZR m <= y < IZR m + 1.
Proof. destruct l as [|[]]; cbn; lra. Qed.

(** Rounding to nearest moves by at most a half. *)
Lemma round_nearest_even_error y m l :
  inbetween y m l ->
  Rabs (IZR (round_nearest_even m l) - y) <= / 2.
Proof.
  destruct l as [|[]]; cbn [inbetween round_nearest_even]; intros Hin.
  - subst y. rewrite Rminus_diag, Rabs_R0. lra.
  - destruct (Z.even m); rewrite ?plus_IZR; apply Rabs_le; lra.
  - apply Rabs_le; lra.
  - rewrite plus_IZR. apply Rabs_le; lra.
Qed.

End Shift.

Section Round.
Import Float64.
Local Open Scope R_scope.
Local Abbreviation fexp := (SpecFloat.fexp prec emax).

Lemma digits2_pos_unique p k :
  (2 ^ (k - 1) <= Zpos p < 2 ^ k)%Z -> Zpos (digits2_pos p) = k.
Proof.
  intros [Hlo Hhi].
  pose proof (digits2_pos_lower p) as Hl. pose proof (digits2_pos_upper p) as Hu.
  destruct (Z.lt_trichotomy (Zpos (digits2_pos p)) k) as [Hlt|[Heq|Hgt]]; [|exact Heq|].
  - pose proof (Z.pow_le_mono_r 2 (Zpos (digits2_pos p)) (k - 1) ltac:(lia) ltac:(lia)). lia.
  - assert (0 <= k)%Z.
    { destruct (Z_lt_le_dec k 0) as [Hneg|]; [|assumption].
      rewrite (Z.pow_neg_r 2 k Hneg) in Hhi. lia. }
    pose proof (Z.pow_le_mono_r 2 k (Zpos (digits2_pos p) - 1) ltac:(lia) ltac:(lia)). lia.
Qed.

(** A real located at the mantissa [m] and the exponent [e] lies in the
    binade of the exponent [digits m + e]. *)
Lemma binade_of_digits x m e l :
  inbetween (x / bpow e) (Zpos m) l ->
  bpow (Zpos (digits2_pos m) + e - 1) <= x < bpow (Zpos (digits2_pos m) + e).
Proof.
  intros Hin. apply inbetween_bounds in Hin.
  pose proof (digits2_pos_lower m) as Hl. pose proof (digits2_pos_upper m) as Hu.
  apply IZR_le in Hl. assert (Hu' : (Zpos m + 1 <= 2 ^ Zpos (digits2_pos m))%Z) by lia.
  apply IZR_le in Hu'. rewrite plus_IZR in Hu'.
  rewrite <- bpow_IZR in Hl, Hu' by lia.
  pose proof (bpow_pos e) as He.
  replace (Zpos (digits2_pos m) + e - 1)%Z with (Zpos (digits2_pos m) - 1 + e)%Z by lia.
  rewrite !bpow_add.
  assert (Hx : x = x / bpow e * bpow e) by (field; lra).
  split.
  - rewrite Hx. apply Rmult_le_compat_r; lra.
  - rewrite Hx. apply Rmult_lt_compat_r; lra.
Qed.

Lemma shr_fexp_exact_canonical p e :
  fexp (Zpos (digits2_pos p) + e) = e ->
  shr_fexp prec emax (Zpos p) e loc_Exact
  = ({| shr_m := Zpos p; shr_r := false; shr_s := false |}, e).
Proof.
  intros Hc. unfold shr_fexp. cbn [Zdigits2 shr_record_of_loc]. rewrite Hc, Z.sub_diag.
  reflexivity.
Qed.

(** Rounding in the normal range: the real [x], located at [(m, e, l)] and
    lying in the binade of [mag], is rounded at the exponent [mag - 53] to
    an integer mantissa within a half of it. *)
Lemma binary_round_aux_mantissa sx x m e l mag :
  inbetween (x / bpow e) (Zpos m) l ->
  bpow (mag - 1) <= x < bpow mag ->
  (e <= mag - 53)%Z -> (-1021 <= mag)%Z ->
  exists m2 : Z,
    (2 ^ 52 <= m2 <= 2 ^ 53)%Z
    /\ Rabs (IZR m2 - x / bpow (mag - 53)) <= / 2
    /\ ((m2 < 2 ^ 53)%Z ->
        binary_round_aux prec emax sx (Zpos m) e l
        = if (mag - 53 <=? 971)%Z then S754_finite sx (Z.to_pos m2) (mag - 53)
          else S754_infinity sx)
    /\ (m2 = (2 ^ 53)%Z ->
        binary_round_aux prec emax sx (Zpos m) e l
        = if (mag - 52 <=? 971)%Z then S754_finite sx (Z.to_pos (2 ^ 52)) (mag - 52)
          else S754_infinity sx).
Proof.
  intros Hin Hbin He Hmag.
  assert (Hd : (Zpos (digits2_pos m) + e)%Z = mag).
  { eapply binade_unique; [|exact Hbin].
    eapply binade_of_digits. exact Hin. }
  assert (Hfexp : fexp mag = (mag - 53)%Z).
  { unfold SpecFloat.fexp, SpecFloat.emin, prec, emax. lia. }
  unfold binary_round_aux.
  destruct (shr_fexp prec emax (Zpos m) e l) as [mrs1 e1] eqn:H1.
  unfold shr_fexp in H1. cbn [Zdigits2] in H1. rewrite Hd, Hfexp in H1.
  destruct (record_of_loc (Zpos m) l) as [Hrm Hrl].
  destruct (shr_inbetween x (shr_record_of_loc (Zpos m) l) e (mag - 53 - e))
    as (He1 & Hm1 & Hin1).
  { lia. }
  { rewrite Hrm. lia. }
  { rewrite Hrm, Hrl. exact Hin. }
  rewrite H1 in He1, Hm1, Hin1. cbn [fst snd] in He1, Hm1, Hin1.
  replace (e + (mag - 53 - e))%Z with (mag - 53)%Z in * by lia. subst e1.
  set (y1 := x / bpow (mag - 53)) in *.
  set (m2 := round_nearest_even (shr_m mrs1) (loc_of_shr_record mrs1)).
  pose proof (round_nearest_even_error y1 _ _ Hin1) as Herr. fold m2 in Herr.
  assert (Hy1 : IZR (2 ^ 52) <= y1 < IZR (2 ^ 53)).
  { rewrite <- !bpow_IZR by lia. unfold y1.
    pose proof (bpow_pos (mag - 53)) as Hp.
    replace (mag - 1)%Z with (52 + (mag - 53))%Z in Hbin by lia.
    replace mag with (53 + (mag - 53))%Z in Hbin at 2 by lia.
    rewrite !bpow_add in Hbin. destruct Hbin as [Hlo Hhi]. split.
    - apply Rmult_le_reg_r with (bpow (mag - 53)); [exact Hp|].
      unfold Rdiv. rewrite Rmult_assoc, Rinv_l by lra. lra.
    - apply Rmult_lt_reg_r with (bpow (mag - 53)); [exact Hp|].
      unfold Rdiv. rewrite Rmult_assoc, Rinv_l by lra. lra. }
  assert (Hm2 : (2 ^ 52 <= m2 <= 2 ^ 53)%Z).
  { apply Rabs_le_inv in Herr. split.
    - assert (Hlt : IZR (2 ^ 52 - 1) < IZR m2) by (rewrite minus_IZR; lra).
      apply lt_IZR in Hlt. lia.
    - assert (Hlt : IZR m2 < IZR (2 ^ 53 + 1)) by (rewrite plus_IZR; lra).
      apply lt_IZR in Hlt. lia. }
  exists m2. split; [exact Hm2|]. split; [exact Herr|]. split.
  - intros Hlt. destruct m2 as [|p|p] eqn:Hp; [lia| |lia].
    assert (Hdp : Zpos (digits2_pos p) = 53%Z) by (apply digits2_pos_unique; lia).
    rewrite shr_fexp_exact_canonical.
    + cbn [shr_m]. reflexivity.
    + rewrite Hdp. replace (53 + (mag - 53))%Z with mag by lia. exact Hfexp.
  - intros Heq. rewrite Heq.
    unfold shr_fexp. cbn [shr_record_of_loc].
    change (Zdigits2 (2 ^ 53)) with 54%Z.
    replace (fexp (54 + (mag - 53)) - (mag - 53))%Z with 1%Z
      by (unfold SpecFloat.fexp, SpecFloat.emin, prec, emax; lia).
    change (2 ^ 53)%Z with (Zpos (xO (Z.to_pos (2 ^ 52)))).
    cbn [shr SpecFloat.iter_pos shr_1 shr_m orb].
    replace (mag - 53 + 1)%Z with (mag - 52)%Z by lia.
    reflexivity.
Qed.

(** Rounding in the normal range, as a number: the result is an infinity,
    and then the real is at least the overflow threshold, or it is a normal
    number of the binade of the real (its upper end included), within half a
    unit in the last place of it. *)
Lemma binary_round_aux_correct sx x m e l :
  inbetween (x / bpow e) (Zpos m) l ->
  (53 <= Zpos (digits2_pos m))%Z -> (-1021 <= Zpos (digits2_pos m) + e)%Z ->
  (binary_round_aux prec emax sx (Zpos m) e l = S754_infinity sx
   /\ bpow 1024 - bpow 970 <= x)
  \/ (exists mz ez,
        binary_round_aux prec emax sx (Zpos m) e l = S754_finite sx mz ez
        /\ Zpos (digits2_pos mz) = 53%Z
        /\ (Zpos (digits2_pos m) + e - 53 <= ez <= 971)%Z
        /\ bpow (Zpos (digits2_pos m) + e - 1) <= IZR (Zpos mz) * bpow ez
           <= bpow (Zpos (digits2_pos m) + e)
        /\ Rabs (IZR (Zpos mz) * bpow ez - x)
           <= / 2 * bpow (Zpos (digits2_pos m) + e - 53)).
Proof.
  intros Hin Hdig Hmag. set (mag := (Zpos (digits2_pos m) + e)%Z) in *.
  pose proof (binade_of_digits x m e l Hin) as Hbin. fold mag in Hbin.
  destruct (binary_round_aux_mantissa sx x m e l mag Hin Hbin ltac:(lia) Hmag)
    as (m2 & Hm2 & Herr & Hlt & Heq).
  pose proof (bpow_pos (mag - 53)) as Hp.
  assert (Hscale : Rabs (IZR m2 * bpow (mag - 53) - x) <= / 2 * bpow (mag - 53)).
  { replace (IZR m2 * bpow (mag - 53) - x)
      with ((IZR m2 - x / bpow (mag - 53)) * bpow (mag - 53)) by (field; lra).
    rewrite Rabs_mult, (Rabs_pos_eq (bpow (mag - 53))) by lra.
    apply Rmult_le_compat_r; lra. }
  assert (Hlo : bpow (mag - 1) = IZR (2 ^ 52) * bpow (mag - 53)).
  { rewrite <- bpow_IZR, <- bpow_add by lia. f_equal. lia. }
  assert (Hhi : bpow mag = IZR (2 ^ 53) * bpow (mag - 53)).
  { rewrite <- bpow_IZR, <- bpow_add by lia. f_equal. lia. }
  destruct (Z.eq_dec m2 (2 ^ 53)%Z) as [Htop|Hbelow].
  - specialize (Heq Htop). rewrite Heq. subst m2.
    destruct (Z.leb_spec (mag - 52) 971) as [Hfin|Hover].
    + right. exists (Z.to_pos (2 ^ 52)%Z), (mag - 52)%Z.
      split; [reflexivity|]. split; [reflexivity|]. split; [lia|].
      assert (Hval : IZR (Zpos (Z.to_pos (2 ^ 52)%Z)) * bpow (mag - 52) = bpow mag).
      { change (Zpos (Z.to_pos (2 ^ 52)%Z)) with (2 ^ 52)%Z.
        rewrite <- bpow_IZR, <- bpow_add by lia. f_equal. lia. }
      rewrite Hval. split.
      * split; [apply bpow_le; lia|lra].
      * rewrite Hhi. exact Hscale.
    + left. split; [reflexivity|].
      apply Rabs_le_inv in Hscale.
      pose proof (bpow_le 971 (mag - 53) ltac:(lia)) as H2.
      assert (H1024 : bpow 1024 = IZR (2 ^ 53) * bpow 971).
      { rewrite <- bpow_IZR, <- bpow_add by lia. reflexivity. }
      assert (H971 : bpow 971 = 2 * bpow 970).
      { rewrite <- bpow_succ. reflexivity. }
      assert (HK : 1 <= IZR (2 ^ 53)) by (apply IZR_le; lia).
      rewrite H1024. pose proof (bpow_pos 970).
      assert (0 <= (IZR (2 ^ 53) - / 2) * (bpow (mag - 53) - bpow 971)) by
        (apply Rmult_le_pos; lra).
      lra.
  - specialize (Hlt ltac:(lia)). rewrite Hlt.
    destruct (Z.leb_spec (mag - 53) 971) as [Hfin|Hover].
    + right. exists (Z.to_pos m2), (mag - 53)%Z.
      split; [reflexivity|].
      assert (Hpos : Zpos (Z.to_pos m2) = m2) by (apply Z2Pos.id; lia).
      split; [apply digits2_pos_unique; rewrite Hpos; lia|]. split; [lia|].
      rewrite Hpos. split; [|exact Hscale].
      rewrite Hlo, Hhi. destruct Hm2 as [Hm2l Hm2h].
      apply IZR_le in Hm2l, Hm2h. split; apply Rmult_le_compat_r; lra.
    + left. split; [reflexivity|].
      pose proof (bpow_le 1024 (mag - 1) ltac:(lia)) as H3.
      pose proof (bpow_pos 970). lra.
Qed.

(** Rounding below the normal range: the real is rounded at the exponent
    [-1074] to an integer mantissa within a half of it; the result is a zero
    when that mantissa is 0. *)
Lemma binary_round_aux_subnormal sx x m e l :
  inbetween (x / bpow e) (Zpos m) l ->
  (e <= -1074)%Z -> (Zpos (digits2_pos m) + e <= -1022)%Z ->
  exists m2 : Z,
    (0 <= m2 <= 2 ^ 52)%Z
    /\ Rabs (IZR m2 - x / bpow (-1074)) <= / 2
    /\ binary_round_aux prec emax sx (Zpos m) e l
       = match m2 with
         | Zpos p => S754_finite sx p (-1074)
         | _ => S754_zero sx
         end.
Proof.
  intros Hin He Hmag. set (mag := (Zpos (digits2_pos m) + e)%Z) in *.
  pose proof (binade_of_digits x m e l Hin) as Hbin. fold mag in Hbin.
  assert (Hfexp : fexp mag = (-1074)%Z).
  { unfold SpecFloat.fexp, SpecFloat.emin, prec, emax. lia. }
  unfold binary_round_aux.
  destruct (shr_fexp prec emax (Zpos m) e l) as [mrs1 e1] eqn:H1.
  unfold shr_fexp in H1. cbn [Zdigits2] in H1. fold mag in H1. rewrite Hfexp in H1.
  destruct (record_of_loc (Zpos m) l) as [Hrm Hrl].
  destruct (shr_inbetween x (shr_record_of_loc (Zpos m) l) e (-1074 - e))
    as (He1 & Hm1 & Hin1).
  { lia. }
  { rewrite Hrm. lia. }
  { rewrite Hrm, Hrl. exact Hin. }
  rewrite H1 in He1, Hm1, Hin1. cbn [fst snd] in He1, Hm1, Hin1.
  replace (e + (-1074 - e))%Z with (-1074)%Z in * by lia. subst e1.
  set (y1 := x / bpow (-1074)) in *.
  set (m2 := round_nearest_even (shr_m mrs1) (loc_of_shr_record mrs1)).
  pose proof (round_nearest_even_error y1 _ _ Hin1) as Herr. fold m2 in Herr.
  assert (Hy1 : 0 < y1 < IZR (2 ^ 52)).
  { pose proof (bpow_pos (-1074)) as Hp. pose proof (bpow_pos (mag - 1)).
    unfold y1. split; [apply Rdiv_lt_0_compat; lra|].
    apply Rmult_lt_reg_r with (bpow (-1074)); [exact Hp|].
    unfold Rdiv. rewrite Rmult_assoc, Rinv_l, Rmult_1_r by lra.
    rewrite <- bpow_IZR, <- bpow_add by lia.
    pose proof (bpow_le mag (52 + -1074) ltac:(lia)). lra. }
  assert (Hm2 : (0 <= m2 <= 2 ^ 52)%Z).
  { apply Rabs_le_inv in Herr. split.
    - assert (Hlt : IZR (-1) < IZR m2) by lra.
      apply lt_IZR in Hlt. lia.
    - assert (Hlt : IZR m2 < IZR (2 ^ 52 + 1)) by (rewrite plus_IZR; lra).
      apply lt_IZR in Hlt. lia. }
  exists m2. split; [exact Hm2|]. split; [exact Herr|].
  destruct m2 as [|p|p] eqn:Hp; [reflexivity| |lia].
  rewrite shr_fexp_exact_canonical; [reflexivity|].
  pose proof (digits2_pos_lower p) as Hl.
  assert (Hd : (Zpos (digits2_pos p) - 1 <= 52)%Z).
  { apply (Z.pow_le_mono_r_iff 2); lia. }
  unfold SpecFloat.fexp, SpecFloat.emin, prec, emax. lia.
Qed.

End Round.

Section Operations.
Import Float64.
Local Open Scope R_scope.
Local Abbreviation fexp := (SpecFloat.fexp prec emax).

Lemma sqrt_above a b : 0 <= a -> a * a < b -> a < sqrt b.
Proof.
  intros Ha Hlt. rewrite <- (sqrt_square a Ha). apply sqrt_lt_1_alt.
  split; [nra|exact Hlt].
Qed.

Lemma sqrt_below a b : 0 <= a -> 0 <= b -> b < a * a -> sqrt b < a.
Proof.
  intros Ha Hb Hlt. rewrite <- (sqrt_square a Ha). apply sqrt_lt_1_alt.
  split; [exact Hb|exact Hlt].
Qed.

Lemma sqrt_bpow_sqr e : sqrt (bpow e * bpow e) = bpow e.
Proof. apply sqrt_square. pose proof (bpow_pos e). lra. Qed.

Lemma bpow_split a b c : (a = b + c)%Z -> bpow a = bpow b * bpow c.
Proof. intros ->. apply bpow_add. Qed.

(** The real number of a positive finite binary64 number lies in the binade
    of its digits and its exponent. *)
Lemma finite_binade m e :
  0 < IZR (Zpos m) * bpow e
  /\ bpow (Zpos (digits2_pos m) + e - 1) <= IZR (Zpos m) * bpow e
     < bpow (Zpos (digits2_pos m) + e).
Proof.
  pose proof (bpow_pos e) as He.
  assert (Hin : inbetween (IZR (Zpos m) * bpow e / bpow e) (Zpos m) loc_Exact).
  { cbn [inbetween]. field. lra. }
  split; [|exact (binade_of_digits _ _ _ _ Hin)].
  apply Rmult_lt_0_compat; [apply IZR_lt; lia|exact He].
Qed.

(** The location [SFsqrt_core_binary] computes for the square root of
    [n = q * q + r]. *)
Lemma sqrt_location (n q r : Z) :
  (0 < q)%Z -> n = (q * q + r)%Z -> (0 <= r <= 2 * q)%Z ->
  inbetween (sqrt (IZR n)) q
    (if (r =? 0)%Z then loc_Exact
     else loc_Inexact (if (r <=? q)%Z then Lt else Gt)).
Proof.
  intros Hq -> Hr. rewrite plus_IZR, mult_IZR.
  assert (HqR : 0 < IZR q) by (apply IZR_lt; lia).
  assert (HrR : 0 <= IZR r <= 2 * IZR q).
  { split; [apply IZR_le; lia|]. rewrite <- mult_IZR. apply IZR_le. lia. }
  destruct (Z.eqb_spec r 0) as [->|Hne]; cbn [inbetween].
  - rewrite Rplus_0_r. apply sqrt_square. lra.
  - assert (Hr1 : 1 <= IZR r) by (apply IZR_le; lia).
    destruct (Z.leb_spec r q) as [Hle|Hgt]; cbn [inbetween].
    + apply IZR_le in Hle. split.
      * apply sqrt_above; [lra|nra].
      * apply sqrt_below; [lra|nra|nra].
    + assert (Hgt' : IZR q + 1 <= IZR r).
      { rewrite <- plus_IZR. apply IZR_le. lia. }
      split.
      * apply sqrt_above; [lra|nra].
      * apply sqrt_below; [lra|nra|nra].
Qed.

(** The square root of a positive finite number, normal or subnormal: the
    mantissa handed to the rounding has 53 digits, at the exponent
    [(d + e + 1) / 2 - 53] for [d] digits at the exponent [e]. *)
Lemma SFsqrt_core_finite m e :
  (Zpos (digits2_pos m) <= 53)%Z -> (-1074 <= e <= 971)%Z ->
  exists (q : positive) l,
    SFsqrt_core_binary prec emax (Zpos m) e
    = (Zpos q, ((Zpos (digits2_pos m) + e + 1) / 2 - 53)%Z, l)
    /\ Zpos (digits2_pos q) = 53%Z
    /\ inbetween (sqrt (IZR (Zpos m) * bpow e)
                  / bpow ((Zpos (digits2_pos m) + e + 1) / 2 - 53)) (Zpos q) l.
Proof.
  intros Hd He.
  pose proof (digits2_pos_lower m) as Hml. pose proof (digits2_pos_upper m) as Hmu.
  set (d := Zpos (digits2_pos m)) in *.
  assert (Hd1 : (1 <= d)%Z) by (unfold d; lia).
  unfold SFsqrt_core_binary. cbn [Zdigits2]. fold d.
  pose proof (Z.div_mod (d + e + 1) 2 ltac:(lia)) as Hdm.
  pose proof (Z.mod_pos_bound (d + e + 1) 2 ltac:(lia)) as Hmod.
  pose proof (Z.div_mod e 2 ltac:(lia)) as Hdm'.
  pose proof (Z.mod_pos_bound e 2 ltac:(lia)) as Hmod'.
  assert (He' : Z.min (fexp (Z.div2 (d + e + 1))) (Z.div2 e) = ((d + e + 1) / 2 - 53)%Z).
  { rewrite !Z.div2_div. unfold SpecFloat.fexp, SpecFloat.emin, prec, emax. lia. }
  rewrite He'. set (e' := ((d + e + 1) / 2 - 53)%Z) in *.
  assert (Hs : (e - 2 * e' = 105 - d \/ e - 2 * e' = 106 - d)%Z) by (unfold e'; lia).
  set (s := (e - 2 * e')%Z) in *.
  set (m' := match s with
             | Zpos _ => Z.shiftl (Zpos m) s
             | 0%Z => Zpos m
             | Zneg _ => 0%Z
             end).
  assert (Hm' : m' = (Zpos m * 2 ^ s)%Z).
  { unfold m'. destruct s as [|p|p] eqn:Hp; [lia| |lia].
    apply Z.shiftl_mul_pow2. lia. }
  clearbody m'.
  assert (Hrange : (2 ^ 104 <= m' < 2 ^ 106)%Z).
  { rewrite Hm'.
    assert (Hlow : (2 ^ 104 <= 2 ^ (d - 1) * 2 ^ s)%Z).
    { rewrite <- Z.pow_add_r by lia. apply Z.pow_le_mono_r; lia. }
    assert (Hhigh : (2 ^ d * 2 ^ s <= 2 ^ 106)%Z).
    { rewrite <- Z.pow_add_r by lia. apply Z.pow_le_mono_r; lia. }
    assert (Hpos : (0 < 2 ^ s)%Z) by (apply Z.pow_pos_nonneg; lia).
    nia. }
  pose proof (Z.sqrtrem_spec m' ltac:(lia)) as Hspec.
  destruct (Z.sqrtrem m') as [q r]. destruct Hspec as [Hqr Hr].
  assert (Hq : (2 ^ 52 <= q < 2 ^ 53)%Z) by nia.
  destruct q as [|q|q]; [lia| |lia].
  eexists q, _. split; [reflexivity|].
  split; [apply digits2_pos_unique; lia|].
  assert (Hroot : sqrt (IZR (Zpos m) * bpow e) / bpow e' = sqrt (IZR m')).
  { pose proof (bpow_pos e') as Hp.
    assert (Hx : IZR (Zpos m) * bpow e = IZR m' * (bpow e' * bpow e')).
    { rewrite Hm', mult_IZR, <- bpow_IZR, Rmult_assoc, <- !bpow_add by lia.
      f_equal. f_equal. unfold s. lia. }
    rewrite Hx, sqrt_mult, sqrt_bpow_sqr.
    - field. lra.
    - apply IZR_le. lia.
    - nra. }
  rewrite Hroot. apply sqrt_location; [lia|exact Hqr|exact Hr].
Qed.

(** Half a unit in the last place of a binade is at most the fraction
    [2^-53] of a real of the binade. *)
Lemma half_ulp_relative x mag :
  bpow (mag - 1) <= x -> / 2 * bpow (mag - 53) <= bpow (-53) * x.
Proof.
  intros Hx. rewrite (bpow_split (mag - 53) 1 (mag - 54)) by lia.
  rewrite (bpow_split (mag - 1) 53 (mag - 54)) in Hx by lia.
  change (bpow 1) with (2 * 1).
  pose proof (bpow_pos (-53)) as Hu. pose proof (bpow_pos (mag - 54)).
  assert (H1 : bpow (-53) * bpow 53 = 1).
  { rewrite <- bpow_add. reflexivity. }
  assert (bpow (-53) * (bpow 53 * bpow (mag - 54)) <= bpow (-53) * x)
    by (apply Rmult_le_compat_l; lra).
  nra.
Qed.

(** The square root of a positive finite number is a normal number within
    half a unit in the last place of the real square root; it is at least
    [2^-537], at least [2^-511] for a normal number, and less than
    [2^512]. *)
Lemma SFsqrt_finite m e :
  (Zpos (digits2_pos m) <= 53)%Z -> (-1074 <= e <= 971)%Z ->
  exists mz ez,
    SFsqrt prec emax (S754_finite false m e) = S754_finite false mz ez
    /\ Zpos (digits2_pos mz) = 53%Z
    /\ (-590 <= ez <= 971)%Z
    /\ Rabs (IZR (Zpos mz) * bpow ez - sqrt (IZR (Zpos m) * bpow e))
       <= bpow (-53) * sqrt (IZR (Zpos m) * bpow e)
    /\ bpow (-537) <= IZR (Zpos mz) * bpow ez <= bpow 512 - bpow 459
    /\ (bpow (-1022) <= IZR (Zpos m) * bpow e -> bpow (-511) <= IZR (Zpos mz) * bpow ez).
Proof.
  intros Hd He.
  destruct (SFsqrt_core_finite m e Hd He) as (q & l & Hcore & Hdq & Hin).
  cbn [SFsqrt]. rewrite Hcore.
  pose proof (digits2_pos_lower m) as Hml. pose proof (digits2_pos_upper m) as Hmu.
  set (d := Zpos (digits2_pos m)) in *.
  assert (Hd1 : (1 <= d)%Z) by (unfold d; lia).
  pose proof (Z.div_mod (d + e + 1) 2 ltac:(lia)) as Hdm.
  pose proof (Z.mod_pos_bound (d + e + 1) 2 ltac:(lia)) as Hmod.
  set (e' := ((d + e + 1) / 2 - 53)%Z) in *.
  set (X := IZR (Zpos m) * bpow e) in *.
  pose proof (binade_of_digits _ _ _ _ Hin) as Hbin. rewrite Hdq in Hbin.
  destruct (binary_round_aux_correct false (sqrt X) q e' l Hin)
    as [[_ Hover]|(mz & ez & Hres & Hdz & Hez & Hval & Herr)].
  { lia. }
  { lia. }
  - exfalso.
    pose proof (bpow_le (53 + e') 1023 ltac:(lia)).
    pose proof (bpow_le 970 1023 ltac:(lia)).
    rewrite (bpow_split 1024 1023 1) in Hover by lia.
    change (bpow 1) with (2 * 1) in Hover. lra.
  - rewrite Hdq in *. set (mag := (53 + e')%Z) in *.
    exists mz, ez. split; [exact Hres|]. split; [exact Hdz|]. split; [lia|].
    pose proof (digits2_pos_lower mz) as Hzl. pose proof (digits2_pos_upper mz) as Hzu.
    rewrite Hdz in Hzl, Hzu. change (53 - 1)%Z with 52%Z in Hzl.
    split; [|split; [split|]].
    + eapply Rle_trans; [exact Herr|]. apply half_ulp_relative. lra.
    + pose proof (bpow_le (-537) (mag - 1) ltac:(lia)). lra.
    + destruct (Z_lt_le_dec mag 512) as [Hsmall|Hlarge].
      * pose proof (bpow_le mag 511 ltac:(lia)).
        pose proof (bpow_le 459 511 ltac:(lia)).
        rewrite (bpow_split 512 511 1) by lia. change (bpow 1) with (2 * 1). lra.
      * assert (Hmag : mag = 512%Z) by lia. rewrite Hmag in *.
        assert (H512 : bpow 512 = IZR (2 ^ 53) * bpow 459).
        { rewrite <- bpow_IZR, <- bpow_add by lia. reflexivity. }
        pose proof (bpow_pos 459) as Hp459.
        destruct (Z.eq_dec ez 459%Z) as [->|Hne].
        -- assert (Hmz : IZR (Zpos mz) <= IZR (2 ^ 53) - 1).
           { rewrite <- minus_IZR. apply IZR_le. lia. }
           rewrite H512. nra.
        -- exfalso.
           assert (Hr : bpow 512 <= IZR (Zpos mz) * bpow ez).
           { pose proof (bpow_le 460 ez ltac:(lia)) as Hle.
             rewrite (bpow_split 512 52 460) by lia. rewrite (bpow_IZR 52) by lia.
             apply IZR_le in Hzl. pose proof (bpow_pos 460).
             apply Rmult_le_compat; lra || (apply IZR_le; lia). }
           assert (Hreq : IZR (Zpos mz) * bpow ez = bpow 512) by lra.
           rewrite Hreq in Herr. apply Rabs_le_inv in Herr.
           change (512 - 53)%Z with 459%Z in Herr.
           set (A := bpow 458) in *.
           assert (HA : 0 < A) by apply bpow_pos.
           assert (H459 : bpow 459 = 2 * A).
           { rewrite (bpow_split 459 458 1) by lia. change (bpow 1) with (2 * 1). unfold A. lra. }
           set (K := IZR (2 ^ 54)).
           assert (HK : 2 <= K) by (apply IZR_le; lia).
           assert (H512' : bpow 512 = K * A).
           { unfold K, A. rewrite <- bpow_IZR, <- bpow_add by lia. reflexivity. }
           assert (HX : X <= (K * K - 2 * K) * (A * A)).
           { unfold X.
             assert (Hm1 : IZR (Zpos m) <= IZR (2 ^ 53) - 1).
             { rewrite <- minus_IZR. apply IZR_le.
               pose proof (Z.pow_le_mono_r 2 d 53 ltac:(lia) ltac:(lia)). lia. }
             pose proof (bpow_le e 971 ltac:(lia)) as He971.
             pose proof (bpow_pos e).
             assert (H971 : bpow 971 = 2 * K * (A * A)).
             { assert (H970 : bpow 970 = K * (A * A)).
               { unfold K, A. rewrite <- bpow_IZR, <- !bpow_add by lia. reflexivity. }
               rewrite (bpow_split 971 970 1) by lia. change (bpow 1) with (2 * 1).
               lra. }
             assert (H53 : IZR (2 ^ 53) = K / 2).
             { unfold K. change (2 ^ 54)%Z with (2 ^ 53 * 2)%Z. rewrite mult_IZR. lra. }
             assert (Hstep : IZR (Zpos m) * bpow e <= (K / 2 - 1) * bpow 971).
             { apply Rmult_le_compat; try lra. apply IZR_le. lia. }
             rewrite H971 in Hstep. nra. }
           assert (Hroot : (K - 1) * A <= sqrt X) by (rewrite H512', H459 in Herr; lra).
           assert (HX0 : 0 <= X).
           { unfold X. pose proof (bpow_pos e). apply Rmult_le_pos; [apply IZR_le; lia|lra]. }
           pose proof (sqrt_sqrt X HX0) as Hsq.
           assert (Hsqr : (K - 1) * A * ((K - 1) * A) <= sqrt X * sqrt X)
             by (apply Rmult_le_compat; nra).
           nra.
    + intros HX.
      assert (Hroot : bpow (-511) <= sqrt X).
      { rewrite <- (sqrt_bpow_sqr (-511)). apply sqrt_le_1_alt.
        rewrite <- bpow_add. exact HX. }
      assert (Hlt : bpow (-511) < bpow mag) by lra.
      apply bpow_lt_inv in Hlt.
      pose proof (bpow_le (-511) (mag - 1) ltac:(lia)). lra.
Qed.

(** The product of two positive normal numbers, where the real product
    neither underflows nor overflows. *)
Lemma SFmul_normal mx ex my ey :
  Zpos (digits2_pos mx) = 53%Z -> Zpos (digits2_pos my) = 53%Z ->
  bpow (-1022) <= IZR (Zpos mx) * bpow ex * (IZR (Zpos my) * bpow ey) ->
  IZR (Zpos mx) * bpow ex * (IZR (Zpos my) * bpow ey) < bpow 1024 - bpow 970 ->
  exists mz ez,
    SFmul prec emax (S754_finite false mx ex) (S754_finite false my ey)
    = S754_finite false mz ez
    /\ Zpos (digits2_pos mz) = 53%Z
    /\ (-1074 <= ez <= 971)%Z
    /\ Rabs (IZR (Zpos mz) * bpow ez
             - IZR (Zpos mx) * bpow ex * (IZR (Zpos my) * bpow ey))
       <= bpow (-53) * (IZR (Zpos mx) * bpow ex * (IZR (Zpos my) * bpow ey)).
Proof.
  intros Hdx Hdy Hlow Hhigh.
  set (P := IZR (Zpos mx) * bpow ex * (IZR (Zpos my) * bpow ey)) in *.
  pose proof (digits2_pos_lower mx) as Hxl. rewrite Hdx in Hxl.
  pose proof (digits2_pos_lower my) as Hyl. rewrite Hdy in Hyl.
  change (53 - 1)%Z with 52%Z in Hxl, Hyl.
  cbn [SFmul xorb].
  assert (Hin : inbetween (P / bpow (ex + ey)) (Zpos (mx * my)) loc_Exact).
  { cbn [inbetween]. unfold P. rewrite Pos2Z.inj_mul, mult_IZR, bpow_add.
    pose proof (bpow_pos ex). pose proof (bpow_pos ey). field. lra. }
  pose proof (binade_of_digits _ _ _ _ Hin) as Hbin.
  assert (Hdig : (53 <= Zpos (digits2_pos (mx * my)))%Z).
  { pose proof (digits2_pos_upper (mx * my)) as Hu. rewrite Pos2Z.inj_mul in Hu.
    assert (H104 : (2 ^ 104 < 2 ^ Zpos (digits2_pos (mx * my)))%Z) by nia.
    apply Z.pow_lt_mono_r_iff in H104; lia. }
  assert (Hmag : (-1021 <= Zpos (digits2_pos (mx * my)) + (ex + ey))%Z).
  { assert (Hlt : bpow (-1022) < bpow (Zpos (digits2_pos (mx * my)) + (ex + ey))) by lra.
    apply bpow_lt_inv in Hlt. lia. }
  destruct (binary_round_aux_correct false P (mx * my) (ex + ey) loc_Exact Hin Hdig Hmag)
    as [[_ Hover]|(mz & ez & Hres & Hdz & Hez & Hval & Herr)]; [lra|].
  exists mz, ez. split; [exact Hres|]. split; [exact Hdz|]. split; [lia|].
  eapply Rle_trans; [exact Herr|]. apply half_ulp_relative. lra.
Qed.

(** The product of two positive normal numbers, where the real product is
    below the normal range: it is rounded to a multiple of [2^-1074]. *)
Lemma SFmul_subnormal mx ex my ey :
  Zpos (digits2_pos mx) = 53%Z -> Zpos (digits2_pos my) = 53%Z ->
  IZR (Zpos mx) * bpow ex * (IZR (Zpos my) * bpow ey) < bpow (-1022) ->
  exists m2 : Z,
    (0 <= m2 <= 2 ^ 52)%Z
    /\ Rabs (IZR m2 - IZR (Zpos mx) * bpow ex * (IZR (Zpos my) * bpow ey) / bpow (-1074))
       <= / 2
    /\ SFmul prec emax (S754_finite false mx ex) (S754_finite false my ey)
       = match m2 with
         | Zpos p => S754_finite false p (-1074)
         | _ => S754_zero false
         end.
Proof.
  intros Hdx Hdy Hsmall.
  set (P := IZR (Zpos mx) * bpow ex * (IZR (Zpos my) * bpow ey)) in *.
  pose proof (digits2_pos_lower mx) as Hxl. rewrite Hdx in Hxl.
  pose proof (digits2_pos_lower my) as Hyl. rewrite Hdy in Hyl.
  change (53 - 1)%Z with 52%Z in Hxl, Hyl.
  cbn [SFmul xorb].
  assert (Hin : inbetween (P / bpow (ex + ey)) (Zpos (mx * my)) loc_Exact).
  { cbn [inbetween]. unfold P. rewrite Pos2Z.inj_mul, mult_IZR, bpow_add.
    pose proof (bpow_pos ex). pose proof (bpow_pos ey). field. lra. }
  pose proof (binade_of_digits _ _ _ _ Hin) as Hbin.
  assert (Hdig : (105 <= Zpos (digits2_pos (mx * my)))%Z).
  { pose proof (digits2_pos_upper (mx * my)) as Hu. rewrite Pos2Z.inj_mul in Hu.
    assert (H104 : (2 ^ 104 < 2 ^ Zpos (digits2_pos (mx * my)))%Z) by nia.
    apply Z.pow_lt_mono_r_iff in H104; lia. }
  assert (Hmag : (Zpos (digits2_pos (mx * my)) + (ex + ey) <= -1022)%Z).
  { assert (Hlt : bpow (Zpos (digits2_pos (mx * my)) + (ex + ey) - 1) < bpow (-1022)) by lra.
    apply bpow_lt_inv in Hlt. lia. }
  apply (binary_round_aux_subnormal false P (mx * my) (ex + ey) loc_Exact Hin); lia.
Qed.

(** The location [SFdiv_core_binary] computes for a quotient with the
    remainder [k] of the division by [nb]. *)
Lemma new_location_inbetween (nb k q : Z) :
  (0 <= k < nb)%Z ->
  inbetween (IZR q + IZR k / IZR nb) q (new_location nb k).
Proof.
  intros Hk.
  assert (Hnb : 0 < IZR nb) by (apply IZR_lt; lia).
  assert (Hk0 : 0 <= IZR k) by (apply IZR_le; lia).
  set (f := IZR k / IZR nb).
  assert (Hf : f * IZR nb = IZR k) by (unfold f; field; lra).
  assert (Hlt' : IZR k < IZR nb) by (apply IZR_lt; lia).
  unfold new_location.
  destruct (Z.even nb) eqn:Heven; unfold new_location_even, new_location_odd;
    (destruct (Z.eqb_spec k 0) as [Hz|Hne];
     [subst k; assert (f = 0) by (unfold f; field; lra); cbn [inbetween]; lra|]);
    assert (Hk1 : 1 <= IZR k) by (apply IZR_le; lia).
  - destruct (Z.compare_spec (2 * k) nb) as [Heq|Hlt|Hgt]; cbn [inbetween].
    + apply (f_equal IZR) in Heq. rewrite mult_IZR in Heq. nra.
    + apply IZR_lt in Hlt. rewrite mult_IZR in Hlt. split; nra.
    + apply IZR_lt in Hgt. rewrite mult_IZR in Hgt. split; nra.
  - assert (Hodd : Z.odd nb = true) by (rewrite <- Z.negb_even, Heven; reflexivity).
    apply Z.odd_spec in Hodd as [c Hc].
    destruct (Z.compare_spec (2 * k + 1) nb) as [Heq|Hlt|Hgt]; cbn [inbetween].
    + assert (H2 : (2 * k < nb)%Z) by lia.
      apply IZR_lt in H2. rewrite mult_IZR in H2. split; nra.
    + assert (H2 : (2 * k < nb)%Z) by lia.
      apply IZR_lt in H2. rewrite mult_IZR in H2. split; nra.
    + assert (H2 : (nb < 2 * k)%Z) by lia.
      apply IZR_lt in H2. rewrite mult_IZR in H2. split; nra.
Qed.

(** The quotient of two positive finite numbers, normal or subnormal, where
    the real quotient is in the normal range. *)
Lemma SFdiv_finite mx ex my ey :
  (Zpos (digits2_pos mx) <= 53)%Z ->
  (-1021 <= Zpos (digits2_pos mx) + ex - (Zpos (digits2_pos my) + ey))%Z ->
  IZR (Zpos mx) * bpow ex / (IZR (Zpos my) * bpow ey) < bpow 1024 - bpow 970 ->
  exists mz ez,
    SFdiv prec emax (S754_finite false mx ex) (S754_finite false my ey)
    = S754_finite false mz ez
    /\ Zpos (digits2_pos mz) = 53%Z
    /\ (-1074 <= ez <= 971)%Z
    /\ Rabs (IZR (Zpos mz) * bpow ez
             - IZR (Zpos mx) * bpow ex / (IZR (Zpos my) * bpow ey))
       <= bpow (-53) * (IZR (Zpos mx) * bpow ex / (IZR (Zpos my) * bpow ey)).
Proof.
  intros Hdx Hexp Hhigh.
  set (Q := IZR (Zpos mx) * bpow ex / (IZR (Zpos my) * bpow ey)) in *.
  pose proof (digits2_pos_lower mx) as Hxl. pose proof (digits2_pos_upper mx) as Hxu.
  pose proof (digits2_pos_lower my) as Hyl. pose proof (digits2_pos_upper my) as Hyu.
  set (dx := Zpos (digits2_pos mx)) in *. set (dy := Zpos (digits2_pos my)) in *.
  assert (Hdy : (1 <= dy)%Z) by (unfold dy; lia).
  assert (Hdx1 : (1 <= dx)%Z) by (unfold dx; lia).
  cbn [SFdiv xorb]. unfold SFdiv_core_binary. cbn [Zdigits2]. fold dx dy.
  assert (He' : Z.min (fexp (dx + ex - (dy + ey))) (ex - ey)
                = (dx + ex - (dy + ey) - 53)%Z).
  { unfold SpecFloat.fexp, SpecFloat.emin, prec, emax. lia. }
  rewrite He'. set (e' := (dx + ex - (dy + ey) - 53)%Z) in *.
  assert (Hs : (ex - ey - e' = 53 - dx + dy)%Z) by (unfold e'; lia).
  set (s := (ex - ey - e')%Z) in *.
  set (m' := match s with
             | Zpos _ => Z.shiftl (Zpos mx) s
             | 0%Z => Zpos mx
             | Zneg _ => 0%Z
             end).
  assert (Hm' : m' = (Zpos mx * 2 ^ s)%Z).
  { unfold m'. destruct s as [|p|p] eqn:Hp; [lia| |lia].
    apply Z.shiftl_mul_pow2. lia. }
  clearbody m'.
  assert (Hlow : (2 ^ 52 * 2 ^ dy <= m')%Z).
  { rewrite Hm'.
    assert (H1 : (2 ^ 52 * 2 ^ dy = 2 ^ (dx - 1) * 2 ^ s)%Z).
    { rewrite <- !Z.pow_add_r by lia. f_equal. lia. }
    assert (Hpos : (0 < 2 ^ s)%Z) by (apply Z.pow_pos_nonneg; lia).
    nia. }
  assert (Hhigh' : (m' < 2 ^ 54 * 2 ^ (dy - 1))%Z).
  { rewrite Hm'.
    assert (H1 : (2 ^ 54 * 2 ^ (dy - 1) = 2 ^ dx * 2 ^ s)%Z).
    { rewrite <- !Z.pow_add_r by lia. f_equal. lia. }
    assert (Hpos : (0 < 2 ^ s)%Z) by (apply Z.pow_pos_nonneg; lia).
    nia. }
  pose proof (Z_div_mod m' (Zpos my) ltac:(lia)) as Hdiv.
  destruct (Z.div_eucl m' (Zpos my)) as [q r].
  destruct Hdiv as [Hqr Hr].
  assert (Hpy : (0 < 2 ^ dy)%Z) by (apply Z.pow_pos_nonneg; lia).
  assert (Hpy' : (0 < 2 ^ (dy - 1))%Z) by (apply Z.pow_pos_nonneg; lia).
  assert (Hq : (2 ^ 52 <= q < 2 ^ 54)%Z) by nia.
  destruct q as [|q|q]; [lia| |lia].
  assert (Hin : inbetween (Q / bpow e') (Zpos q) (new_location (Zpos my) r)).
  { assert (HQ : Q / bpow e' = IZR (Zpos q) + IZR r / IZR (Zpos my)).
    { assert (Hmy : 0 < IZR (Zpos my)) by (apply IZR_lt; lia).
      apply (f_equal IZR) in Hqr. rewrite plus_IZR, mult_IZR in Hqr.
      rewrite Hm', mult_IZR, <- (bpow_IZR s) in Hqr by lia.
      unfold Q. rewrite (bpow_split ex e' (s + ey)) by (unfold s; lia).
      rewrite (bpow_add s ey).
      pose proof (bpow_pos e'). pose proof (bpow_pos ey). pose proof (bpow_pos s).
      apply Rmult_eq_reg_r with (IZR (Zpos my)); [|lra].
      replace ((IZR (Zpos q) + IZR r / IZR (Zpos my)) * IZR (Zpos my))
        with (IZR (Zpos my) * IZR (Zpos q) + IZR r) by (field; lra).
      rewrite <- Hqr. field. lra. }
    rewrite HQ. apply new_location_inbetween. exact Hr. }
  pose proof (digits2_pos_upper q) as Hqu.
  assert (Hdig : (53 <= Zpos (digits2_pos q))%Z).
  { assert (H52 : (2 ^ 52 < 2 ^ Zpos (digits2_pos q))%Z) by lia.
    apply Z.pow_lt_mono_r_iff in H52; lia. }
  destruct (binary_round_aux_correct false Q q e'
              (new_location (Zpos my) r) Hin Hdig ltac:(lia))
    as [[_ Hover]|(mz & ez & Hres & Hdz & Hez & Hval & Herr)]; [lra|].
  exists mz, ez. split; [exact Hres|]. split; [exact Hdz|]. split; [lia|].
  eapply Rle_trans; [exact Herr|]. apply half_ulp_relative.
  pose proof (binade_of_digits _ _ _ _ Hin). lra.
Qed.

End Operations.

Section SelfQuotient.
Import Float64.
Local Open Scope R_scope.

(** Three roundings of relative error [u] each: the quotient of [t * t] by
    the rounded square of the rounded [t] is within [8 u] of 1. *)
Lemma three_roundings u t r p q :
  0 < u <= / 16 -> 0 < t ->
  Rabs (r - t) <= u * t ->
  Rabs (p - r * r) <= u * (r * r) ->
  Rabs (q - t * t / p) <= u * (t * t / p) ->
  0 < p /\ / 2 <= t * t / p <= 2 /\ Rabs (q - 1) <= 8 * u.
Proof.
  intros Hu Ht Hr Hp Hq.
  apply Rabs_le_inv in Hr. apply Rabs_le_inv in Hp.
  assert (Hr0 : 0 < r) by nra.
  assert (Hrr : (1 - u) * (1 - u) * (t * t) <= r * r <= (1 + u) * (1 + u) * (t * t)).
  { split.
    - replace ((1 - u) * (1 - u) * (t * t)) with ((1 - u) * t * ((1 - u) * t)) by ring.
      apply Rmult_le_compat; nra.
    - replace ((1 + u) * (1 + u) * (t * t)) with ((1 + u) * t * ((1 + u) * t)) by ring.
      apply Rmult_le_compat; nra. }
  assert (Htt : 0 < t * t) by nra.
  assert (Hrr0 : 0 < r * r) by nra.
  assert (Hp0 : 0 < p) by nra.
  split; [exact Hp0|].
  set (w := t * t / p) in *.
  assert (Hw : w * p = t * t) by (unfold w; field; lra).
  assert (Hw0 : 0 < w) by (unfold w; apply Rdiv_lt_0_compat; lra).
  assert (Hlow : (1 - 3 * u) * (t * t) <= p).
  { assert ((1 - u) * ((1 - u) * (1 - u) * (t * t)) <= p) by nra.
    assert ((1 - 3 * u) <= (1 - u) * ((1 - u) * (1 - u))) by nra.
    nra. }
  assert (Hhigh : p <= (1 + 4 * u) * (t * t)).
  { assert (p <= (1 + u) * ((1 + u) * (1 + u) * (t * t))) by nra.
    assert ((1 + u) * ((1 + u) * (1 + u)) <= 1 + 4 * u) by nra.
    nra. }
  assert (Hw1 : w <= 1 + 4 * u).
  { assert (w * ((1 - 3 * u) * (t * t)) <= t * t) by nra.
    assert (1 <= (1 + 4 * u) * (1 - 3 * u)) by nra.
    nra. }
  assert (Hw2 : 1 - 4 * u <= w).
  { assert (t * t <= w * ((1 + 4 * u) * (t * t))) by nra.
    assert ((1 - 4 * u) * (1 + 4 * u) <= 1) by nra.
    nra. }
  split; [lra|].
  apply Rabs_le_inv in Hq. apply Rabs_le. split; nra.
Qed.

Lemma bpow_53 : bpow (-53) * IZR (2 ^ 53) = 1.
Proof. rewrite <- bpow_IZR, <- bpow_add by lia. reflexivity. Qed.

Lemma bpow_53_small : 0 < bpow (-53) <= / 16.
Proof.
  split; [apply bpow_pos|].
  pose proof (bpow_le (-53) (-4) ltac:(lia)) as Hle.
  assert (H4 : bpow (-4) = / 16).
  { change (-4)%Z with (- (4))%Z. rewrite bpow_opp, (bpow_IZR 4) by lia. reflexivity. }
  lra.
Qed.

(** Below the normal range the numbers are the multiples of [g = 2^-1074].
    The square of the rounded square root of [m g], rounded to a multiple
    [m2 g], gives [m2 = m], or [m2] is next to [m] and [m] is at least
    [2^51]. *)
Lemma near_square_mantissa (m m2 : Z) (t r g : R) :
  (1 <= m < 2 ^ 52)%Z -> 0 < g -> 0 < t -> IZR m * g = t * t ->
  Rabs (r - t) <= bpow (-53) * t ->
  Rabs (IZR m2 - r * r / g) <= / 2 ->
  m2 = m \/ ((m2 = m - 1 \/ m2 = m + 1)%Z /\ (2 ^ 51 <= m)%Z).
Proof.
  intros Hm Hg Ht HS Hr Hm2.
  set (u := bpow (-53)) in *. set (U := IZR (2 ^ 53)).
  pose proof bpow_53 as HuU. fold u U in HuU.
  destruct bpow_53_small as [Hu0 Hu16]. fold u in Hu0, Hu16.
  assert (HU : 16 <= U) by (apply IZR_le; lia).
  set (M := IZR m) in *.
  assert (HM : 1 <= M <= U / 2 - 1).
  { unfold M, U. split; [apply IZR_le; lia|].
    assert (H : IZR m <= IZR (2 ^ 52 - 1)) by (apply IZR_le; lia).
    rewrite minus_IZR in H. change (2 ^ 53)%Z with (2 * 2 ^ 52)%Z.
    rewrite mult_IZR. lra. }
  apply Rabs_le_inv in Hr.
  assert (Hr0 : 0 < r) by nra.
  assert (Hrr : (1 - u) * (1 - u) * (t * t) <= r * r <= (1 + u) * (1 + u) * (t * t)).
  { split.
    - replace ((1 - u) * (1 - u) * (t * t)) with ((1 - u) * t * ((1 - u) * t)) by ring.
      apply Rmult_le_compat; nra.
    - replace ((1 + u) * (1 + u) * (t * t)) with ((1 + u) * t * ((1 + u) * t)) by ring.
      apply Rmult_le_compat; nra. }
  set (y := r * r / g) in *.
  assert (Hy : y * g = r * r) by (unfold y; field; lra).
  rewrite <- HS, <- Hy in Hrr.
  assert (Hy1 : (1 - u) * (1 - u) * M <= y <= (1 + u) * (1 + u) * M).
  { destruct Hrr as [Hlo Hhi]. split.
    - apply Rmult_le_reg_r with g; [exact Hg|]. lra.
    - apply Rmult_le_reg_r with g; [exact Hg|]. lra. }
  apply Rabs_le_inv in Hm2.
  assert (Hwidth : (2 * u + u * u) * M < 1).
  { assert (H1 : (2 * u + u * u) * M <= (2 * u + u * u) * (U / 2 - 1)).
    { apply Rmult_le_compat_l; nra. }
    assert (H2 : (2 * u + u * u) * (U / 2 - 1) = 1 + u / 2 - 2 * u - u * u).
    { replace ((2 * u + u * u) * (U / 2 - 1))
        with ((u * U) + u * (u * U) / 2 - 2 * u - u * u) by field.
      rewrite HuU. field. }
    nra. }
  assert (Hnear : (m - 1 <= m2 <= m + 1)%Z).
  { split.
    - assert (Hlt : IZR (m - 2) < IZR m2) by (rewrite minus_IZR; fold M; nra).
      apply lt_IZR in Hlt. lia.
    - assert (Hlt : IZR m2 < IZR (m + 2)) by (rewrite plus_IZR; fold M; nra).
      apply lt_IZR in Hlt. lia. }
  destruct (Z.eq_dec m2 m) as [Heq|Hne]; [left; exact Heq|right].
  assert (HUU : IZR (2 ^ 105) * 2 = U * U).
  { unfold U. rewrite <- !mult_IZR. reflexivity. }
  assert (H54 : IZR (2 ^ 54) = 2 * U).
  { unfold U. change (2 ^ 54)%Z with (2 * 2 ^ 53)%Z. rewrite mult_IZR. reflexivity. }
  assert (Hcases : (m2 = m - 1 \/ m2 = m + 1)%Z) by lia.
  split; [exact Hcases|].
  assert (Hhalf : / 2 <= (2 * u + u * u) * M).
  { destruct Hcases as [-> | ->].
    - rewrite minus_IZR in Hm2. fold M in Hm2. nra.
    - rewrite plus_IZR in Hm2. fold M in Hm2. nra. }
  assert (Hscaled : U * U / 2 <= (2 * U + 1) * M).
  { assert (H1 : U * U * / 2 <= U * U * ((2 * u + u * u) * M)).
    { apply Rmult_le_compat_l; nra. }
    replace (U * U * ((2 * u + u * u) * M))
      with ((2 * (u * U) * U + (u * U) * (u * U)) * M) in H1 by ring.
    rewrite HuU in H1. lra. }
  assert (Hint : IZR (2 ^ 105) <= IZR ((2 ^ 54 + 1) * m)).
  { rewrite mult_IZR, plus_IZR, H54. fold M. lra. }
  apply le_IZR in Hint. lia.
Qed.

Lemma positive_finite_spec x :
  positive_finite x = true ->
  exists m e,
    Prim2SF x = S754_finite false m e
    /\ (Zpos (digits2_pos m) <= 53)%Z /\ (-1074 <= e <= 971)%Z
    /\ (e = (-1074)%Z \/ Zpos (digits2_pos m) = 53%Z).
Proof.
  unfold positive_finite. rewrite !FloatAxioms.ltb_spec.
  change (Prim2SF PrimFloat.zero) with (S754_zero false).
  change (Prim2SF PrimFloat.infinity) with (S754_infinity false).
  pose proof (Prim2SF_valid x) as Hvalid.
  destruct (Prim2SF x) as [[]|[]| |[] m e]; try discriminate.
  intros _. exists m, e. split; [reflexivity|].
  cbn [SpecFloat.valid_binary] in Hvalid.
  pose proof (bounded_canonical m e Hvalid) as (Hmin & Hdig & Hnormal).
  unfold SpecFloat.bounded in Hvalid. apply andb_prop in Hvalid as [_ Hmax].
  apply Z.leb_le in Hmax. unfold SpecFloat.emin, prec, emax in *.
  split; [lia|]. split; [lia|]. lia.
Qed.

Lemma finite_classify x m e :
  Prim2SF x = S754_finite false m e -> Zpos (digits2_pos m) = 53%Z ->
  PrimFloat.classify x = PNormal.
Proof.
  intros Hx Hd. rewrite FloatAxioms.classify_spec, Hx.
  unfold SF64classify, SFclassify. rewrite Hd. reflexivity.
Qed.

(** What the quotient of a positive finite number [m * 2^e] by a positive
    finite number [p] close to it is, as a real number. *)
Lemma quotient_near_one m e mp ep :
  (Zpos (digits2_pos m) <= 53)%Z ->
  / 2 <= IZR (Zpos m) * bpow e / (IZR (Zpos mp) * bpow ep) <= 2 ->
  exists mq eq,
    SFdiv prec emax (S754_finite false m e) (S754_finite false mp ep)
    = S754_finite false mq eq
    /\ Zpos (digits2_pos mq) = 53%Z
    /\ Rabs (IZR (Zpos mq) * bpow eq - IZR (Zpos m) * bpow e / (IZR (Zpos mp) * bpow ep))
       <= bpow (-53) * (IZR (Zpos m) * bpow e / (IZR (Zpos mp) * bpow ep)).
Proof.
  intros Hd Hratio.
  destruct (finite_binade m e) as [HS [_ HSu]].
  destruct (finite_binade mp ep) as [Hp [Hpl _]].
  set (S := IZR (Zpos m) * bpow e) in *. set (p := IZR (Zpos mp) * bpow ep) in *.
  assert (Hexp : (-1021 <= Zpos (digits2_pos m) + e - (Zpos (digits2_pos mp) + ep))%Z).
  { assert (Hlt : bpow (Zpos (digits2_pos mp) + ep - 1) < bpow (Zpos (digits2_pos m) + e + 1)).
    { assert (Hp2 : p <= 2 * S).
      { destruct Hratio as [Hhalf _].
        apply Rmult_le_compat_r with (r := p) in Hhalf; [|lra].
        unfold Rdiv in Hhalf. rewrite Rmult_assoc, Rinv_l in Hhalf by lra. lra. }
      rewrite bpow_succ. lra. }
    apply bpow_lt_inv in Hlt. lia. }
  assert (Hhigh : S / p < bpow 1024 - bpow 970).
  { pose proof (bpow_le 1 1023 ltac:(lia)) as H1.
    pose proof (bpow_lt 970 1023 ltac:(lia)).
    rewrite (bpow_split 1024 1023 1) by lia. change (bpow 1) with (2 * 1) in *. lra. }
  destruct (SFdiv_finite m e mp ep Hd Hexp Hhigh) as (mq & eq & Hdiv & Hdq & _ & Hqerr).
  exists mq, eq. split; [exact Hdiv|]. split; [exact Hdq|exact Hqerr].
Qed.

(** The square of the largest rounded square root does not overflow. *)
Lemma square_below_overflow r t :
  0 <= r <= bpow 512 - bpow 459 -> 0 <= t <= bpow 512 - bpow 459 ->
  r * t < bpow 1024 - bpow 970.
Proof.
  intros Hr Ht.
  set (B := bpow 459) in *. assert (HB : 0 < B) by apply bpow_pos.
  set (K := IZR (2 ^ 53)). assert (HK : 4 <= K) by (apply IZR_le; lia).
  assert (H512 : bpow 512 = K * B).
  { unfold K, B. rewrite <- bpow_IZR, <- bpow_add by lia. reflexivity. }
  assert (H1024 : bpow 1024 = K * K * (B * B)).
  { unfold K, B. rewrite <- bpow_IZR, <- !bpow_add by lia. reflexivity. }
  assert (H970 : 2 * bpow 970 = K * (B * B)).
  { unfold K, B. rewrite <- bpow_IZR, <- !bpow_add, <- bpow_succ by lia. reflexivity. }
  assert (Hsqr : r * t <= (K - 1) * B * ((K - 1) * B)).
  { apply Rmult_le_compat; lra. }
  nra.
Qed.

(** A positive finite number divided by the product of its square root with
    itself, the three operations rounded: a positive normal number within
    [2^-50] of 1. *)
Lemma self_quotient (s : float) :
  positive_finite s = true ->
  PrimFloat.classify (s / (PrimFloat.sqrt s * PrimFloat.sqrt s)) = PNormal
  /\ Rabs (value (s / (PrimFloat.sqrt s * PrimFloat.sqrt s)) - 1) <= bpow (-50).
Proof.
  intros Hs. destruct (positive_finite_spec s Hs) as (m & e & Hsf & Hd & He & Hcanon).
  destruct (SFsqrt_finite m e Hd He)
    as (mr & er & Hsqrt & Hdr & Her & Herr & [Hrlo Hrhi] & Hrnormal).
  destruct (finite_binade m e) as [HS [HSl HSu]].
  set (S := IZR (Zpos m) * bpow e) in *.
  set (r := IZR (Zpos mr) * bpow er) in *.
  pose proof (sqrt_lt_R0 S HS) as Ht. pose proof (sqrt_sqrt S ltac:(lra)) as Hsq.
  pose proof bpow_53_small as Hu.
  assert (Hr0 : 0 <= r) by (pose proof (bpow_pos (-537)); lra).
  pose proof (square_below_overflow r r ltac:(lra) ltac:(lra)) as Hrr_hi.
  assert (Hgoal : forall mp ep mq eq,
            SFmul prec emax (S754_finite false mr er) (S754_finite false mr er)
            = S754_finite false mp ep ->
            SFdiv prec emax (S754_finite false m e) (S754_finite false mp ep)
            = S754_finite false mq eq ->
            Zpos (digits2_pos mq) = 53%Z ->
            Rabs (IZR (Zpos mq) * bpow eq - 1) <= 8 * bpow (-53) ->
            PrimFloat.classify (s / (PrimFloat.sqrt s * PrimFloat.sqrt s)) = PNormal
            /\ Rabs (value (s / (PrimFloat.sqrt s * PrimFloat.sqrt s)) - 1) <= bpow (-50)).
  { intros mp ep mq eq Hmul Hdiv Hdq Hone.
    assert (Hres : Prim2SF (s / (PrimFloat.sqrt s * PrimFloat.sqrt s))
                   = S754_finite false mq eq).
    { rewrite FloatAxioms.div_spec, FloatAxioms.mul_spec, FloatAxioms.sqrt_spec, Hsf.
      unfold SF64div, SF64mul, SF64sqrt. rewrite Hsqrt, Hmul. exact Hdiv. }
    split; [exact (finite_classify _ _ _ Hres Hdq)|].
    unfold value. rewrite Hres. cbn [SF2R]. rewrite Rmult_1_l.
    rewrite (bpow_split (-50) 3 (-53)) by lia. rewrite (bpow_IZR 3) by lia.
    exact Hone. }
  destruct (Rle_lt_dec (bpow (-1022)) (r * r)) as [Hnormal|Hsmall].
  - (* the square is in the normal range *)
    destruct (SFmul_normal mr er mr er Hdr Hdr Hnormal Hrr_hi)
      as (mp & ep & Hmul & Hdp & Hep & Hperr).
    fold r in Hperr. set (p := IZR (Zpos mp) * bpow ep) in *.
    assert (Hqgen : forall q, Rabs (q - S / p) <= bpow (-53) * (S / p) ->
                              0 < p /\ / 2 <= S / p <= 2 /\ Rabs (q - 1) <= 8 * bpow (-53)).
    { intros q Hq. rewrite <- Hsq.
      apply (three_roundings (bpow (-53)) (sqrt S) r p q Hu Ht Herr Hperr).
      rewrite Hsq. exact Hq. }
    destruct (Hqgen (S / p)) as (Hp0 & Hratio & _).
    { rewrite Rminus_diag, Rabs_R0.
      assert (0 < p).
      { unfold p. pose proof (bpow_pos ep). apply Rmult_lt_0_compat; [apply IZR_lt; lia|lra]. }
      apply Rmult_le_pos; [lra|]. apply Rlt_le, Rdiv_lt_0_compat; lra. }
    destruct (quotient_near_one m e mp ep Hd Hratio) as (mq & eq & Hdiv & Hdq & Hqerr).
    fold S p in Hqerr.
    apply (Hgoal mp ep mq eq Hmul Hdiv Hdq). apply (Hqgen _ Hqerr).
  - (* the square is below the normal range: so is the number *)
    destruct (SFmul_subnormal mr er mr er Hdr Hdr Hsmall) as (m2 & Hm2 & Hm2err & Hmul).
    fold r in Hm2err.
    assert (HSsmall : S < bpow (-1022)).
    { destruct (Rle_lt_dec (bpow (-1022)) S) as [Hge|Hlt]; [|exact Hlt]. exfalso.
      specialize (Hrnormal Hge). pose proof (bpow_pos (-511)).
      assert (bpow (-511) * bpow (-511) <= r * r) by (apply Rmult_le_compat; lra).
      rewrite <- bpow_add in *. change (-511 + -511)%Z with (-1022)%Z in *. lra. }
    assert (Hsub : e = (-1074)%Z /\ (Zpos m < 2 ^ 52)%Z).
    { assert (Hlt : bpow (Zpos (digits2_pos m) + e - 1) < bpow (-1022)) by lra.
      apply bpow_lt_inv in Hlt.
      assert (He74 : e = (-1074)%Z) by lia. split; [exact He74|].
      pose proof (digits2_pos_upper m) as Hmu.
      assert (Hpow : (2 ^ Zpos (digits2_pos m) <= 2 ^ 52)%Z)
        by (apply Z.pow_le_mono_r; lia).
      lia. }
    destruct Hsub as [-> Hm52].
    set (g := bpow (-1074)) in *. assert (Hg : 0 < g) by apply bpow_pos.
    destruct (near_square_mantissa (Zpos m) m2 (sqrt S) r g ltac:(lia) Hg Ht
                ltac:(rewrite Hsq; reflexivity) Herr Hm2err) as [Heq|[Hnext Hbig]].
    + (* the square is rounded to the number itself *)
      subst m2.
      assert (Hratio : / 2 <= S / S <= 2).
      { unfold Rdiv. rewrite Rinv_r by lra. lra. }
      destruct (quotient_near_one m (-1074) m (-1074) Hd Hratio)
        as (mq & eq & Hdiv & Hdq & Hqerr).
      fold g S in Hqerr.
      apply (Hgoal m (-1074)%Z mq eq Hmul Hdiv Hdq).
      unfold Rdiv in Hqerr. rewrite Rinv_r in Hqerr by lra.
      apply Rabs_le_inv in Hqerr. apply Rabs_le. lra.
    + (* the square is rounded to a neighbour, and the number is large *)
      assert (Hm2pos : (2 ^ 51 - 1 <= m2)%Z) by lia.
      destruct m2 as [|p2|p2]; [lia| |lia].
      set (p := IZR (Zpos p2) * g).
      assert (Hp0 : 0 < p) by (unfold p; apply Rmult_lt_0_compat; [apply IZR_lt; lia|lra]).
      assert (Hw : Rabs (S / p - 1) <= 6 * bpow (-53)).
      { assert (Hp2 : 0 < IZR (Zpos p2)) by (apply IZR_lt; lia).
        assert (HSp : S / p = IZR (Zpos m) / IZR (Zpos p2)).
        { unfold S, p. fold g. field. split; lra. }
        rewrite HSp.
        assert (Hdiff : Rabs (IZR (Zpos m) - IZR (Zpos p2)) <= 1).
        { rewrite <- minus_IZR. apply Rabs_le. rewrite <- opp_IZR.
          split; apply IZR_le; lia. }
        assert (Hsix : 1 <= 6 * bpow (-53) * IZR (Zpos p2)).
        { assert (H6 : IZR (2 ^ 53) <= 6 * IZR (Zpos p2)).
          { rewrite <- mult_IZR. apply IZR_le. lia. }
          pose proof bpow_53 as HuU. destruct Hu as [Hu0 _].
          assert (bpow (-53) * IZR (2 ^ 53) <= bpow (-53) * (6 * IZR (Zpos p2)))
            by (apply Rmult_le_compat_l; lra).
          lra. }
        replace (IZR (Zpos m) / IZR (Zpos p2) - 1)
          with ((IZR (Zpos m) - IZR (Zpos p2)) / IZR (Zpos p2)) by (field; lra).
        unfold Rdiv. rewrite Rabs_mult, (Rabs_pos_eq (/ IZR (Zpos p2)))
          by (apply Rlt_le, Rinv_0_lt_compat; exact Hp2).
        apply Rmult_le_reg_r with (IZR (Zpos p2)); [exact Hp2|].
        rewrite Rmult_assoc, Rinv_l, Rmult_1_r by lra. lra. }
      apply Rabs_le_inv in Hw. destruct Hu as [Hu0 Hu16].
      assert (Hratio : / 2 <= S / p <= 2) by lra.
      destruct (quotient_near_one m (-1074) p2 (-1074) Hd Hratio)
        as (mq & eq & Hdiv & Hdq & Hqerr).
      fold g S p in Hqerr.
      apply (Hgoal p2 (-1074)%Z mq eq Hmul Hdiv Hdq).
      apply Rabs_le_inv in Hqerr. apply Rabs_le. split; nra.
Qed.

Lemma is_nan_spec x : Prim2SF x = S754_nan -> PrimFloat.is_nan x = true.
Proof.
  intros Hx. unfold PrimFloat.is_nan. rewrite FloatAxioms.eqb_spec, Hx. reflexivity.
Qed.

(** The same quotient for every other number (a zero, a negative number,
    an infinity, [NaN]) is [NaN]. *)
Lemma self_quotient_nan (s : float) :
  positive_finite s = false ->
  PrimFloat.is_nan (s / (PrimFloat.sqrt s * PrimFloat.sqrt s)) = true.
Proof.
  unfold positive_finite. rewrite !FloatAxioms.ltb_spec.
  change (Prim2SF PrimFloat.zero) with (S754_zero false).
  change (Prim2SF PrimFloat.infinity) with (S754_infinity false).
  intros Hs. apply is_nan_spec.
  rewrite FloatAxioms.div_spec, FloatAxioms.mul_spec, FloatAxioms.sqrt_spec.
  unfold SF64div, SF64mul, SF64sqrt.
  destruct (Prim2SF s) as [[]|[]| |[] m e]; try reflexivity; discriminate.
Qed.

End SelfQuotient.

Section Orthogonal.
Import Float64 Num SimpleVectorStore.
Local Open Scope R_scope.

Lemma is_zero_spec x :
  PrimFloat.is_zero x = true <-> exists s, Prim2SF x = S754_zero s.
Proof.
  unfold PrimFloat.is_zero. rewrite FloatAxioms.eqb_spec.
  change (Prim2SF PrimFloat.zero) with (S754_zero false).
  destruct (Prim2SF x) as [s|s| |s m e]; cbn; split;
    try discriminate; try (destruct s; discriminate); eauto;
    intros [s' Hs]; discriminate.
Qed.

Lemma zero_product x y :
  one_is_zero x y = true -> PrimFloat.is_zero (x * y) = true.
Proof.
  unfold one_is_zero. intros Hxy.
  apply andb_prop in Hxy as [Hfin Hzero]. apply andb_prop in Hfin as [Hx Hy].
  apply is_zero_spec. rewrite FloatAxioms.mul_spec. unfold SF64mul.
  apply orb_prop in Hzero as [Hz|Hz]; apply is_zero_spec in Hz as [s Hs]; rewrite Hs.
  - destruct (finite_spec y Hy) as [[sy ->]|(sy & my & ey & ->)]; cbn; eauto.
  - destruct (finite_spec x Hx) as [[sx ->]|(sx & mx & ex & ->)]; cbn; eauto.
Qed.

Lemma zero_sum d v :
  PrimFloat.is_zero d = true -> PrimFloat.is_zero v = true ->
  PrimFloat.is_zero (d + v) = true.
Proof.
  intros Hd Hv. apply is_zero_spec in Hd as [sd Hd]. apply is_zero_spec in Hv as [sv Hv].
  apply is_zero_spec. rewrite FloatAxioms.add_spec, Hd, Hv. unfold SF64add.
  destruct sd, sv; cbn; eauto.
Qed.

(** Where at every index one of the two components is a zero and the other
    a finite number, the loop computes a zero for the dot product. *)
Lemma dot_product_disjoint (a b : list float) :
  disjoint_supports a b = true ->
  PrimFloat.is_zero (dot_product a b) = true.
Proof.
  unfold disjoint_supports, dot_product. cbn [add mul zero binary64].
  assert (Hacc : PrimFloat.is_zero PrimFloat.zero = true) by reflexivity.
  revert Hacc. generalize PrimFloat.zero as acc. generalize (combine a b) as pairs.
  induction pairs as [|[x y] pairs IH]; intros acc Hacc Hall; cbn in *.
  - exact Hacc.
  - apply andb_prop in Hall as [Hxy Hrest].
    apply IH; [|exact Hrest]. apply zero_sum; [exact Hacc|]. apply zero_product. exact Hxy.
Qed.

(** The product of the square roots of two positive finite numbers is a
    positive number: finite, and not a zero. *)
Lemma magnitudes_product (sa sb : float) :
  positive_finite sa = true -> positive_finite sb = true ->
  exists m e, Prim2SF (PrimFloat.sqrt sa * PrimFloat.sqrt sb) = S754_finite false m e.
Proof.
  intros Ha Hb.
  destruct (positive_finite_spec sa Ha) as (ma & ea & Hsa & Hda & Hea & _).
  destruct (positive_finite_spec sb Hb) as (mb & eb & Hsb & Hdb & Heb & _).
  destruct (SFsqrt_finite ma ea Hda Hea) as (mr & er & Hra & Hdr & _ & _ & [Hrlo Hrhi] & _).
  destruct (SFsqrt_finite mb eb Hdb Heb) as (mt & et & Htb & Hdt & _ & _ & [Htlo Hthi] & _).
  set (r := IZR (Zpos mr) * bpow er) in *. set (t := IZR (Zpos mt) * bpow et) in *.
  pose proof (bpow_pos (-537)) as H537.
  pose proof (square_below_overflow r t ltac:(lra) ltac:(lra)) as Hhi.
  rewrite FloatAxioms.mul_spec, !FloatAxioms.sqrt_spec, Hsa, Hsb.
  unfold SF64mul, SF64sqrt. rewrite Hra, Htb.
  destruct (Rle_lt_dec (bpow (-1022)) (r * t)) as [Hnormal|Hsmall].
  - destruct (SFmul_normal mr er mt et Hdr Hdt Hnormal Hhi) as (mp & ep & Hmul & _).
    exists mp, ep. exact Hmul.
  - destruct (SFmul_subnormal mr er mt et Hdr Hdt Hsmall) as (m2 & Hm2 & Herr & Hmul).
    fold r t in Herr.
    assert (Hone : 1 <= r * t / bpow (-1074)).
    { pose proof (bpow_pos (-1074)) as Hg.
      apply Rmult_le_reg_r with (bpow (-1074)); [exact Hg|].
      unfold Rdiv. rewrite Rmult_assoc, Rinv_l, Rmult_1_r, Rmult_1_l by lra.
      rewrite (bpow_split (-1074) (-537) (-537)) by lia.
      apply Rmult_le_compat; lra. }
    apply Rabs_le_inv in Herr.
    assert (Hlt : IZR 0 < IZR m2) by lra. apply lt_IZR in Hlt.
    destruct m2 as [|p2|p2]; [lia| |lia].
    exists p2, (-1074)%Z. exact Hmul.
Qed.

Lemma finite_not_zero x m e :
  Prim2SF x = S754_finite false m e ->
  PrimFloat.is_nan x = false /\ PrimFloat.is_zero x = false.
Proof.
  intros Hsf.
  unfold PrimFloat.is_nan, PrimFloat.is_zero. rewrite !FloatAxioms.eqb_spec, Hsf.
  split; [|reflexivity].
  unfold SFeqb, SFcompare. rewrite Z.compare_refl, Pos.compare_cont_refl. reflexivity.
Qed.

(** Two vectors of one length whose computed dot product is a zero and
    whose computed sums of squares are positive finite numbers: the
    similarity is a zero. *)
Lemma cosine_zero_dot (a b : list float) :
  length a = length b ->
  PrimFloat.is_zero (dot_product a b) = true ->
  positive_finite (dot_product a a) = true ->
  positive_finite (dot_product b b) = true ->
  PrimFloat.is_zero (cosineSimilarity a b) = true.
Proof.
  intros Hlen Hdot Ha Hb. rewrite cosine_same_length by exact Hlen.
  destruct (magnitudes_product _ _ Ha Hb) as (m & e & Hsf).
  destruct (finite_not_zero _ _ _ Hsf) as [Hnan Hzero].
  apply binary64_zero_div; assumption.
Qed.

Lemma cosine_self_finite (a : list float) :
  positive_finite (dot_product a a) = true ->
  PrimFloat.classify (cosineSimilarity a a) = PNormal
  /\ Rabs (value (cosineSimilarity a a) - 1) <= bpow (-50).
Proof.
  intros Ha. rewrite cosine_same_length by reflexivity.
  apply (self_quotient _ Ha).
Qed.

Lemma cosine_self_nan (a : list float) :
  positive_finite (dot_product a a) = false ->
  PrimFloat.is_nan (cosineSimilarity a a) = true.
Proof.
  intros Ha. rewrite cosine_same_length by reflexivity.
  apply (self_quotient_nan _ Ha).
Qed.

End Orthogonal.

Section ExactValues.
Import Float64.

(** The real number of a binary64 number that is an integer. *)
Lemma SF2R_integer s m e n k :
  0 <= k -> e = - k -> Zpos m = n * 2 ^ k ->
  SF2R (S754_finite s m e) = ((if s then -1 else 1) * IZR n)%R.
Proof.
  intros Hk -> Hm. cbn [SF2R]. rewrite Hm, mult_IZR, bpow_opp, <- bpow_IZR by exact Hk.
  pose proof (bpow_pos k). field. lra.
Qed.

Lemma SF2R_shifted s m e n :
  0 <= e -> n = Zpos m * 2 ^ e ->
  SF2R (S754_finite s m e) = ((if s then -1 else 1) * IZR n)%R.
Proof.
  intros He ->. cbn [SF2R]. rewrite mult_IZR, <- bpow_IZR by exact He. ring.
Qed.

Lemma bound_2_50 : bpow (-50) = (/ 2 ^ 50)%R.
Proof.
  change (-50) with (- (50)). rewrite bpow_opp. unfold bpow.
  change 50 with (Z.of_nat 50). rewrite <- pow_powerRZ. reflexivity.
Qed.

End ExactValues.

Ltac float_value x n k :=
  let v := eval vm_compute in (Prim2SF x) in
  change (Float64.value x) with (Float64.SF2R v);
  rewrite (SF2R_integer _ _ _ n k) by (lia || reflexivity).

(** C7, as amended. In every arithmetic: for every pair of equal-length
    vectors the similarity is the dot product divided by the product of the
    two magnitudes; for every pair of vectors of different lengths it is 0;
    and every search result has [distance = 1 - similarity]. On binary64,
    the numbers the program computes with: for every vector whose sum of
    squares, as the loop computes it, is a positive finite number (greater
    than zero, less than infinity), the similarity with itself is a positive
    normal number within [2^-50] of 1, and for every other vector it is
    [NaN]; for every two vectors of one length whose computed sums of
    squares are positive finite numbers, the similarity is a zero ([+0] or
    [-0]) where the dot product the loop computes is a zero, and it is a zero
    where at every index one of the two components is a zero and the other a
    finite number. *)
Theorem cosine_similarity_metric :
  (forall (T : Type) (N : Num.Number T) (a b : list T),
     length a = length b ->
     SimpleVectorStore.cosineSimilarity a b
     = Num.div (SimpleVectorStore.dot_product a b)
               (Num.mul (SimpleVectorStore.magnitude a) (SimpleVectorStore.magnitude b)))
  /\ (forall (T : Type) (N : Num.Number T) (a b : list T),
        length a <> length b ->
        SimpleVectorStore.cosineSimilarity a b = Num.zero)
  /\ (forall (T : Type) (N : Num.Number T) embed (st : SimpleVectorStore.t T) query k r,
        In r (SimpleVectorStore.similarity_search embed st query k) ->
        SimpleVectorStore.distance r = Num.sub Num.one (SimpleVectorStore.similarity r))
  /\ (forall a : list float,
        Float64.positive_finite (SimpleVectorStore.dot_product a a) = true ->
        PrimFloat.classify (SimpleVectorStore.cosineSimilarity a a) = PNormal
        /\ (Rabs (Float64.value (SimpleVectorStore.cosineSimilarity a a) - 1)
            <= / 2 ^ 50)%R)
  /\ (forall a : list float,
        Float64.positive_finite (SimpleVectorStore.dot_product a a) = false ->
        PrimFloat.is_nan (SimpleVectorStore.cosineSimilarity a a) = true)
  /\ (forall a b : list float,
        length a = length b ->
        Float64.positive_finite (SimpleVectorStore.dot_product a a) = true ->
        Float64.positive_finite (SimpleVectorStore.dot_product b b) = true ->
        PrimFloat.is_zero (SimpleVectorStore.dot_product a b) = true ->
        PrimFloat.is_zero (SimpleVectorStore.cosineSimilarity a b) = true)
  /\ (forall a b : list float,
        length a = length b ->
        Float64.positive_finite (SimpleVectorStore.dot_product a a) = true ->
        Float64.positive_finite (SimpleVectorStore.dot_product b b) = true ->
        Float64.disjoint_supports a b = true ->
        PrimFloat.is_zero (SimpleVectorStore.dot_product a b) = true
        /\ PrimFloat.is_zero (SimpleVectorStore.cosineSimilarity a b) = true).
Proof.
  split; [intros; apply cosine_same_length; assumption|].
  split; [intros; apply cosine_mismatch; assumption|].
  split; [intros; eapply search_distance; eassumption|].
  split; [|split; [|split]].
  - intros a Ha. rewrite <- bound_2_50. apply cosine_self_finite. exact Ha.
  - intros a Ha. apply cosine_self_nan. exact Ha.
  - intros a b Hlen Ha Hb Hdot. apply cosine_zero_dot; assumption.
  - intros a b Hlen Ha Hb Hdisjoint.
    pose proof (dot_product_disjoint a b Hdisjoint) as Hdot.
    split; [exact Hdot|]. apply cosine_zero_dot; assumption.
Qed.

Lemma cosine_similarity_metric_witness :
  SimpleVectorStore.cosineSimilarity [1; 2]%float [1]%float = 0%float
  /\ (Rabs (Float64.value (SimpleVectorStore.cosineSimilarity [1; 1]%float [1; 1]%float) - 1)
      <= / 2 ^ 50)%R
  /\ (Rabs (Float64.value
              (SimpleVectorStore.cosineSimilarity [0x1.8p-530]%float [0x1.8p-530]%float) - 1)
      <= / 2 ^ 50)%R
  /\ PrimFloat.is_nan
       (SimpleVectorStore.cosineSimilarity [0x1p-600]%float [0x1p-600]%float) = true
  /\ PrimFloat.is_zero (SimpleVectorStore.cosineSimilarity [1; 1]%float [1; -1]%float) = true
  /\ PrimFloat.is_zero (SimpleVectorStore.cosineSimilarity [1; 0]%float [0; 2]%float) = true.
Proof.
  destruct cosine_similarity_metric as (_ & Hmis & _ & Hself & Hnan & Hzero & Hdisjoint).
  split; [exact (Hmis float Num.binary64 [1; 2]%float [1]%float ltac:(discriminate))|].
  split; [apply (Hself [1; 1]%float); vm_compute; reflexivity|].
  split; [apply (Hself [0x1.8p-530]%float); vm_compute; reflexivity|].
  split; [apply (Hnan [0x1p-600]%float); vm_compute; reflexivity|].
  split; [apply (Hzero [1; 1]%float [1; -1]%float); vm_compute; reflexivity|].
  apply (Hdisjoint [1; 0]%float [0; 2]%float); vm_compute; reflexivity.
Defined.

(** C7 as stated fails on binary64. Where a magnitude is zero: the zero
    vector is orthogonal to [[1]] and has its length, and the similarity is
    [0 / (1 * 0)], which is [NaN] and not 0; and the square of [2^-600]
    underflows to 0, so the similarity of the non-zero vector [[2^-600]] with
    itself is [0 / 0], not 1; the square of [2^600] overflows, and the
    similarity of [[2^600]] with itself is [NaN] too. Where the sums of
    squares are positive finite numbers: [[134217729, 1, 1]] and
    [[134217729, -18014398777917440, -1]] are orthogonal over the real
    numbers, but the first product is rounded, the loop computes the dot
    product -1, and the similarity is not a zero. And the tolerance cannot be
    dropped: the similarity of [[1, 1]] with itself is not 1. *)
Lemma cosine_zero_magnitude_counterexample :
  (length [1%float] = length [0%float]
   /\ PrimFloat.is_zero 1 = false
   /\ SimpleVectorStore.dot_product [1%float] [0%float] = 0%float
   /\ PrimFloat.is_nan (SimpleVectorStore.cosineSimilarity [1%float] [0%float]) = true
   /\ SimpleVectorStore.cosineSimilarity [1%float] [0%float] <> 0%float)
  /\ (PrimFloat.is_zero 0x1p-600 = false
      /\ PrimFloat.is_nan
           (SimpleVectorStore.cosineSimilarity [0x1p-600%float] [0x1p-600%float]) = true
      /\ SimpleVectorStore.cosineSimilarity [0x1p-600%float] [0x1p-600%float] <> 1%float
      /\ PrimFloat.is_finite 0x1p600 = true
      /\ PrimFloat.is_nan
           (SimpleVectorStore.cosineSimilarity [0x1p600%float] [0x1p600%float]) = true)
  /\ (let a := [134217729; 1; 1]%float in
      let b := [134217729; -18014398777917440; -1]%float in
      length a = length b
      /\ Float64.exact_dot a b = 0%R
      /\ Float64.positive_finite (SimpleVectorStore.dot_product a a) = true
      /\ Float64.positive_finite (SimpleVectorStore.dot_product b b) = true
      /\ SimpleVectorStore.dot_product a b = (-1)%float
      /\ PrimFloat.is_zero (SimpleVectorStore.cosineSimilarity a b) = false
      /\ SimpleVectorStore.cosineSimilarity a b <> 0%float)
  /\ SimpleVectorStore.cosineSimilarity [1; 1]%float [1; 1]%float <> 1%float.
Proof.
  split; [|split; [|split]].
  - repeat split; try (vm_compute; reflexivity).
    intros Heq. apply (f_equal PrimFloat.is_nan) in Heq. vm_compute in Heq. discriminate.
  - repeat split; try (vm_compute; reflexivity).
    intros Heq. apply (f_equal PrimFloat.is_nan) in Heq. vm_compute in Heq. discriminate.
  - cbv zeta. split; [reflexivity|]. split.
    { unfold Float64.exact_dot. cbn [combine fold_right].
      float_value 134217729%float 134217729 25.
      float_value 1%float 1 52.
      float_value (-1)%float 1 52.
      change (Float64.value (-18014398777917440)%float)
        with (Float64.SF2R (S754_finite true 4503599694479360 2)).
      rewrite (SF2R_shifted _ _ _ 18014398777917440) by (lia || reflexivity).
      lra. }
    repeat split; try (vm_compute; reflexivity).
    intros Heq. apply (f_equal PrimFloat.is_zero) in Heq. vm_compute in Heq. discriminate.
  - intros Heq. apply (f_equal Prim2SF) in Heq. vm_compute in Heq. discriminate.
Qed.

(** ** The in-process vector store: persistence and ids *)

Section PersistenceFacts.
Import Num SimpleVectorStore.
Context {T : Type} `{Number T}.
Implicit Types (st fresh : t T).

(** The search reads the documents, the embeddings and the metadata of the
    store, and nothing else of it. *)
Lemma search_depends st st' embed query k :
  documents st = documents st' ->
  embeddings st = embeddings st' ->
  metadatas st = metadatas st' ->
  similarity_search embed st query k = similarity_search embed st' query k.
Proof.
  destruct st, st'. cbn. intros -> -> ->. reflexivity.
Qed.

Lemma json_stable_embeddings st :
  json_stable st -> map (map json_number) (embeddings st) = embeddings st.
Proof.
  unfold json_stable. induction 1 as [|e es He _ IH]; cbn; [reflexivity|].
  rewrite IH. f_equal.
  induction He as [|x xs Hx _ IHx]; cbn; [reflexivity|]. rewrite Hx, IHx. reflexivity.
Qed.

(** In every arithmetic: where every embedding component is read back as it
    was written, the loaded index has the fields of the saved one and answers
    every search as before. *)
Lemma round_trip_stable st fresh embed query k :
  json_stable st ->
  let loaded := loadFromStorage fresh (saveToStorage st) in
  documents loaded = documents st
  /\ embeddings loaded = embeddings st
  /\ metadatas loaded = metadatas st
  /\ ids loaded = ids st
  /\ similarity_search embed loaded query k = similarity_search embed st query k.
Proof.
  intros Hstable. cbn zeta.
  assert (Hemb : embeddings (loadFromStorage fresh (saveToStorage st)) = embeddings st).
  { cbn. apply json_stable_embeddings. exact Hstable. }
  repeat split; try reflexivity; try exact Hemb.
  apply search_depends; [reflexivity|exact Hemb|reflexivity].
Qed.

(** The search reads the embeddings only through their number and their
    similarities with the query embedding. *)
Lemma search_depends_scores st st' embed query k :
  documents st = documents st' ->
  metadatas st = metadatas st' ->
  length (embeddings st) = length (embeddings st') ->
  similarities st (embed query) = similarities st' (embed query) ->
  similarity_search embed st query k = similarity_search embed st' query k.
Proof.
  unfold similarity_search, scored. destruct st, st'. cbn.
  intros -> -> -> ->. reflexivity.
Qed.

End PersistenceFacts.

Section Binary64Persistence.
Import Num SimpleVectorStore.

(** The loop of [cosineSimilarity] computes the same three sums on a stored
    embedding of finite components and on what is read back of it. *)
Lemma cosine_json_loop (b : list float) : forall (a : list float) (d na nb : float),
  forallb PrimFloat.is_finite b = true ->
  Prim2SF d <> S754_zero true ->
  fold_left
    (fun '(dotProduct, normA, normB) '(x, y) =>
       (add dotProduct (mul x y), add normA (mul x x), add normB (mul y y)))
    (combine a (map json_number b)) (d, na, nb)
  = fold_left
      (fun '(dotProduct, normA, normB) '(x, y) =>
         (add dotProduct (mul x y), add normA (mul x x), add normB (mul y y)))
      (combine a b) (d, na, nb).
Proof.
  induction b as [|y b IH]; intros [|x a] d na nb Hfin Hd; try reflexivity.
  cbn [forallb] in Hfin. apply andb_prop in Hfin as [Hy Hb].
  cbn [map combine fold_left]. cbn [add mul json_number binary64].
  rewrite (json_product_sum d x y Hd Hy), (json_square y Hy).
  apply IH; [exact Hb|]. apply sum_not_negative_zero. exact Hd.
Qed.

Lemma cosine_json (a b : list float) :
  forallb PrimFloat.is_finite b = true ->
  cosineSimilarity a (map json_number b) = cosineSimilarity a b.
Proof.
  intros Hfin. unfold cosineSimilarity. rewrite length_map.
  destruct (length a =? length b)%nat; [|reflexivity].
  rewrite cosine_json_loop; [reflexivity|exact Hfin|].
  cbn. discriminate.
Qed.

End Binary64Persistence.

(** C8, as amended. On binary64, for every in-process index state whose
    embedding components are all finite numbers, saving the state and loading
    the snapshot into any other instance gives an index with the same
    documents, metadata and ids and as many embeddings, and
    [similarity_search] returns on it what it returned before, for every
    query and [k]. *)
Theorem persistence_round_trip
    (st fresh : SimpleVectorStore.t float) (embed : string -> list float)
    (query : string) (k : Z) :
  Num.all_finite (SimpleVectorStore.embeddings st) = true ->
  let loaded := SimpleVectorStore.loadFromStorage fresh (SimpleVectorStore.saveToStorage st) in
  SimpleVectorStore.documents loaded = SimpleVectorStore.documents st
  /\ SimpleVectorStore.metadatas loaded = SimpleVectorStore.metadatas st
  /\ SimpleVectorStore.ids loaded = SimpleVectorStore.ids st
  /\ length (SimpleVectorStore.embeddings loaded)
     = length (SimpleVectorStore.embeddings st)
  /\ SimpleVectorStore.similarity_search embed loaded query k
     = SimpleVectorStore.similarity_search embed st query k.
Proof.
  intros Hfin. cbn zeta.
  assert (Hlen : length (SimpleVectorStore.embeddings
                           (SimpleVectorStore.loadFromStorage fresh
                              (SimpleVectorStore.saveToStorage st)))
                 = length (SimpleVectorStore.embeddings st)).
  { cbn. apply length_map. }
  repeat split; try reflexivity; try exact Hlen.
  apply search_depends_scores; try reflexivity; try exact Hlen.
  unfold SimpleVectorStore.similarities. cbn.
  rewrite map_map. apply map_ext_in. intros b Hb.
  apply cosine_json.
  unfold Num.all_finite in Hfin. rewrite forallb_forall in Hfin. apply Hfin. exact Hb.
Qed.

Lemma persistence_round_trip_witness :
  SimpleVectorStore.similarity_search (SimpleVectorStore.embed_const [1; 0]%float)
    (SimpleVectorStore.loadFromStorage (SimpleVectorStore.constructor None)
       (SimpleVectorStore.saveToStorage SimpleVectorStore.store_with_negative_zero))
    "query" 2
  = SimpleVectorStore.similarity_search (SimpleVectorStore.embed_const [1; 0]%float)
      SimpleVectorStore.store_with_negative_zero "query" 2.
Proof.
  apply (persistence_round_trip SimpleVectorStore.store_with_negative_zero
           (SimpleVectorStore.constructor None)
           (SimpleVectorStore.embed_const [1; 0]%float) "query" 2).
  vm_compute. reflexivity.
Defined.

(** C8 as stated fails for an embedding with a component that JSON cannot
    write. [JSON.stringify] writes the infinite component as [null]; read
    back, it multiplies as 0. Before the round trip the similarity with the
    query embedding [[0; 1]] is [NaN] (from [0 * Infinity]); after it, it
    is 1. *)
Lemma persistence_infinity_counterexample :
  map SimpleVectorStore.similarity
    (SimpleVectorStore.similarity_search (SimpleVectorStore.embed_const [0; 1]%float)
       SimpleVectorStore.store_with_infinity "query" 1)
  = [nan]%float
  /\ map SimpleVectorStore.similarity
       (SimpleVectorStore.similarity_search (SimpleVectorStore.embed_const [0; 1]%float)
          (SimpleVectorStore.loadFromStorage (SimpleVectorStore.constructor None)
             (SimpleVectorStore.saveToStorage SimpleVectorStore.store_with_infinity))
          "query" 1)
     = [1]%float
  /\ SimpleVectorStore.similarity_search (SimpleVectorStore.embed_const [0; 1]%float)
       (SimpleVectorStore.loadFromStorage (SimpleVectorStore.constructor None)
          (SimpleVectorStore.saveToStorage SimpleVectorStore.store_with_infinity))
       "query" 1
     <> SimpleVectorStore.similarity_search (SimpleVectorStore.embed_const [0; 1]%float)
          SimpleVectorStore.store_with_infinity "query" 1.
Proof.
  split; [vm_compute; reflexivity|]. split; [vm_compute; reflexivity|].
  intros Heq.
  apply (f_equal (map (fun r => PrimFloat.is_nan (SimpleVectorStore.similarity r)))) in Heq.
  vm_compute in Heq. discriminate.
Qed.

(** C4 (the code does not do what the claim says). Two [addDocuments] calls
    of one chunk each, both made while [Date.now()] reads 1700000000000,
    give both records the id [doc_1700000000000_0]. *)
Theorem addDocuments_same_millisecond_ids :
  let embed := SimpleVectorStore.embed_const [1]%float in
  let clock := fun _ : nat => 1700000000000 in
  let st1 := fst (SimpleVectorStore.addDocuments embed clock
                    (SimpleVectorStore.constructor None) [SimpleVectorStore.chunk0]) in
  let st2 := fst (SimpleVectorStore.addDocuments embed clock st1
                    [SimpleVectorStore.chunk0]) in
  SimpleVectorStore.ids st2 = ["doc_1700000000000_0"; "doc_1700000000000_0"]
  /\ ~ List.NoDup (SimpleVectorStore.ids st2).
Proof.
  cbn zeta. split; [vm_compute; reflexivity|].
  intros Hnodup.
  change (List.NoDup ["doc_1700000000000_0"; "doc_1700000000000_0"]) in Hnodup.
  apply List.NoDup_cons_iff in Hnodup as [Hnotin _]. apply Hnotin. left. reflexivity.
Qed.

(** ** The chat service *)

Section ChatFacts.
Import Num ChatService.
Context {T : Type} `{Number T}.
Variable similarity_search :
  string -> Z -> option (list (SimpleVectorStore.SearchResult T)).
Variable chat : string -> option string.

(** Whatever the session holds, the one prompt sent is built with an empty
    conversation context. *)
Lemma answerQuestion_prompt svc question sessionId e1 e2 e3 result :
  answerQuestion similarity_search chat svc question sessionId e1 e2 e3 = Some result ->
  exists relevantDocs rendered,
    similarity_search question 5 = Some relevantDocs
    /\ all_some (map render_document relevantDocs) = Some rendered
    /\ sent result = [buildPrompt question (String.concat separator rendered) ""].
Proof.
  unfold answerQuestion.
  destruct (similarity_search question 5) as [relevantDocs|]; [|discriminate].
  destruct (all_some (map render_document _)) as [rendered|] eqn:Hrendered; [|discriminate].
  destruct (all_some (map source_ref _)) as [cited|]; [|discriminate].
  unfold generateResponse. destruct (chat _) as [response|]; [|discriminate].
  intros [= <-]. exists relevantDocs, rendered.
  split; [reflexivity|]. split; [assumption || reflexivity|reflexivity].
Qed.

End ChatFacts.

(** C2 (the code does not do what the claim says). The session [s1] holds
    one message, so its rolling summary is not empty; [answerQuestion] for
    that session sends exactly one prompt, the one [buildPrompt] makes from
    the question and the document context with an empty conversation
    context: it holds neither the summary nor the heading of the
    conversation block. [generateResponse] has no parameter for the summary
    that [answerQuestion] passes as third argument. The prompt [buildPrompt]
    makes when it is given the summary does hold it. *)
Theorem answerQuestion_drops_summary :
  ConversationContext.getConversationSummary ChatService.session_s1 "s1"
  = ChatService.summary_s1
  /\ ChatService.summary_s1 <> ""
  /\ (exists result,
        ChatService.answerQuestion ChatService.one_chunk ChatService.fixed_answer
          ChatService.session_s1 ChatService.question0 (Some "s1")
          ConversationContext.env0 ConversationContext.env0 ConversationContext.env0
        = Some result
        /\ ChatService.sent result
           = [ChatService.buildPrompt ChatService.question0
                ChatService.document_context0 ""]
        /\ forall prompt, In prompt (ChatService.sent result) ->
             JS.includes prompt ChatService.summary_s1 = false
             /\ JS.includes prompt "Conversation Context:" = false)
  /\ JS.includes
       (ChatService.buildPrompt ChatService.question0 ChatService.document_context0
          ChatService.summary_s1)
       ChatService.summary_s1 = true.
Proof.
  split; [vm_compute; reflexivity|]. split; [discriminate|]. split.
  - eexists. split; [vm_compute; reflexivity|]. split; [vm_compute; reflexivity|].
    intros prompt [<-|[]]. split; vm_compute; reflexivity.
  - vm_compute. reflexivity.
Qed.

(** ** Ids of the in-process store *)

Section IdFacts.
Import SimpleVectorStore.

Lemma digits_no_underscore d :
  Forall (fun c => c <> JS.underscore) (JS.chars (NilEmpty.string_of_uint d)).
Proof.
  induction d; cbn; constructor; (discriminate || assumption).
Qed.

Lemma show_no_underscore n : Forall (fun c => c <> JS.underscore) (JS.chars (JS.show n)).
Proof.
  unfold JS.show, NilZero.string_of_int, NilZero.string_of_uint.
  destruct (Z.to_int n) as [d|d].
  - destruct d; try apply digits_no_underscore. repeat constructor. discriminate.
  - cbn. constructor; [discriminate|].
    destruct d; try apply digits_no_underscore. repeat constructor. discriminate.
Qed.

Lemma to_int_proper n : Z.to_int n <> Decimal.Pos Decimal.Nil /\ Z.to_int n <> Decimal.Neg Decimal.Nil.
Proof.
  destruct n; cbn; split; try discriminate;
    intros [= Hnil]; exact (DecimalPos.Unsigned.to_uint_nonnil _ Hnil).
Qed.

Lemma show_inj n m : JS.show n = JS.show m -> n = m.
Proof.
  unfold JS.show. intros Heq. apply DecimalZ.to_int_inj.
  destruct (to_int_proper n) as [Hn1 Hn2]. destruct (to_int_proper m) as [Hm1 Hm2].
  pose proof (NilZero.isi _ Hn1 Hn2) as Hn. pose proof (NilZero.isi _ Hm1 Hm2) as Hm.
  rewrite Heq in Hn. congruence.
Qed.

(** Two strings without JS.underscore, each followed by an JS.underscore and a
    rest, are equal as wholes only if they are equal part by part. *)
Lemma split_at_underscore (s1 s2 t1 t2 : string) :
  Forall (fun c => c <> JS.underscore) (JS.chars s1) ->
  Forall (fun c => c <> JS.underscore) (JS.chars s2) ->
  (s1 ++ String JS.underscore t1 = s2 ++ String JS.underscore t2)%string ->
  s1 = s2 /\ t1 = t2.
Proof.
  revert s2. induction s1 as [|c s1 IH]; intros [|c2 s2] H1 H2; cbn.
  - intros [= ->]. split; reflexivity.
  - intros [= <- _]. inversion H2; subst. contradiction.
  - intros [= -> _]. inversion H1; subst. contradiction.
  - intros [= -> Hrest]. inversion H1; inversion H2; subst.
    destruct (IH s2 ltac:(assumption) ltac:(assumption) Hrest) as [-> ->].
    split; reflexivity.
Qed.

Lemma make_id_inj now1 i now2 j :
  make_id now1 i = make_id now2 j -> now1 = now2 /\ i = j.
Proof.
  unfold make_id. cbn [append]. intros [= Heq].
  apply split_at_underscore in Heq as [Hnow Hidx]; try apply show_no_underscore.
  apply show_inj in Hnow. apply show_inj in Hidx. split; [exact Hnow|lia].
Qed.

Lemma ids_from_index {A} (clock : nat -> Z) (docs : list A) (i : nat) (x : string) :
  In x (JS.map_index_from (fun _ index => make_id (clock index) index) i docs) ->
  exists j, (i <= j)%nat /\ x = make_id (clock j) j.
Proof.
  revert i. induction docs as [|d docs IH]; intros i; cbn; [contradiction|].
  intros [<-|Hin]; [exists i; split; [lia|reflexivity]|].
  apply IH in Hin as (j & Hj & ->). exists j. split; [lia|reflexivity].
Qed.

Lemma ids_from_index_NoDup {A} (clock : nat -> Z) (docs : list A) (i : nat) :
  List.NoDup (JS.map_index_from (fun _ index => make_id (clock index) index) i docs).
Proof.
  revert i. induction docs as [|d docs IH]; intros i; cbn; constructor; [|apply IH].
  intros Hin. apply ids_from_index in Hin as (j & Hj & Heq).
  apply make_id_inj in Heq as [_ Heq]. lia.
Qed.

End IdFacts.

(** X3. The ids one [addDocuments] call gives to its chunks are pairwise
    distinct, whatever the clock reads: on a store without records, the ids
    after the call have no duplicate. *)
Theorem addDocuments_one_call_ids_distinct
    (embed : string -> list float) (clock : nat -> Z) (env : option string)
    (docs : list SimpleVectorStore.Chunk) :
  List.NoDup (SimpleVectorStore.ids
                (fst (SimpleVectorStore.addDocuments embed clock
                        (SimpleVectorStore.constructor env) docs))).
Proof.
  cbn. apply ids_from_index_NoDup.
Qed.

(** * Further properties of the code *)

(** ** The text splitter: chunk sizes, texts without break points, documents *)

Section SplitterBounds.
Import TextSplitter.

Lemma lastIndexOf_down_bounds pat s from :
  -1 <= JS.lastIndexOf_down pat s from <= Z.of_nat from.
Proof.
  induction from as [|k IH]; cbn [JS.lastIndexOf_down];
    destruct (JS.starts_with pat _); lia.
Qed.

(** [lastIndexOf] answers [-1] or an index that is not behind the position
    the search starts from. *)
Lemma lastIndexOf_bounds s pat position :
  -1 <= JS.lastIndexOf s pat position <= Z.max position 0.
Proof.
  unfold JS.lastIndexOf.
  pose proof (lastIndexOf_down_bounds (JS.chars pat) (JS.chars s)
                (Z.to_nat (Z.min (Z.max position 0) (Z.of_nat (String.length s))))).
  lia.
Qed.

Lemma slice_length {A} (l : list A) start end_ :
  Z.of_nat (length (JS.slice l start end_))
  = Z.max 0 (JS.relative_index (Z.of_nat (length l)) end_
             - JS.relative_index (Z.of_nat (length l)) start).
Proof.
  unfold JS.slice. rewrite length_take, length_drop.
  unfold JS.relative_index.
  destruct (Z.ltb_spec start 0), (Z.ltb_spec end_ 0); lia.
Qed.

Lemma length_str l : String.length (JS.str l) = length l.
Proof.
  unfold JS.str. induction l as [|c l IH]; cbn; [reflexivity|]. rewrite IH. reflexivity.
Qed.

Lemma length_chars s : length (JS.chars s) = String.length s.
Proof.
  unfold JS.chars. induction s as [|c s IH]; cbn; [reflexivity|]. rewrite IH. reflexivity.
Qed.

Lemma length_append (s1 s2 : string) :
  String.length (s1 ++ s2) = (String.length s1 + String.length s2)%nat.
Proof. induction s1 as [|c s1 IH]; simpl; [reflexivity|]. rewrite IH. reflexivity. Qed.

Lemma trim_start_length l : (length (JS.trim_start l) <= length l)%nat.
Proof.
  induction l as [|c l IH]; cbn; [lia|]. destruct (JS.is_space c); cbn; lia.
Qed.

Lemma trim_length s : (String.length (JS.trim s) <= String.length s)%nat.
Proof.
  unfold JS.trim. rewrite length_str, length_rev.
  etransitivity; [apply trim_start_length|]. rewrite length_rev.
  etransitivity; [apply trim_start_length|]. rewrite length_chars. lia.
Qed.

(** Whatever [start] is, the chunk one pass pushes has at most
    [chunkSize + 1] characters: a break point at the very end of the window
    adds one. *)
Lemma iteration_chunk_length ts text start :
  0 <= chunkSize ts ->
  Z.of_nat (String.length (fst (iteration ts text start))) <= chunkSize ts + 1.
Proof.
  intros Hsize. unfold iteration. cbv zeta. cbn [fst].
  etransitivity; [apply inj_le, trim_length|].
  unfold JS.str_slice. rewrite length_str, slice_length, length_chars.
  pose proof (lastIndexOf_bounds text "." (start + chunkSize ts)) as Hs.
  pose proof (lastIndexOf_bounds text (JS.nl ++ JS.nl) (start + chunkSize ts)) as Hp.
  unfold JS.relative_index.
  destruct (Z.ltb_spec (start + chunkSize ts) (Z.of_nat (String.length text)));
    [destruct (Z.ltb_spec start (Z.max (JS.lastIndexOf text "." (start + chunkSize ts))
                             (JS.lastIndexOf text (JS.nl ++ JS.nl) (start + chunkSize ts))))|];
    destruct (Z.ltb_spec start 0);
    match goal with |- context [?e <? 0] => destruct (Z.ltb_spec e 0) end; lia.
Qed.

(** What holds of every chunk a pass pushes holds of every chunk
    returned. *)
Lemma loop_invariant (P : string -> Prop) ts text fuel :
  (forall start, P (fst (iteration ts text start))) ->
  forall start chunks result,
    Forall P chunks ->
    loop fuel ts text start chunks = Some result -> Forall P result.
Proof.
  intros Hstep. induction fuel as [|fuel IH]; intros start chunks result Hall; cbn [loop];
    destruct (Z.ltb_spec start (Z.of_nat (String.length text))); try discriminate.
  - intros [= <-]. apply List.Forall_forall. intros c Hc.
    apply List.filter_In in Hc as [Hc _]. rewrite List.Forall_forall in Hall. auto.
  - specialize (Hstep start). destruct (iteration ts text start) as [chunk start'].
    apply IH. apply Forall_app. split; [exact Hall|]. constructor; [exact Hstep|constructor].
  - intros [= <-]. apply List.Forall_forall. intros c Hc.
    apply List.filter_In in Hc as [Hc _]. rewrite List.Forall_forall in Hall. auto.
Qed.

End SplitterBounds.

(** X4. For a chunk size that is not negative, every chunk [splitText]
    returns has at least one character and at most [chunkSize + 1]: a chunk
    that ends at a sentence or paragraph end found at the last position of
    its window is one character longer than [chunkSize]. *)
Theorem splitText_chunk_length (ts : TextSplitter.t) (text : string) (fuel : nat)
    (chunks : list string) :
  0 <= TextSplitter.chunkSize ts ->
  TextSplitter.splitText fuel ts text = Some chunks ->
  Forall (fun chunk => 1 <= Z.of_nat (String.length chunk) <= TextSplitter.chunkSize ts + 1)
         chunks.
Proof.
  intros Hsize Hrun.
  pose proof (loop_nonempty ts text fuel 0 [] chunks Hrun) as Hne.
  pose proof (loop_invariant
                (fun chunk => Z.of_nat (String.length chunk) <= TextSplitter.chunkSize ts + 1)
                ts text fuel
                (fun start => iteration_chunk_length ts text start Hsize)
                0 [] chunks ltac:(constructor) Hrun) as Hle.
  rewrite List.Forall_forall in Hne, Hle |- *.
  intros c Hc. specialize (Hne c Hc). specialize (Hle c Hc). cbn beta in Hle. lia.
Qed.

Lemma splitText_chunk_length_witness :
  Forall (fun chunk => 1 <= Z.of_nat (String.length chunk) <= 3 + 1) ["abc."; "def"].
Proof.
  apply (splitText_chunk_length TextSplitter.small_config "abc.def" 7 ["abc."; "def"]).
  - simpl. lia.
  - reflexivity.
Defined.

Section NoBreaks.
Import TextSplitter.
Variables (ts : t) (text : string).

Lemma lastIndexOf_down_none pat s from :
  JS.lastIndexOf_down pat s from = -1 ->
  forall k, (k <= from)%nat -> JS.lastIndexOf_down pat s k = -1.
Proof.
  induction from as [|from IH]; intros Hnone k Hk.
  - replace k with 0%nat by lia. exact Hnone.
  - cbn [JS.lastIndexOf_down] in Hnone.
    destruct (JS.starts_with pat (drop (S from) s)) eqn:Hhere; [lia|].
    destruct (Nat.eq_dec k (S from)) as [->|Hne].
    + cbn [JS.lastIndexOf_down]. rewrite Hhere. exact Hnone.
    + apply IH; [exact Hnone|lia].
Qed.

(** A pattern that [lastIndexOf] does not find from the end of the text is
    not found from any position. *)
Lemma lastIndexOf_none pat :
  JS.lastIndexOf text pat (Z.of_nat (String.length text)) = -1 ->
  forall position, JS.lastIndexOf text pat position = -1.
Proof.
  unfold JS.lastIndexOf. intros Hnone position.
  apply (lastIndexOf_down_none _ _ _ Hnone). lia.
Qed.

Hypothesis no_sentence_end :
  JS.lastIndexOf text "." (Z.of_nat (String.length text)) = -1.
Hypothesis no_paragraph_end :
  JS.lastIndexOf text (JS.nl ++ JS.nl) (Z.of_nat (String.length text)) = -1.

(** Without a break point a pass pushes the window at [start] and moves
    [start] by the stride. *)
Lemma iteration_window start :
  0 <= start ->
  iteration ts text start = (window ts text start, start + chunkSize ts - chunkOverlap ts).
Proof.
  intros Hstart. unfold iteration, window.
  rewrite (lastIndexOf_none "." no_sentence_end).
  rewrite (lastIndexOf_none (JS.nl ++ JS.nl) no_paragraph_end).
  change (Z.max (-1) (-1)) with (-1).
  destruct (Z.ltb_spec start (-1)); [lia|].
  destruct (_ <? Z.of_nat (String.length text)); reflexivity.
Qed.

Hypothesis stride_positive : chunkOverlap ts < chunkSize ts.

(** The window number [i] starts inside the text exactly when [i] is less
    than the length divided by the stride, rounded up. *)
Lemma window_count i :
  let stride := chunkSize ts - chunkOverlap ts in
  let count := (Z.of_nat (String.length text) + stride - 1) / stride in
  Z.of_nat i * stride < Z.of_nat (String.length text) <-> Z.of_nat i < count.
Proof.
  cbn zeta. set (stride := chunkSize ts - chunkOverlap ts).
  set (len := Z.of_nat (String.length text)).
  assert (Hstride : 0 < stride) by (subst stride; lia).
  pose proof (Z.div_mod (len + stride - 1) stride ltac:(lia)) as Hdiv.
  pose proof (Z.mod_pos_bound (len + stride - 1) stride Hstride) as Hmod.
  set (q := (len + stride - 1) / stride) in *.
  split; intros Hlt; nia.
Qed.

Lemma loop_windows fuel : forall i chunks,
  let stride := chunkSize ts - chunkOverlap ts in
  let count := Z.to_nat ((Z.of_nat (String.length text) + stride - 1) / stride) in
  (count - i <= fuel)%nat ->
  loop fuel ts text (Z.of_nat i * stride) chunks
  = Some (List.filter nonempty
            (chunks ++ map (fun i => window ts text (Z.of_nat i * stride))
                           (seq i (count - i)))).
Proof.
  cbn zeta.
  assert (Hcount : forall i,
            Z.of_nat i * (chunkSize ts - chunkOverlap ts) < Z.of_nat (String.length text)
            <-> (i < Z.to_nat ((Z.of_nat (String.length text)
                                + (chunkSize ts - chunkOverlap ts) - 1)
                               / (chunkSize ts - chunkOverlap ts)))%nat).
  { intros i. rewrite (window_count i). cbn zeta. lia. }
  set (count := Z.to_nat _) in *. clearbody count.
  induction fuel as [|fuel IH]; intros i chunks Hfuel.
  - assert (Hdone : (count - i = 0)%nat) by lia.
    rewrite Hdone. cbn [seq map]. rewrite app_nil_r. apply loop_leave.
    specialize (Hcount i). lia.
  - destruct (Z.lt_ge_cases (Z.of_nat i * (chunkSize ts - chunkOverlap ts))
                            (Z.of_nat (String.length text))) as [Hin|Hout].
    + rewrite loop_enter by exact Hin. rewrite iteration_window by nia. cbn [fst snd].
      replace (Z.of_nat i * (chunkSize ts - chunkOverlap ts) + chunkSize ts - chunkOverlap ts)
        with (Z.of_nat (S i) * (chunkSize ts - chunkOverlap ts))
        by (rewrite Nat2Z.inj_succ; ring).
      rewrite IH by lia.
      apply Hcount in Hin.
      replace (count - i)%nat with (S (count - S i)) by lia.
      cbn [seq map]. rewrite <- app_assoc. reflexivity.
    + assert (Hdone : (count - i = 0)%nat) by (specialize (Hcount i); lia).
      rewrite Hdone. cbn [seq map]. rewrite app_nil_r. apply loop_leave. lia.
Qed.

End NoBreaks.

(** X5. On a text that holds neither a full stop nor two line feeds in a
    row, and with [chunkOverlap < chunkSize], [splitText] returns after at
    most as many passes as the text has characters, and what it returns are
    the windows of [chunkSize] characters that start every
    [chunkSize - chunkOverlap] characters, each trimmed, without the empty
    ones. *)
Theorem splitText_without_breaks (ts : TextSplitter.t) (text : string) :
  JS.lastIndexOf text "." (Z.of_nat (String.length text)) = -1 ->
  JS.lastIndexOf text (JS.nl ++ JS.nl) (Z.of_nat (String.length text)) = -1 ->
  TextSplitter.chunkOverlap ts < TextSplitter.chunkSize ts ->
  TextSplitter.splitText (String.length text) ts text
  = Some (List.filter TextSplitter.nonempty (TextSplitter.windows ts text)).
Proof.
  intros Hsentence Hparagraph Hstride. unfold TextSplitter.splitText.
  pose proof (loop_windows ts text Hsentence Hparagraph Hstride (String.length text) 0 [])
    as Hloop.
  cbn zeta in Hloop. rewrite Z.mul_0_l in Hloop. rewrite Hloop.
  - unfold TextSplitter.windows. rewrite Nat.sub_0_r. reflexivity.
  - assert (Hcount : (Z.of_nat (String.length text)
                       + (TextSplitter.chunkSize ts - TextSplitter.chunkOverlap ts) - 1)
                      / (TextSplitter.chunkSize ts - TextSplitter.chunkOverlap ts)
                      <= Z.of_nat (String.length text)).
    { destruct (String.length text) as [|n].
      - rewrite Z.div_small; lia.
      - apply Z.div_le_upper_bound; nia. }
    revert Hcount.
    generalize ((Z.of_nat (String.length text)
                 + (TextSplitter.chunkSize ts - TextSplitter.chunkOverlap ts) - 1)
                / (TextSplitter.chunkSize ts - TextSplitter.chunkOverlap ts)).
    intros count Hcount. lia.
Qed.

Lemma splitText_without_breaks_witness :
  TextSplitter.splitText 26
    {| TextSplitter.chunkSize := 10; TextSplitter.chunkOverlap := 3 |}
    "abcdefghijklmnopqrstuvwxyz"
  = Some ["abcdefghij"; "hijklmnopq"; "opqrstuvwx"; "vwxyz"].
Proof.
  apply (splitText_without_breaks
           {| TextSplitter.chunkSize := 10; TextSplitter.chunkOverlap := 3 |}
           "abcdefghijklmnopqrstuvwxyz"); [reflexivity|reflexivity|simpl; lia].
Defined.

Section SplitDocumentsFacts.
Import TextSplitter.
Context {Fields : Type}.
Implicit Types (doc : Document Fields) (docs : list (Document Fields))
  (out acc : list (SplitDocument Fields)).

Lemma filter_all {A} (p : A -> bool) (l : list A) :
  Forall (fun x => p x = true) l -> List.filter p l = l.
Proof.
  induction 1 as [|x l Hx _ IH]; cbn; [reflexivity|]. rewrite Hx, IH. reflexivity.
Qed.

Lemma filter_none {A} (p : A -> bool) (l : list A) :
  Forall (fun x => p x = false) l -> List.filter p l = [].
Proof.
  induction 1 as [|x l Hx _ IH]; cbn; [reflexivity|]. rewrite Hx, IH. reflexivity.
Qed.

Lemma split_document_index doc d i (chunks : list string) :
  Forall (fun e => originalDocIndex e = Z.of_nat d)
         (JS.map_index_from (split_document doc d) i chunks).
Proof.
  revert i. induction chunks as [|c chunks IH]; intros i; cbn; constructor;
    [reflexivity|apply IH].
Qed.

(** From document [i] on, with the chunks of the documents before it in
    [acc]: the chunks of each later document are pushed together, and those
    already pushed stay. *)
Lemma each_document_groups fuel ts docs : forall i acc out,
  each_document fuel ts docs i acc = Some out ->
  Forall (fun e => 0 <= originalDocIndex e < Z.of_nat i) acc ->
  (forall d doc, docs !! d = Some doc ->
     exists chunks,
       splitText fuel ts (doc_content doc) = Some chunks
       /\ List.filter (of_document (i + d)) out
          = JS.map_index (split_document doc (i + d)) chunks)
  /\ (forall j, (j < i)%nat ->
        List.filter (of_document j) out = List.filter (of_document j) acc)
  /\ Forall (fun e => 0 <= originalDocIndex e < Z.of_nat (i + length docs)) out.
Proof.
  induction docs as [|doc docs IH]; intros i acc out; cbn [each_document].
  - intros [= <-] Hacc. split; [intros d doc Hd; discriminate|].
    split; [reflexivity|]. rewrite Nat.add_0_r. exact Hacc.
  - destruct (splitText fuel ts (doc_content doc)) as [chunks|] eqn:Hsplit; [|discriminate].
    intros Hrun Hacc.
    pose proof (split_document_index doc i 0 chunks) as Hnew.
    fold (JS.map_index (split_document doc i) chunks) in Hnew.
    apply IH in Hrun as (Hlater & Hearlier & Hrange).
    2:{ apply Forall_app. split.
        - eapply Forall_impl; [exact Hacc|]. cbn. intros e He. lia.
        - eapply Forall_impl; [exact Hnew|]. cbn. intros e He. lia. }
    split; [|split].
    + intros [|d] doc' Hd.
      * injection Hd as <-. exists chunks. split; [exact Hsplit|].
        rewrite Nat.add_0_r. rewrite Hearlier by lia. rewrite List.filter_app.
        rewrite filter_none, filter_all; [reflexivity| |].
        -- eapply Forall_impl; [exact Hnew|]. cbn. intros e He.
           unfold of_document. apply Z.eqb_eq. exact He.
        -- eapply Forall_impl; [exact Hacc|]. cbn. intros e He.
           unfold of_document. apply Z.eqb_neq. lia.
      * destruct (Hlater d doc' Hd) as (chunks' & Hsplit' & Hfilter).
        exists chunks'. split; [exact Hsplit'|].
        replace (i + S d)%nat with (S i + d)%nat by lia. exact Hfilter.
    + intros j Hj. rewrite Hearlier by lia. rewrite List.filter_app.
      rewrite (filter_none _ (JS.map_index _ _)); [apply app_nil_r|].
      eapply Forall_impl; [exact Hnew|]. cbn. intros e He.
      unfold of_document. apply Z.eqb_neq. lia.
    + replace (i + length (doc :: docs))%nat with (S i + length docs)%nat by (cbn; lia).
      exact Hrange.
Qed.

Lemma each_document_returns fuel ts docs : forall i acc,
  chunkOverlap ts < chunkSize ts -> chunkOverlap ts <= 1 ->
  Forall (fun doc => (String.length (doc_content doc) <= fuel)%nat) docs ->
  is_Some (each_document fuel ts docs i acc).
Proof.
  intros i acc Hlt Hov Hfuel. revert i acc.
  induction Hfuel as [|doc docs Hdoc _ IH]; intros i acc; cbn [each_document]; [eauto|].
  destruct (loop_returns ts (doc_content doc) fuel 0 [] Hlt Hov) as [chunks Hchunks]; [lia|].
  unfold splitText. rewrite Hchunks. apply IH.
Qed.

End SplitDocumentsFacts.

(** X6. Where [splitDocuments] returns, the objects that carry
    [originalDocIndex = d] are, in order, the chunks [splitText] makes of the
    content of the document at index [d], each with the other properties of
    that document and with [chunkIndex] counting from 0 within the document;
    every [originalDocIndex] is the index of a document (a document without
    chunks leaves a gap). With an overlap of at most one character, less than
    the chunk size, [splitDocuments] returns when every document is given as
    many passes as it has characters. *)
Theorem splitDocuments_groups {Fields : Type} (fuel : nat) (ts : TextSplitter.t)
    (docs : list (TextSplitter.Document Fields)) :
  (forall out,
     TextSplitter.splitDocuments fuel ts docs = Some out ->
     (forall d doc, docs !! d = Some doc ->
        exists chunks,
          TextSplitter.splitText fuel ts (TextSplitter.doc_content doc) = Some chunks
          /\ List.filter (TextSplitter.of_document d) out
             = JS.map_index (TextSplitter.split_document doc d) chunks)
     /\ Forall (fun e => 0 <= TextSplitter.originalDocIndex e < Z.of_nat (length docs)) out)
  /\ (TextSplitter.chunkOverlap ts < TextSplitter.chunkSize ts ->
      TextSplitter.chunkOverlap ts <= 1 ->
      Forall (fun doc => (String.length (TextSplitter.doc_content doc) <= fuel)%nat) docs ->
      is_Some (TextSplitter.splitDocuments fuel ts docs)).
Proof.
  split.
  - intros out Hrun.
    destruct (each_document_groups fuel ts docs 0 [] out Hrun ltac:(constructor))
      as (Hgroups & _ & Hrange).
    split; [|exact Hrange]. intros d doc Hd.
    destruct (Hgroups d doc Hd) as (chunks & Hsplit & Hfilter).
    exists chunks. split; [exact Hsplit|exact Hfilter].
  - intros Hlt Hov Hfuel. apply each_document_returns; assumption.
Qed.

Lemma splitDocuments_groups_witness :
  is_Some (TextSplitter.splitDocuments 7 TextSplitter.small_config
             TextSplitter.three_documents)
  /\ exists chunks,
       TextSplitter.splitText 7 TextSplitter.small_config "xyz" = Some chunks
       /\ List.filter (TextSplitter.of_document 2)
            [ TextSplitter.split_document
                {| TextSplitter.doc_content := "abc.def";
                   TextSplitter.doc_fields := "a.txt" |} 0 "abc." 0;
              TextSplitter.split_document
                {| TextSplitter.doc_content := "abc.def";
                   TextSplitter.doc_fields := "a.txt" |} 0 "def" 1;
              TextSplitter.split_document
                {| TextSplitter.doc_content := "xyz";
                   TextSplitter.doc_fields := "c.txt" |} 2 "xyz" 0 ]
          = JS.map_index
              (TextSplitter.split_document
                 {| TextSplitter.doc_content := "xyz";
                    TextSplitter.doc_fields := "c.txt" |} 2) chunks.
Proof.
  destruct (splitDocuments_groups 7 TextSplitter.small_config TextSplitter.three_documents)
    as [Hgroups Hreturns].
  split.
  - apply Hreturns; [simpl; lia|simpl; lia|].
    repeat constructor; simpl; lia.
  - exact (proj1 (Hgroups _ eq_refl) 2%nat
             {| TextSplitter.doc_content := "xyz"; TextSplitter.doc_fields := "c.txt" |}
             eq_refl).
Defined.

(** ** The embedding service: batches *)

Section SliceWindow.
Context {A : Type}.

(** [slice(i, i + n)] for [i, n >= 0]: the [n] elements from index [i] on,
    or as many as there are. *)
Lemma slice_window (l : list A) i n :
  0 <= i -> 0 <= n ->
  JS.slice l i (i + n) = take (Z.to_nat n) (drop (Z.to_nat i) l).
Proof.
  intros Hi Hn. unfold JS.slice, JS.relative_index.
  destruct (Z.ltb_spec i 0); [lia|]. destruct (Z.ltb_spec (i + n) 0); [lia|].
  destruct (Z.le_gt_cases (Z.of_nat (length l)) i) as [Hout|Hin].
  - rewrite !drop_ge by lia. rewrite !take_nil. reflexivity.
  - replace (Z.to_nat (Z.min i (Z.of_nat (length l)))) with (Z.to_nat i) by lia.
    destruct (Z.le_gt_cases (i + n) (Z.of_nat (length l))).
    + f_equal. lia.
    + rewrite !take_ge; [reflexivity| |]; rewrite length_drop; lia.
Qed.

End SliceWindow.

Section EmbeddingFacts.
Import EmbeddingService.
Context {T : Type}.
Variable embeddings : string -> option (list T).

Lemma promise_all_app {A} (l1 l2 : list (option A)) :
  promise_all (l1 ++ l2)
  = match promise_all l1, promise_all l2 with
    | Some xs, Some ys => Some (xs ++ ys)%list
    | _, _ => None
    end.
Proof.
  induction l1 as [|[x|] l1 IH]; cbn.
  - destruct (promise_all l2); reflexivity.
  - rewrite IH. destruct (promise_all l1), (promise_all l2); reflexivity.
  - reflexivity.
Qed.

Lemma promise_all_Forall2 (texts : list string) vectors :
  Forall2 (fun text v => embeddings text = Some v) texts vectors ->
  promise_all (map embeddings texts) = Some vectors.
Proof.
  induction 1 as [|text v texts vectors Hv _ IH]; cbn; [reflexivity|].
  rewrite Hv, IH. reflexivity.
Qed.

Lemma promise_all_None (texts : list string) j text :
  texts !! j = Some text -> embeddings text = None ->
  promise_all (map embeddings texts) = None.
Proof.
  revert j. induction texts as [|t texts IH]; intros [|j]; cbn; try discriminate.
  - intros [= ->] ->. reflexivity.
  - intros Hj Hnone. rewrite (IH j Hj Hnone). destruct (embeddings t); reflexivity.
Qed.

Lemma promise_all_Some (texts : list string) :
  Forall (fun text => is_Some (embeddings text)) texts ->
  is_Some (promise_all (map embeddings texts)).
Proof.
  induction 1 as [|text texts [v Hv] _ [vs IH]]; cbn; [eauto|].
  rewrite Hv, IH. eauto.
Qed.

(** From [i] on, when every remaining request succeeds. *)
Lemma batches_succeed fuel texts : forall i acc vectors,
  0 <= i ->
  (length (drop (Z.to_nat i) texts) <= fuel)%nat ->
  promise_all (map embeddings (drop (Z.to_nat i) texts)) = Some vectors ->
  batches embeddings fuel texts i acc (take (Z.to_nat i) texts)
  = Some {| requested := texts; returned := Some (acc ++ vectors)%list |}.
Proof.
  induction fuel as [|fuel IH]; intros i acc vectors Hi Hfuel Hall; cbn [batches];
    destruct (Z.ltb_spec i (Z.of_nat (length texts))) as [Hin|Hout];
    try (rewrite length_drop in Hfuel; lia).
  - rewrite drop_ge in Hall by lia. injection Hall as <-.
    rewrite take_ge by lia. rewrite app_nil_r. reflexivity.
  - rewrite slice_window by (unfold batchSize; lia).
    unfold generateEmbedding.
    change (map (fun text => embeddings text)) with (map embeddings).
    rewrite <- (take_drop (Z.to_nat batchSize) (drop (Z.to_nat i) texts)) in Hall.
    rewrite map_app, promise_all_app in Hall.
    destruct (promise_all (map embeddings (take _ _))) as [batchEmbeddings|];
      [|discriminate].
    rewrite drop_drop in Hall.
    replace (Z.to_nat i + Z.to_nat batchSize)%nat with (Z.to_nat (i + batchSize)) in Hall
      by (unfold batchSize; lia).
    destruct (promise_all (map embeddings (drop (Z.to_nat (i + batchSize)) texts)))
      as [later|] eqn:Hlater; [|discriminate].
    injection Hall as <-.
    rewrite take_take_drop.
    replace (Z.to_nat i + Z.to_nat batchSize)%nat with (Z.to_nat (i + batchSize))
      by (unfold batchSize; lia).
    rewrite (IH (i + batchSize) (acc ++ batchEmbeddings)%list later).
    + rewrite <- app_assoc. reflexivity.
    + unfold batchSize. lia.
    + rewrite length_drop in Hfuel |- *. unfold batchSize. lia.
    + exact Hlater.
  - rewrite drop_ge in Hall by lia. injection Hall as <-.
    rewrite take_ge by lia. rewrite app_nil_r. reflexivity.
Qed.

(** From the start of a batch at or before the first request that fails. *)
Lemma batches_fail fuel texts j text :
  texts !! j = Some text -> embeddings text = None ->
  (forall i t, (i < j)%nat -> texts !! i = Some t -> is_Some (embeddings t)) ->
  forall b acc,
    (5 * b <= j)%nat ->
    (length texts - 5 * b <= fuel)%nat ->
    batches embeddings fuel texts (Z.of_nat (5 * b)) acc (take (5 * b) texts)
    = Some {| requested := take (5 * (j / 5 + 1)) texts; returned := None |}.
Proof.
  intros Hj Hnone Hbefore.
  assert (Hlen : (j < length texts)%nat) by (eapply lookup_lt_Some; exact Hj).
  induction fuel as [|fuel IH]; intros b acc Hb Hfuel; [lia|].
  cbn [batches].
  destruct (Z.ltb_spec (Z.of_nat (5 * b)) (Z.of_nat (length texts))); [|lia].
  rewrite slice_window by (unfold batchSize; lia).
  rewrite Nat2Z.id. change (Z.to_nat batchSize) with 5%nat.
  unfold generateEmbedding.
  change (map (fun text => embeddings text)) with (map embeddings).
  rewrite take_take_drop.
  destruct (Nat.lt_ge_cases j (5 * b + 5)) as [Hhere|Hlater].
  - rewrite (promise_all_None (take 5 (drop (5 * b) texts)) (j - 5 * b) text).
    + do 3 f_equal.
      assert (j / 5 = b)%nat as ->; [|lia].
      symmetry. apply (Nat.div_unique j 5 b (j - 5 * b)); lia.
    + rewrite lookup_take_lt by lia. rewrite lookup_drop.
      replace (5 * b + (j - 5 * b))%nat with j by lia. exact Hj.
    + exact Hnone.
  - destruct (promise_all_Some (take 5 (drop (5 * b) texts))) as [vs Hvs].
    { apply List.Forall_forall. intros t Ht.
      apply list_elem_of_In in Ht. apply list_elem_of_lookup in Ht as [k Hk].
      assert (k < 5)%nat.
      { apply lookup_lt_Some in Hk. rewrite length_take in Hk. lia. }
      rewrite lookup_take_lt in Hk by lia. rewrite lookup_drop in Hk.
      apply (Hbefore (5 * b + k)%nat t); [lia|exact Hk]. }
    rewrite Hvs.
    replace (Z.of_nat (5 * b) + batchSize) with (Z.of_nat (5 * S b))
      by (unfold batchSize; lia).
    replace (5 * b + 5)%nat with (5 * S b)%nat by lia.
    apply IH; lia.
Qed.

End EmbeddingFacts.

(** X7. [generateEmbeddings], given one pass of its loop per text or more:
    when the model answers every text, it returns the embeddings in the
    order of the texts, one per text, and has sent each text once, in order
    (the batches of five do not show in the result); when the request of the
    text at index [j] is the first that fails, it throws, and the requests
    sent are those of the texts up to the end of the batch of five that
    holds [j], and none of a later batch. *)
Theorem generateEmbeddings_in_batches {T : Type}
    (embeddings : string -> option (list T)) (texts : list string) (fuel : nat) :
  (length texts <= fuel)%nat ->
  (forall vectors,
     Forall2 (fun text v => embeddings text = Some v) texts vectors ->
     EmbeddingService.generateEmbeddings embeddings fuel texts
     = Some {| EmbeddingService.requested := texts;
               EmbeddingService.returned := Some vectors |})
  /\ (forall j text,
        texts !! j = Some text -> embeddings text = None ->
        (forall i t, (i < j)%nat -> texts !! i = Some t -> is_Some (embeddings t)) ->
        EmbeddingService.generateEmbeddings embeddings fuel texts
        = Some {| EmbeddingService.requested := take (5 * (j / 5 + 1)) texts;
                  EmbeddingService.returned := None |}).
Proof.
  intros Hfuel. split.
  - intros vectors Hall. unfold EmbeddingService.generateEmbeddings.
    apply (batches_succeed embeddings fuel texts 0 [] vectors); [lia|exact Hfuel|].
    apply promise_all_Forall2. exact Hall.
  - intros j text Hj Hnone Hbefore. unfold EmbeddingService.generateEmbeddings.
    apply (batches_fail embeddings fuel texts j text Hj Hnone Hbefore 0%nat []); lia.
Qed.

Lemma generateEmbeddings_in_batches_witness :
  EmbeddingService.generateEmbeddings EmbeddingService.constant_model 7
    EmbeddingService.seven_texts
  = Some {| EmbeddingService.requested := EmbeddingService.seven_texts;
            EmbeddingService.returned := Some [[1]; [1]; [1]; [1]; [1]; [1]; [1]] |}
  /\ EmbeddingService.generateEmbeddings (EmbeddingService.model_failing_on "b") 7
       EmbeddingService.seven_texts
     = Some {| EmbeddingService.requested := ["a"; "b"; "c"; "d"; "e"];
               EmbeddingService.returned := None |}.
Proof.
  split.
  - apply (proj1 (generateEmbeddings_in_batches EmbeddingService.constant_model
                    EmbeddingService.seven_texts 7 ltac:(simpl; lia))).
    repeat constructor.
  - apply (proj2 (generateEmbeddings_in_batches (EmbeddingService.model_failing_on "b")
                    EmbeddingService.seven_texts 7 ltac:(simpl; lia)) 1%nat "b").
    + reflexivity.
    + reflexivity.
    + intros [|i] t Hi; [|lia]. intros [= <-]. vm_compute. eauto.
Defined.

(** ** The conversation context service: estimates, reads, maintenance *)

Section ConversationMore.
Import ConversationContext.
Context {Metadata : Type}.
Implicit Types (st : t Metadata) (msgs : list (Message Metadata)) (m : Message Metadata).

Lemma estimateTokens_from msgs : forall total,
  fold_left (fun total message =>
               total + ceil_div4 (Z.of_nat (String.length (content message))))
            msgs total
  = total + estimateTokens msgs.
Proof.
  unfold estimateTokens.
  induction msgs as [|m msgs IH]; intros total; cbn [fold_left]; [lia|].
  rewrite IH, (IH (0 + _)). lia.
Qed.

Lemma estimateTokens_cons m msgs :
  estimateTokens (m :: msgs)
  = ceil_div4 (Z.of_nat (String.length (content m))) + estimateTokens msgs.
Proof.
  unfold estimateTokens at 1. cbn [fold_left]. rewrite estimateTokens_from. lia.
Qed.

Lemma estimateTokens_app msgs msgs' :
  estimateTokens (msgs ++ msgs') = estimateTokens msgs + estimateTokens msgs'.
Proof.
  induction msgs as [|m msgs IH]; [reflexivity|].
  cbn [app]. rewrite !estimateTokens_cons, IH. lia.
Qed.

Lemma characters_nonnegative msgs : 0 <= characters msgs.
Proof.
  induction msgs as [|m msgs IH]; cbn; [lia|]. fold (characters msgs). lia.
Qed.

Lemma estimateTokens_bounds msgs :
  characters msgs <= 4 * estimateTokens msgs
  /\ 4 * estimateTokens msgs <= characters msgs + 3 * Z.of_nat (length msgs).
Proof.
  induction msgs as [|m msgs IH]; [cbn; lia|].
  rewrite estimateTokens_cons. cbn [characters fold_right length].
  fold (characters msgs).
  pose proof (ceil_div4_spec (Z.of_nat (String.length (content m))) ltac:(lia)). lia.
Qed.

(** What the token loop keeps: two messages, or all when there are fewer. *)
Lemma trim_tokens_keeps budget msgs :
  (Nat.min (length msgs) 2 <= length (trim_tokens budget msgs))%nat.
Proof.
  induction msgs as [|m rest IH]; [cbn; lia|].
  cbn [trim_tokens].
  destruct (budget <? estimateTokens (m :: rest)); cbn [andb]; [|lia].
  destruct (Z.ltb_spec 2 (Z.of_nat (length (m :: rest)))) as [Hmany|Hfew]; [|lia].
  cbn [length] in Hmany |- *. lia.
Qed.

(** What [trimConversation] keeps for a window of at least one message: as
    many messages as the smallest of the window, the number there are, and
    two. *)
Lemma trim_messages_keeps st msgs :
  1 <= maxContextLength st ->
  Z.min (Z.of_nat (length msgs)) (Z.min (maxContextLength st) 2)
  <= Z.of_nat (length (trim_messages st msgs)).
Proof.
  intros Hwin. unfold trim_messages.
  match goal with |- _ <= Z.of_nat (length (trim_tokens ?b ?l)) =>
    pose proof (trim_tokens_keeps b l) as Hkeep end.
  destruct (Z.ltb_spec (maxContextLength st) (Z.of_nat (length msgs))) as [Hlong|Hshort].
  - rewrite slice_from_last in Hkeep |- * by lia.
    rewrite length_drop in Hkeep. lia.
  - lia.
Qed.

Lemma suffix_last {A} (s l : list A) : s `suffix_of` l -> s <> [] -> last s = last l.
Proof.
  intros [k ->] Hne. rewrite last_app.
  destruct (last s) eqn:Hlast; [reflexivity|].
  apply last_None in Hlast. contradiction.
Qed.

(** A suffix of [l ++ t] that is at least as long as [t] ends with [t], and
    what comes before is a suffix of [l]. *)
Lemma suffix_app_tail {A} (s l t : list A) :
  s `suffix_of` (l ++ t)%list -> (length t <= length s)%nat ->
  exists o, s = (o ++ t)%list /\ o `suffix_of` l.
Proof.
  intros [p Hp] Hlen. apply app_eq_inv in Hp as [(k & -> & ->)|(k & -> & ->)].
  - exists k. split; [reflexivity|]. apply suffix_app_r. reflexivity.
  - rewrite length_app in Hlen. destruct k; [|cbn in Hlen; lia].
    exists []. split; [reflexivity|]. apply suffix_nil.
Qed.

(** With a window of at least one message the message just appended is
    never trimmed away. *)
Lemma addMessage_last st sid role body meta env m st' :
  1 <= maxContextLength st ->
  addMessage st sid role body meta env = Some (m, st') ->
  last (session_messages st' sid) = Some m.
Proof.
  intros Hwin Hadd. apply addMessage_Some in Hadd as (_ & _ & Hmsgs & _ & _).
  rewrite Hmsgs.
  rewrite (suffix_last _ _ (trim_messages_suffix st _)).
  - apply last_snoc.
  - pose proof (trim_messages_keeps st (session_messages st sid ++ [m]) Hwin) as Hkeep.
    rewrite length_app in Hkeep. cbn [length] in Hkeep.
    intros Hnil. rewrite Hnil in Hkeep. cbn [length] in Hkeep. lia.
Qed.


Lemma getContext_known st sid c at_ :
  conversations st !! sid = Some c ->
  1 <= maxContextLength st ->
  fst (getContext st sid false at_)
  = drop (length (messages c) - Z.to_nat (maxContextLength st)) (messages c).
Proof.
  intros Hc Hwin. unfold getContext. rewrite Hc. cbn [fst andb].
  apply slice_from_last. lia.
Qed.

Lemma slice_last_five msgs : JS.slice_from msgs (-5) = drop (length msgs - 5) msgs.
Proof. apply (slice_from_last msgs 5). lia. Qed.

Lemma summary_line_length m :
  String.length (summary_line m)
  = (String.length (role m) + 2
     + if (100 <? String.length (content m))%nat then 103
       else String.length (content m))%nat.
Proof.
  unfold summary_line, JS.substring0. rewrite !length_append, length_str, length_take.
  rewrite length_chars. cbn [String.length].
  destruct (Nat.ltb_spec 100 (String.length (content m))); cbn [String.length]; lia.
Qed.


End ConversationMore.

Section ConversationExtras.
Import ConversationContext.
Context {Metadata : Type}.
Implicit Types (st : t Metadata) (msgs : list (Message Metadata)) (m : Message Metadata).

(** X8. [estimateTokens] is the number of characters of content divided by
    four, counted up by less than one token per message: four times the
    estimate is at least the number of characters and exceeds it by at most
    three per message. Dropping the oldest messages never raises the
    estimate. *)
Theorem estimateTokens_characters msgs :
  characters msgs <= 4 * estimateTokens msgs
  /\ 4 * estimateTokens msgs <= characters msgs + 3 * Z.of_nat (length msgs)
  /\ forall kept, kept `suffix_of` msgs -> estimateTokens kept <= estimateTokens msgs.
Proof.
  destruct (estimateTokens_bounds msgs) as [Hlow Hhigh].
  split; [exact Hlow|]. split; [exact Hhigh|].
  intros kept [dropped ->]. rewrite estimateTokens_app.
  pose proof (estimateTokens_bounds dropped) as [Hd _].
  pose proof (characters_nonnegative dropped). lia.
Qed.

(** X9. [getContext] without the system preamble: for an unknown session it
    returns the empty sequence and changes nothing (the session is not
    created); for a known session and a window of at least one message it
    returns the last [maxContextLength] stored messages (all of them when
    there are fewer), sets the session's [lastAccessed] to the time of the
    call, and leaves its messages, its creation time and every other session
    as they were. *)
Theorem getContext_window st sid at_ :
  (conversations st !! sid = None -> getContext st sid false at_ = ([], st))
  /\ (forall c,
        conversations st !! sid = Some c ->
        1 <= maxContextLength st ->
        fst (getContext st sid false at_)
        = drop (length (messages c) - Z.to_nat (maxContextLength st)) (messages c)
        /\ conversations (snd (getContext st sid false at_)) !! sid
           = Some {| messages := messages c; createdAt := createdAt c;
                     lastAccessed := at_ |}
        /\ forall other, other <> sid ->
             conversations (snd (getContext st sid false at_)) !! other
             = conversations st !! other).
Proof.
  split.
  - intros Hnone. unfold getContext. rewrite Hnone. reflexivity.
  - intros c Hc Hwin. split; [apply getContext_known; assumption|].
    unfold getContext. rewrite Hc. cbn.
    split; [apply lookup_insert_eq|].
    intros other Hother. apply lookup_insert_ne. congruence.
Qed.

(** X10. With a window of at least one message, the message [addMessage]
    returns is the last one the session holds afterwards (trimming never
    removes it), and [getContext] without the preamble then returns exactly
    the messages the session holds: after an append the window hides
    nothing. *)
Theorem addMessage_then_getContext st sid role body meta env m st' at_ :
  1 <= maxContextLength st ->
  addMessage st sid role body meta env = Some (m, st') ->
  last (session_messages st' sid) = Some m
  /\ fst (getContext st' sid false at_) = session_messages st' sid.
Proof.
  intros Hwin Hadd. split; [eapply addMessage_last; eassumption|].
  pose proof Hadd as Hadd'.
  apply addMessage_Some in Hadd' as (_ & [c Hc] & Hmsgs & Hlen & _).
  rewrite (getContext_known st' sid c at_ Hc) by lia.
  assert (Hstored : session_messages st' sid = messages c).
  { unfold session_messages. rewrite Hc. reflexivity. }
  rewrite Hstored in Hmsgs |- *.
  pose proof (trim_messages_length st (session_messages st sid ++ [m]) Hwin) as Hcap.
  rewrite <- Hmsgs in Hcap.
  replace (length (messages c) - Z.to_nat (maxContextLength st'))%nat with 0%nat by lia.
  reflexivity.
Qed.

(** X11. [getConversationSummary] is the empty string exactly when the
    session is unknown or holds no message. Otherwise it is the heading
    followed by one line for each of the last five messages (fewer when the
    session holds fewer), in order. A line has the length of the role plus 2
    plus the length of the content when the content has at most 100
    characters, and the length of the role plus 105 when it has more (the
    content is cut after 100 characters and three dots follow). *)
Theorem getConversationSummary_recent st sid :
  (getConversationSummary st sid = "" <-> session_messages st sid = [])
  /\ (session_messages st sid <> [] ->
      getConversationSummary st sid
      = "Recent conversation context:" ++ JS.nl
        ++ String.concat JS.nl
             (map summary_line
                  (drop (length (session_messages st sid) - 5) (session_messages st sid))))
  /\ (forall m,
        String.length (summary_line m)
        = (String.length (role m) + 2
           + if (100 <? String.length (content m))%nat then 103
             else String.length (content m))%nat).
Proof.
  split; [|split; [|apply summary_line_length]].
  - unfold getConversationSummary, session_messages.
    destruct (conversations st !! sid) as [c|]; [|split; reflexivity].
    rewrite slice_last_five.
    destruct (messages c) as [|m l] eqn:Hm; [split; reflexivity|].
    destruct (drop _ (m :: l)) as [|m' l'] eqn:Hdrop.
    + apply (f_equal length) in Hdrop. rewrite length_drop in Hdrop.
      cbn [length] in Hdrop. lia.
    + split; discriminate.
  - unfold getConversationSummary, session_messages.
    destruct (conversations st !! sid) as [c|]; [|contradiction].
    intros Hne. rewrite slice_last_five.
    destruct (drop _ (messages c)) as [|m' l'] eqn:Hdrop; [|reflexivity].
    apply (f_equal length) in Hdrop. rewrite length_drop in Hdrop.
    destruct (messages c); [contradiction|]. cbn [length] in Hdrop. lia.
Qed.

(** X12. [clearConversation] and [deleteSession] on a known session differ
    in what is left. After clearing, the session is still known: its
    statistics report 0 messages and 0 tokens with the creation and access
    times it had, its summary is empty, and [getContext] with the preamble
    returns the empty sequence. After deleting, the statistics are [null],
    the summary is empty, and [getContext] with the preamble returns the
    system message alone. Neither touches another session. *)
Theorem clear_versus_delete st sid c at_ :
  conversations st !! sid = Some c ->
  getConversationStats (clearConversation st sid) sid
  = Some {| messageCount := 0; stats_createdAt := createdAt c;
            stats_lastAccessed := lastAccessed c; estimatedTokens := 0 |}
  /\ getConversationSummary (clearConversation st sid) sid = ""
  /\ fst (getContext (clearConversation st sid) sid true at_) = []
  /\ getConversationStats (deleteSession st sid) sid = None
  /\ getConversationSummary (deleteSession st sid) sid = ""
  /\ fst (getContext (deleteSession st sid) sid true at_) = [systemMessage at_]
  /\ forall other, other <> sid ->
       conversations (clearConversation st sid) !! other = conversations st !! other
       /\ conversations (deleteSession st sid) !! other = conversations st !! other.
Proof.
  intros Hc.
  unfold getConversationStats, getConversationSummary, getContext,
    clearConversation, deleteSession.
  rewrite Hc. cbn [conversations set_conversation].
  rewrite lookup_insert_eq, lookup_delete_eq. cbn [messages createdAt lastAccessed fst].
  rewrite !slice_from_drop, !drop_nil. cbn [length andb].
  repeat split; try reflexivity.
  - apply lookup_insert_ne. congruence.
  - apply lookup_delete_ne. congruence.
Qed.


(** X14. [createSession] returns the id it is given, or a fresh uuid when it
    is given none or the empty string, and registers under it a session
    without messages: a session already known under that id loses its
    history, and the number of sessions [getConfig] reports grows by one
    only when the id was not known. [deleteSession] lowers that number by one
    for a known id and leaves it for an unknown one; [clearConversation]
    leaves it. *)
Theorem activeConversations_counts_sessions st sessionId sid env :
  let created := createSession st sessionId env in
  (fst created = match truthy sessionId with Some v => v | None => session_uuid env end)
  /\ session_messages (snd created) (fst created) = []
  /\ activeConversations (getConfig (snd created))
     = (if has st (fst created) then activeConversations (getConfig st)
        else activeConversations (getConfig st) + 1)
  /\ activeConversations (getConfig (deleteSession st sid))
     = (if has st sid then activeConversations (getConfig st) - 1
        else activeConversations (getConfig st))
  /\ activeConversations (getConfig (clearConversation st sid))
     = activeConversations (getConfig st).
Proof.
  cbn zeta. split; [reflexivity|]. split; [apply session_messages_set|].
  unfold getConfig, has. cbn [activeConversations]. split; [|split].
  - unfold createSession. cbn [fst snd set_conversation conversations].
    destruct (conversations st !! _) eqn:Hc.
    + rewrite map_size_insert_Some by eauto. reflexivity.
    + rewrite map_size_insert_None by exact Hc. lia.
  - unfold deleteSession. cbn [conversations].
    destruct (conversations st !! sid) eqn:Hc.
    + rewrite map_size_delete, Hc.
      assert (size (conversations st) <> 0%nat).
      { intros Hzero. apply map_size_empty_inv in Hzero. rewrite Hzero in Hc.
        rewrite lookup_empty in Hc. discriminate. }
      lia.
    + rewrite map_size_delete, Hc. reflexivity.
  - unfold clearConversation.
    destruct (conversations st !! sid) eqn:Hc; [|reflexivity].
    cbn [set_conversation conversations]. rewrite map_size_insert_Some by eauto. reflexivity.
Qed.


End ConversationExtras.

Lemma estimateTokens_characters_witness :
  ConversationContext.estimateTokens [ConversationContext.hello]
  <= ConversationContext.estimateTokens
       [ConversationContext.call_message ConversationContext.call0;
        ConversationContext.hello].
Proof.
  apply (proj2 (proj2 (estimateTokens_characters
                         [ConversationContext.call_message ConversationContext.call0;
                          ConversationContext.hello]))).
  exists [ConversationContext.call_message ConversationContext.call0]. reflexivity.
Defined.

Lemma getContext_window_witness :
  ConversationContext.getContext (ConversationContext.one_session []) "ghost" false 7
  = ([], ConversationContext.one_session [])
  /\ fst (ConversationContext.getContext
            (ConversationContext.one_session
               [ConversationContext.hello; ConversationContext.hello]) "s1" false 7)
     = [ConversationContext.hello; ConversationContext.hello].
Proof.
  split.
  - apply (proj1 (getContext_window (ConversationContext.one_session []) "ghost" 7)).
    vm_compute. reflexivity.
  - apply (proj2 (getContext_window
                    (ConversationContext.one_session
                       [ConversationContext.hello; ConversationContext.hello]) "s1" 7)
             {| ConversationContext.messages :=
                  [ConversationContext.hello; ConversationContext.hello];
                ConversationContext.createdAt := 0;
                ConversationContext.lastAccessed := 0 |}).
    + vm_compute. reflexivity.
    + vm_compute. discriminate.
Defined.

Lemma addMessage_then_getContext_witness :
  exists m st',
    ConversationContext.addMessage
      (ConversationContext.one_session [ConversationContext.hello])
      "s1" "user" "hi" tt ConversationContext.env0 = Some (m, st')
    /\ last (ConversationContext.session_messages st' "s1") = Some m
    /\ fst (ConversationContext.getContext st' "s1" false 7)
       = ConversationContext.session_messages st' "s1".
Proof.
  do 2 eexists. split; [vm_compute; reflexivity|].
  apply (addMessage_then_getContext
           (ConversationContext.one_session [ConversationContext.hello])
           "s1" "user" "hi" tt ConversationContext.env0).
  - vm_compute. discriminate.
  - vm_compute. reflexivity.
Defined.

Lemma getConversationSummary_recent_witness :
  ConversationContext.getConversationSummary
    (ConversationContext.one_session [ConversationContext.hello]) "s1"
  = "Recent conversation context:" ++ JS.nl
    ++ String.concat JS.nl
         (map ConversationContext.summary_line
            (drop (length (ConversationContext.session_messages
                             (ConversationContext.one_session [ConversationContext.hello])
                             "s1") - 5)
               (ConversationContext.session_messages
                  (ConversationContext.one_session [ConversationContext.hello]) "s1"))).
Proof.
  apply (proj1 (proj2 (getConversationSummary_recent
                         (ConversationContext.one_session [ConversationContext.hello])
                         "s1"))).
  vm_compute. discriminate.
Defined.

Lemma clear_versus_delete_witness :
  ConversationContext.getConversationStats
    (ConversationContext.clearConversation
       (ConversationContext.one_session [ConversationContext.hello]) "s1") "s1"
  = Some {| ConversationContext.messageCount := 0;
            ConversationContext.stats_createdAt := 0;
            ConversationContext.stats_lastAccessed := 0;
            ConversationContext.estimatedTokens := 0 |}
  /\ ConversationContext.getConversationStats
       (ConversationContext.deleteSession
          (ConversationContext.one_session [ConversationContext.hello]) "s1") "s1"
     = None.
Proof.
  destruct (clear_versus_delete
              (ConversationContext.one_session [ConversationContext.hello]) "s1"
              {| ConversationContext.messages := [ConversationContext.hello];
                 ConversationContext.createdAt := 0;
                 ConversationContext.lastAccessed := 0 |} 7)
    as (Hstats & _ & _ & Hdeleted & _).
  - vm_compute. reflexivity.
  - split; [exact Hstats|exact Hdeleted].
Defined.



(** ** The in-process vector store: records, alignment, symmetry, range *)

Section MapIndexLookup.
Context {A B : Type} (f : A -> nat -> B).

Lemma map_index_from_lookup i (l : list A) (y : B) :
  In y (JS.map_index_from f i l) -> exists x j, l !! j = Some x /\ y = f x (i + j)%nat.
Proof.
  revert i. induction l as [|x l IH]; intros i; cbn; [contradiction|].
  intros [<-|Hin].
  - exists x, 0%nat. split; [reflexivity|]. rewrite Nat.add_0_r. reflexivity.
  - apply IH in Hin as (x' & j & Hx & ->). exists x', (S j). split; [exact Hx|].
    f_equal. lia.
Qed.

End MapIndexLookup.

Section RecordFacts.
Import Num SimpleVectorStore.
Context {T : Type} `{Number T}.
Implicit Types (st fresh : t T).

(** Every result of a search is one of the records built before sorting. *)
Lemma search_In_scored embed st query k r :
  In r (similarity_search embed st query k) -> In r (scored st (embed query)).
Proof.
  unfold similarity_search. destruct (_ =? _)%nat; [contradiction|].
  intros Hin. apply (Permutation_in r (sort_perm after _)).
  unfold JS.slice in Hin.
  apply list_elem_of_In in Hin. apply list_elem_of_In.
  apply elem_of_take in Hin as (i & Hi & _).
  rewrite lookup_drop in Hi. eapply list_elem_of_lookup_2. exact Hi.
Qed.

Lemma search_record embed st query k r :
  In r (similarity_search embed st query k) ->
  exists i e,
    embeddings st !! i = Some e
    /\ r = result_at st (cosineSimilarity (embed query) e) i.
Proof.
  intros Hin. apply search_In_scored in Hin.
  apply map_index_from_lookup in Hin as (s & i & Hs & ->).
  unfold similarities in Hs. rewrite list_lookup_fmap in Hs.
  destruct (embeddings st !! i) as [e|] eqn:He; [|discriminate].
  injection Hs as <-. exists i, e. split; [exact He|]. rewrite Nat.add_0_l. reflexivity.
Qed.

Lemma aligned_lookup st i e :
  aligned st -> embeddings st !! i = Some e ->
  is_Some (documents st !! i) /\ is_Some (metadatas st !! i) /\ is_Some (ids st !! i).
Proof.
  intros (Hd & Hm & Hi) He. apply lookup_lt_Some in He.
  repeat split; apply lookup_lt_is_Some; lia.
Qed.

Lemma aligned_addDocuments embed clock st docs :
  aligned st -> aligned (fst (addDocuments embed clock st docs)).
Proof.
  intros (Hd & Hm & Hi). unfold aligned. cbn.
  rewrite !length_app, !length_map. unfold JS.map_index.
  rewrite map_index_from_length. lia.
Qed.

Lemma aligned_round_trip st fresh :
  aligned st -> aligned (loadFromStorage fresh (saveToStorage st)).
Proof.
  intros (Hd & Hm & Hi). unfold aligned. cbn. rewrite !length_map. lia.
Qed.

(** [slice(0, k)] of the sorted records for a negative [k]. *)
Lemma search_negative embed st query k :
  k < 0 ->
  similarity_search embed st query k
  = take (length (embeddings st) - Z.to_nat (- k))
         (similarity_search embed st query (Z.of_nat (length (embeddings st)))).
Proof.
  intros Hk.
  destruct (embeddings st) as [|e es] eqn:Hemb.
  - unfold similarity_search. rewrite Hemb. cbn [length Nat.eqb].
    rewrite take_nil. reflexivity.
  - assert (Hne : embeddings st <> []) by (rewrite Hemb; discriminate).
    rewrite <- Hemb. rewrite !search_nonempty by exact Hne.
    replace k with (- (- k)) at 1 by lia.
    rewrite slice_drop_last by lia. rewrite slice_prefix by lia.
    rewrite sort_length, scored_length, Nat2Z.id.
    rewrite (take_ge (JS.sort _ _) (length (embeddings st)))
      by (rewrite sort_length, scored_length; lia).
    reflexivity.
Qed.

End RecordFacts.

(** X15. Every result of [similarity_search] on the in-process store is one
    stored record: for some index [i] of the store, its content is the
    document at [i], its metadata the metadata at [i], and its similarity the
    cosine similarity of the query embedding with the embedding at [i]. On a
    store whose four arrays have one length, the content and the metadata of
    every result are defined. *)
Theorem similarity_search_records {T : Type} `{Num.Number T}
    (embed : string -> list T) (st : SimpleVectorStore.t T) (query : string) (k : Z)
    (r : SimpleVectorStore.SearchResult T) :
  In r (SimpleVectorStore.similarity_search embed st query k) ->
  exists i e,
    SimpleVectorStore.embeddings st !! i = Some e
    /\ SimpleVectorStore.content r = SimpleVectorStore.documents st !! i
    /\ SimpleVectorStore.metadata r = SimpleVectorStore.metadatas st !! i
    /\ SimpleVectorStore.similarity r
       = SimpleVectorStore.cosineSimilarity (embed query) e
    /\ (SimpleVectorStore.aligned st ->
        is_Some (SimpleVectorStore.content r) /\ is_Some (SimpleVectorStore.metadata r)).
Proof.
  intros Hin. destruct (search_record embed st query k r Hin) as (i & e & He & ->).
  exists i, e. cbn. repeat split; try assumption;
    destruct (aligned_lookup st i e ltac:(assumption) He) as (? & ? & ?); assumption.
Qed.

Lemma similarity_search_records_witness :
  exists i e,
    SimpleVectorStore.embeddings SimpleVectorStore.store_two_records !! i = Some e
    /\ Some "Cats are mammals." = SimpleVectorStore.documents SimpleVectorStore.store_two_records !! i
    /\ Some (SimpleVectorStore.metadata_of SimpleVectorStore.chunk0)
       = SimpleVectorStore.metadatas SimpleVectorStore.store_two_records !! i
    /\ 1%float = SimpleVectorStore.cosineSimilarity [1; 0]%float e
    /\ (SimpleVectorStore.aligned SimpleVectorStore.store_two_records ->
        is_Some (Some "Cats are mammals.")
        /\ is_Some (Some (SimpleVectorStore.metadata_of SimpleVectorStore.chunk0))).
Proof.
  apply (similarity_search_records (SimpleVectorStore.embed_const [1; 0]%float)
           SimpleVectorStore.store_two_records "query" 1
           {| SimpleVectorStore.content := Some "Cats are mammals.";
              SimpleVectorStore.metadata :=
                Some (SimpleVectorStore.metadata_of SimpleVectorStore.chunk0);
              SimpleVectorStore.distance := 0%float;
              SimpleVectorStore.similarity := 1%float |}).
  vm_compute. left. reflexivity.
Defined.

(** X16. The four parallel arrays of the in-process store keep one length:
    they have it in a new instance, [addDocuments] and [clear] keep it, and so
    does [initialize], whether it finds no storage file or the file a store
    with that property saved. *)
Theorem aligned_is_kept {T : Type} `{Num.Number T} :
  (forall env, SimpleVectorStore.aligned (SimpleVectorStore.constructor (T:=T) env))
  /\ (forall embed clock (st : SimpleVectorStore.t T) docs,
        SimpleVectorStore.aligned st ->
        SimpleVectorStore.aligned (fst (SimpleVectorStore.addDocuments embed clock st docs)))
  /\ (forall st : SimpleVectorStore.t T,
        SimpleVectorStore.aligned (fst (SimpleVectorStore.clear st)))
  /\ (forall st fresh : SimpleVectorStore.t T,
        SimpleVectorStore.aligned st ->
        SimpleVectorStore.aligned
          (SimpleVectorStore.initialize fresh (SimpleVectorStore.saveToStorage st)))
  /\ (forall st : SimpleVectorStore.t T,
        SimpleVectorStore.aligned st ->
        SimpleVectorStore.aligned (SimpleVectorStore.initialize st None)).
Proof.
  split; [intros env; repeat split|].
  split; [intros; apply aligned_addDocuments; assumption|].
  split; [intros st; repeat split|].
  split; [intros; apply aligned_round_trip; assumption|].
  intros st Hst. exact Hst.
Qed.

Lemma aligned_is_kept_witness :
  SimpleVectorStore.aligned SimpleVectorStore.store_two_records.
Proof.
  apply (proj1 (proj2 (@aligned_is_kept float Num.binary64))).
  apply (proj1 (@aligned_is_kept float Num.binary64)).
Defined.

Section Symmetry.
Import Num SimpleVectorStore.
Context {T : Type} `{Number T}.
Hypothesis mul_comm : forall x y : T, mul x y = mul y x.

Lemma dot_product_comm_from (a b : list T) : forall acc,
  fold_left (fun acc '(x, y) => add acc (mul x y)) (combine a b) acc
  = fold_left (fun acc '(x, y) => add acc (mul x y)) (combine b a) acc.
Proof.
  revert b. induction a as [|x a IH]; intros [|y b] acc; cbn; try reflexivity.
  rewrite (mul_comm x y). apply IH.
Qed.

(** Where the multiplication commutes, so does the similarity. *)
Lemma cosine_comm (a b : list T) : cosineSimilarity a b = cosineSimilarity b a.
Proof.
  destruct (Nat.eq_dec (length a) (length b)) as [Hlen|Hne].
  - rewrite (cosine_same_length a b Hlen), (cosine_same_length b a (eq_sym Hlen)).
    unfold dot_product. rewrite (dot_product_comm_from a b).
    rewrite (mul_comm (magnitude a)). reflexivity.
  - rewrite (cosine_mismatch a b Hne). rewrite cosine_mismatch by congruence. reflexivity.
Qed.

End Symmetry.

Lemma SFmul_comm prec emax x y : SFmul prec emax x y = SFmul prec emax y x.
Proof.
  destruct x as [sx|sx| |sx mx ex], y as [sy|sy| |sy my ey]; cbn;
    rewrite ?(xorb_comm sx sy); try reflexivity.
  rewrite Pos.mul_comm, Z.add_comm. reflexivity.
Qed.

(** The binary64 product does not depend on the order of its factors. *)
Lemma binary64_mul_comm (x y : float) : (x * y = y * x)%float.
Proof.
  apply Prim2SF_inj. rewrite !FloatAxioms.mul_spec. apply SFmul_comm.
Qed.

(** X17. On binary64, [cosineSimilarity] is symmetric: for every two
    vectors, of equal lengths or not, and whatever their components
    (infinities and [NaN] included), [cosineSimilarity(a, b)] and
    [cosineSimilarity(b, a)] are the same number. *)
Theorem cosineSimilarity_symmetric (a b : list float) :
  SimpleVectorStore.cosineSimilarity a b = SimpleVectorStore.cosineSimilarity b a.
Proof. apply cosine_comm. exact binary64_mul_comm. Qed.

(** X18. On binary64 the similarity is not confined to [[-1, 1]], nor the
    distance of a result to [[0, 2]]: the similarity of [[1, 1, 1]] with
    itself is greater than 1, and a search with that query embedding over a
    store that holds that embedding returns a record whose distance is
    negative. *)
Theorem cosineSimilarity_exceeds_one :
  PrimFloat.ltb 1 (SimpleVectorStore.cosineSimilarity [1; 1; 1]%float [1; 1; 1]%float) = true
  /\ exists r,
       SimpleVectorStore.similarity_search (SimpleVectorStore.embed_const [1; 1; 1]%float)
         SimpleVectorStore.store_ones "query" 5 = [r]
       /\ PrimFloat.ltb 1 (SimpleVectorStore.similarity r) = true
       /\ PrimFloat.ltb (SimpleVectorStore.distance r) 0 = true.
Proof.
  split; [vm_compute; reflexivity|].
  eexists. split; [vm_compute; reflexivity|]. split; vm_compute; reflexivity.
Qed.

(** X19. A negative [k] does not give an empty result: [slice(0, k)] then
    counts from the end, and [similarity_search] returns all records in
    ranked order but the last [-k] (none when there are not more than
    [-k]). *)
Theorem similarity_search_negative_k {T : Type} `{Num.Number T}
    (embed : string -> list T) (st : SimpleVectorStore.t T) (query : string) (k : Z) :
  k < 0 ->
  SimpleVectorStore.similarity_search embed st query k
  = take (length (SimpleVectorStore.embeddings st) - Z.to_nat (- k))
         (SimpleVectorStore.similarity_search embed st query
            (Z.of_nat (length (SimpleVectorStore.embeddings st)))).
Proof. apply search_negative. Qed.

Lemma similarity_search_negative_k_witness :
  SimpleVectorStore.similarity_search (SimpleVectorStore.embed_const [1; 0]%float)
    SimpleVectorStore.store_plain "query" (-1)
  = take (3 - 1)
      (SimpleVectorStore.similarity_search (SimpleVectorStore.embed_const [1; 0]%float)
         SimpleVectorStore.store_plain "query" 3).
Proof.
  apply (similarity_search_negative_k (SimpleVectorStore.embed_const [1; 0]%float)
           SimpleVectorStore.store_plain "query" (-1)).
  lia.
Defined.

(** ** The chat service: the stored exchange, missing metadata *)

Section ExchangeFacts.
Import Num ChatService.
Context {T : Type} `{Number T}.
Variable similarity_search : string -> Z -> option (list (SimpleVectorStore.SearchResult T)).
Variable chat : string -> option string.
Implicit Types (svc : ConversationContext.t (@MessageMetadata T)).
Implicit Types (doc : SimpleVectorStore.SearchResult T).

Lemma all_some_None {A B} (f : A -> option B) (l : list A) :
  all_some (map f l) = None <-> Exists (fun x => f x = None) l.
Proof.
  induction l as [|x l IH]; cbn.
  - split; [discriminate|]. intros Hex. inversion Hex.
  - destruct (f x) as [y|] eqn:Hy.
    + destruct (all_some (map f l)) as [ys|].
      * split; [discriminate|]. intros Hex. inversion Hex as [? ? Hx|? ? Hl]; subst.
        -- congruence.
        -- apply IH in Hl. discriminate.
      * split; [|reflexivity]. intros _. apply Exists_cons_tl. apply IH. reflexivity.
    + split; [|reflexivity]. intros _. apply Exists_cons_hd. exact Hy.
Qed.

Lemma all_some_Forall2 {A B} (f : A -> option B) (l : list A) ys :
  all_some (map f l) = Some ys -> Forall2 (fun x y => f x = Some y) l ys.
Proof.
  revert ys. induction l as [|x l IH]; intros ys; cbn.
  - intros [= <-]. constructor.
  - destruct (f x) as [y|] eqn:Hy; [|discriminate].
    destruct (all_some (map f l)) as [ys'|]; [|discriminate].
    intros [= <-]. constructor; [exact Hy|]. apply IH. reflexivity.
Qed.

(** The session as [answerQuestion] finds it after the check that creates it
    when it is missing. *)
Lemma ensure_session svc sid env :
  sid <> "" ->
  let svc1 := if ConversationContext.has svc sid then svc
              else snd (ConversationContext.createSession svc (Some sid) env) in
  ConversationContext.session_messages svc1 sid = ConversationContext.session_messages svc sid
  /\ ConversationContext.maxContextLength svc1 = ConversationContext.maxContextLength svc
  /\ ConversationContext.maxTokens svc1 = ConversationContext.maxTokens svc.
Proof.
  intros Hsid. cbn zeta. unfold ConversationContext.has, ConversationContext.session_messages.
  destruct (ConversationContext.conversations svc !! sid) eqn:Hc.
  - rewrite Hc. repeat split.
  - unfold ConversationContext.createSession, ConversationContext.truthy.
    destruct (String.eqb_spec sid ""); [contradiction|].
    cbn. rewrite lookup_insert_eq. repeat split.
Qed.

Lemma store_exchange_messages svc sid question response cited e1 e2 e3 :
  sid <> "" ->
  2 <= ConversationContext.maxContextLength svc ->
  exists older,
    ConversationContext.session_messages
      (store_exchange svc sid question response cited e1 e2 e3) sid
    = (older ++
        [ {| ConversationContext.id := Some (ConversationContext.message_uuid e2);
             ConversationContext.role := "user";
             ConversationContext.content := question;
             ConversationContext.timestamp := ConversationContext.now e2;
             ConversationContext.metadata := Some EmptyObject |};
          {| ConversationContext.id := Some (ConversationContext.message_uuid e3);
             ConversationContext.role := "assistant";
             ConversationContext.content := response;
             ConversationContext.timestamp := ConversationContext.now e3;
             ConversationContext.metadata := Some (Sources cited) |} ])%list
    /\ older `suffix_of` ConversationContext.session_messages svc sid.
Proof.
  intros Hsid Hwin. unfold store_exchange.
  destruct (ensure_session svc sid e1 Hsid) as (Hold & Hlen1 & _).
  set (svc1 := if ConversationContext.has svc sid then svc else _) in *.
  destruct (addMessage_returns svc1 sid "user" question EmptyObject e2 Hsid)
    as [[u svc2] Huser].
  rewrite Huser.
  destruct (addMessage_returns svc2 sid "assistant" response
              (Sources cited) e3 Hsid) as [[a svc3] Hassistant].
  rewrite Hassistant.
  pose proof (addMessage_last svc1 sid _ _ _ _ u svc2 ltac:(lia) Huser) as Hlast.
  apply addMessage_Some in Huser as (Hu & _ & Hmsgs2 & Hlen2 & _).
  apply addMessage_Some in Hassistant as (Ha & _ & Hmsgs3 & _ & _).
  rewrite <- Hu, <- Ha.
  assert (Hchain : ConversationContext.session_messages svc3 sid
                   `suffix_of` (ConversationContext.session_messages svc sid ++ [u; a])%list).
  { rewrite Hmsgs3. etransitivity; [apply trim_messages_suffix|].
    change [u; a] with ([u] ++ [a])%list. rewrite app_assoc. apply suffix_app.
    rewrite Hmsgs2, Hold. apply trim_messages_suffix. }
  apply suffix_app_tail in Hchain as (older & Hsplit & Hsuffix).
  - exists older. split; assumption.
  - rewrite Hmsgs3.
    pose proof (trim_messages_keeps svc2
                  (ConversationContext.session_messages svc2 sid ++ [a]) ltac:(lia)) as Hkeep.
    rewrite length_app in Hkeep. cbn [length] in Hkeep |- *.
    destruct (ConversationContext.session_messages svc2 sid) as [|m0 l0];
      [discriminate|]. cbn [length] in Hkeep. lia.
Qed.

Lemma truthy_Some sessionId sid :
  ConversationContext.truthy sessionId = Some sid -> sessionId = Some sid /\ sid <> "".
Proof.
  unfold ConversationContext.truthy. destruct sessionId as [v|]; [|discriminate].
  destruct (String.eqb_spec v ""); [discriminate|]. intros [= <-]. split; [reflexivity|assumption].
Qed.

Lemma render_document_None doc :
  render_document doc = None <-> SimpleVectorStore.metadata doc = None.
Proof.
  unfold render_document. destruct (SimpleVectorStore.metadata doc); split;
    (discriminate || reflexivity).
Qed.

Lemma source_ref_None doc :
  source_ref doc = None <-> SimpleVectorStore.metadata doc = None.
Proof.
  unfold source_ref. destruct (SimpleVectorStore.metadata doc); split;
    (discriminate || reflexivity).
Qed.

(** [answerQuestion] raises exactly when a record the search returns has no
    metadata. *)
(** [answerQuestion] raises in three cases and no other: the search throws,
    a record the search returns has no metadata, or the chat request for the
    prompt built from the records fails. *)
Lemma answerQuestion_None svc question sessionId e1 e2 e3 :
  answerQuestion similarity_search chat svc question sessionId e1 e2 e3 = None
  <-> similarity_search question 5 = None
      \/ (exists relevantDocs,
            similarity_search question 5 = Some relevantDocs
            /\ Exists (fun doc => SimpleVectorStore.metadata doc = None) relevantDocs)
      \/ (exists relevantDocs rendered,
            similarity_search question 5 = Some relevantDocs
            /\ all_some (map render_document relevantDocs) = Some rendered
            /\ chat (buildPrompt question (String.concat separator rendered) "") = None).
Proof.
  unfold answerQuestion.
  destruct (similarity_search question 5) as [relevantDocs|].
  2:{ split; [left; reflexivity|reflexivity]. }
  destruct (all_some (map render_document relevantDocs)) as [rendered|] eqn:Hrendered.
  - destruct (all_some (map source_ref relevantDocs)) as [cited|] eqn:Hcited.
    + unfold generateResponse.
      destruct (chat (buildPrompt question (String.concat separator rendered) ""))
        as [response|] eqn:Hchat.
      * split; [discriminate|].
        intros [Hs|[(docs & [= <-] & Hex)|(docs & rendered' & [= <-] & Hr & Hc)]].
        -- discriminate.
        -- apply (Exists_impl _ (fun doc => source_ref doc = None)) in Hex;
             [|intros doc; apply source_ref_None].
           apply all_some_None in Hex. congruence.
        -- congruence.
      * split; [|reflexivity]. intros _. right. right.
        exists relevantDocs, rendered. repeat split; assumption.
    + split; [|reflexivity]. intros _. right. left. exists relevantDocs.
      split; [reflexivity|]. apply all_some_None in Hcited.
      eapply Exists_impl; [exact Hcited|]. intros doc. apply source_ref_None.
  - split; [|reflexivity]. intros _. right. left. exists relevantDocs.
    split; [reflexivity|]. apply all_some_None in Hrendered.
    eapply Exists_impl; [exact Hrendered|]. intros doc. apply render_document_None.
Qed.

Lemma answerQuestion_sources svc question sessionId e1 e2 e3 result :
  answerQuestion similarity_search chat svc question sessionId e1 e2 e3 = Some result ->
  exists relevantDocs,
    similarity_search question 5 = Some relevantDocs
    /\ Forall2 (fun doc cited => source_ref doc = Some cited)
               relevantDocs (sources result).
Proof.
  unfold answerQuestion.
  destruct (similarity_search question 5) as [relevantDocs|]; [|discriminate].
  destruct (all_some (map render_document relevantDocs)) as [rendered|]; [|discriminate].
  destruct (all_some (map source_ref relevantDocs)) as [cited|] eqn:Hcited; [|discriminate].
  unfold generateResponse.
  destruct (chat _) as [response|]; [|discriminate].
  intros [= <-]. cbn [sources]. exists relevantDocs. split; [reflexivity|].
  apply all_some_Forall2. exact Hcited.
Qed.

(** What a returned answer holds: the model's answer to the one prompt that
    was sent. *)
Lemma answerQuestion_answer svc question sessionId e1 e2 e3 result :
  answerQuestion similarity_search chat svc question sessionId e1 e2 e3 = Some result ->
  exists prompt, sent result = [prompt] /\ chat prompt = Some (answer result).
Proof.
  unfold answerQuestion.
  destruct (similarity_search question 5) as [relevantDocs|]; [|discriminate].
  destruct (all_some (map render_document relevantDocs)) as [rendered|]; [|discriminate].
  destruct (all_some (map source_ref relevantDocs)) as [cited|]; [|discriminate].
  unfold generateResponse.
  destruct (chat _) as [response|] eqn:Hchat; [|discriminate].
  intros [= <-]. cbn [sent answer]. eexists. split; [reflexivity|exact Hchat].
Qed.

End ExchangeFacts.

Section SearchOrThrow.
Import Num SimpleVectorStore.
Context {T : Type} `{Number T}.
Implicit Types (st : SimpleVectorStore.t T).

(** Where the embedding service answers, the search is the search with its
    answer. *)
Lemma search_or_throw_Some generateEmbedding st query k queryEmbedding :
  generateEmbedding query = Some queryEmbedding ->
  similarity_search_or_throw generateEmbedding st query k
  = Some (similarity_search (fun _ => queryEmbedding) st query k).
Proof.
  intros Hq. unfold similarity_search_or_throw, similarity_search.
  destruct (length (embeddings st) =? 0)%nat; [reflexivity|]. rewrite Hq. reflexivity.
Qed.

Lemma search_or_throw_empty generateEmbedding st query k :
  embeddings st = [] -> similarity_search_or_throw generateEmbedding st query k = Some [].
Proof. intros Hemb. unfold similarity_search_or_throw. rewrite Hemb. reflexivity. Qed.

(** The search throws exactly when the index is not empty and the request
    for the embedding of the query fails. *)
Lemma search_or_throw_None generateEmbedding st query k :
  similarity_search_or_throw generateEmbedding st query k = None
  <-> embeddings st <> [] /\ generateEmbedding query = None.
Proof.
  unfold similarity_search_or_throw.
  destruct (embeddings st) as [|e es]; cbn [length Nat.eqb].
  - split; [discriminate|]. intros [Hne _]. contradiction.
  - destruct (generateEmbedding query) as [queryEmbedding|].
    + split; [discriminate|]. intros [_ Hq]. discriminate.
    + split; [|reflexivity]. intros _. split; [discriminate|reflexivity].
Qed.

(** Whatever the search returns, it is a search with some embedding of the
    query. *)
Lemma search_or_throw_inv generateEmbedding st query k results :
  similarity_search_or_throw generateEmbedding st query k = Some results ->
  exists queryEmbedding, results = similarity_search (fun _ => queryEmbedding) st query k.
Proof.
  unfold similarity_search_or_throw, similarity_search.
  destruct (length (embeddings st) =? 0)%nat.
  - intros [= <-]. exists []. reflexivity.
  - destruct (generateEmbedding query) as [queryEmbedding|]; [|discriminate].
    intros [= <-]. exists queryEmbedding. reflexivity.
Qed.

(** Where the embedding service answers every text of the batch as [embed]
    does, [addDocuments] is [addDocuments] with [embed]. *)
Lemma addDocuments_or_throw_Some generateEmbeddings embed clock st docs :
  generateEmbeddings (map chunk_content docs) = Some (map embed (map chunk_content docs)) ->
  addDocuments_or_throw generateEmbeddings clock st docs
  = Some (addDocuments embed clock st docs).
Proof.
  intros Hq. unfold addDocuments_or_throw, addDocuments. rewrite Hq. reflexivity.
Qed.

Lemma addDocuments_or_throw_None generateEmbeddings clock st docs :
  addDocuments_or_throw generateEmbeddings clock st docs = None
  <-> generateEmbeddings (map chunk_content docs) = None.
Proof.
  unfold addDocuments_or_throw.
  destruct (generateEmbeddings (map chunk_content docs)); split;
    (discriminate || reflexivity).
Qed.

End SearchOrThrow.

Section ChatExtras.
Import Num ChatService.
Context {T : Type} `{Number T}.
Variable similarity_search : string -> Z -> option (list (SimpleVectorStore.SearchResult T)).
Variable chat : string -> option string.
Implicit Types (svc : ConversationContext.t (@MessageMetadata T)).

(** X20. Where [answerQuestion] returns: called without a session id (or
    with the empty string) it leaves the conversation service as it was;
    called with a session id and a window of at least two messages, the
    session (created when it was unknown, kept with its history when it was
    known) afterwards ends with the question as a user message and the
    answer as an assistant message that carries the cited sources, preceded
    by the most recent of the messages it held before. *)
Theorem answerQuestion_records_exchange svc question sessionId e1 e2 e3 result :
  answerQuestion similarity_search chat svc question sessionId e1 e2 e3 = Some result ->
  (ConversationContext.truthy sessionId = None -> service result = svc)
  /\ (forall sid,
        ConversationContext.truthy sessionId = Some sid ->
        2 <= ConversationContext.maxContextLength svc ->
        exists older,
          ConversationContext.session_messages (service result) sid
          = (older ++
              [ {| ConversationContext.id := Some (ConversationContext.message_uuid e2);
                   ConversationContext.role := "user";
                   ConversationContext.content := question;
                   ConversationContext.timestamp := ConversationContext.now e2;
                   ConversationContext.metadata := Some EmptyObject |};
                {| ConversationContext.id := Some (ConversationContext.message_uuid e3);
                   ConversationContext.role := "assistant";
                   ConversationContext.content := answer result;
                   ConversationContext.timestamp := ConversationContext.now e3;
                   ConversationContext.metadata := Some (Sources (sources result)) |} ])%list
          /\ older `suffix_of` ConversationContext.session_messages svc sid).
Proof.
  unfold answerQuestion.
  destruct (similarity_search question 5) as [relevantDocs|]; [|discriminate].
  destruct (all_some (map render_document _)) as [rendered|]; [|discriminate].
  destruct (all_some (map source_ref _)) as [cited|]; [|discriminate].
  unfold generateResponse.
  destruct (chat _) as [response|]; [|discriminate].
  intros [= <-]. cbn [service answer sources]. split.
  - intros ->. reflexivity.
  - intros sid Hsid Hwin. rewrite Hsid. apply truthy_Some in Hsid as [_ Hne].
    apply store_exchange_messages; assumption.
Qed.

(** X21. [answerQuestion] throws in three cases and in no other: the search
    throws; one of the records the search returns has no metadata (the
    [TypeError] on [doc.metadata.source]); the chat request for the prompt
    built from the question and the records fails. Where it returns, the
    search had returned, the answer is the chat model's answer to the one
    prompt sent, and one source is cited per record, in the order of the
    records, with the source and the title of the record's metadata and the
    similarity [1 - distance]. *)
Theorem answerQuestion_raises_exactly svc question sessionId e1 e2 e3 :
  (answerQuestion similarity_search chat svc question sessionId e1 e2 e3 = None
   <-> similarity_search question 5 = None
       \/ (exists relevantDocs,
             similarity_search question 5 = Some relevantDocs
             /\ Exists (fun doc => SimpleVectorStore.metadata doc = None) relevantDocs)
       \/ (exists relevantDocs rendered,
             similarity_search question 5 = Some relevantDocs
             /\ all_some (map render_document relevantDocs) = Some rendered
             /\ chat (buildPrompt question (String.concat separator rendered) "") = None))
  /\ (forall result,
        answerQuestion similarity_search chat svc question sessionId e1 e2 e3 = Some result ->
        exists relevantDocs prompt,
          similarity_search question 5 = Some relevantDocs
          /\ sent result = [prompt]
          /\ chat prompt = Some (answer result)
          /\ Forall2 (fun doc cited =>
                        exists m,
                          SimpleVectorStore.metadata doc = Some m
                          /\ ref_source cited = SimpleVectorStore.source m
                          /\ ref_title cited = SimpleVectorStore.title m
                          /\ ref_similarity cited = sub one (SimpleVectorStore.distance doc))
                     relevantDocs (sources result)).
Proof.
  split; [apply answerQuestion_None|].
  intros result Hrun.
  destruct (answerQuestion_answer _ _ _ _ _ _ _ _ _ Hrun) as (prompt & Hsent & Hchat).
  apply answerQuestion_sources in Hrun as (relevantDocs & Hsearch & Hcited).
  exists relevantDocs, prompt. split; [exact Hsearch|]. split; [exact Hsent|].
  split; [exact Hchat|].
  eapply Forall2_impl; [exact Hcited|]. intros doc cited. unfold source_ref.
  destruct (SimpleVectorStore.metadata doc) as [m|]; [|discriminate].
  intros [= <-]. exists m. repeat split.
Qed.

End ChatExtras.

Lemma answerQuestion_records_exchange_witness :
  exists result older,
    ChatService.answerQuestion ChatService.one_chunk ChatService.fixed_answer
      ChatService.session_s1 ChatService.question0 (Some "s1")
      ConversationContext.env0 ConversationContext.env0 ConversationContext.env0
    = Some result
    /\ ConversationContext.session_messages (ChatService.service result) "s1"
       = (older ++
           [ {| ConversationContext.id := Some "uuid-message";
                ConversationContext.role := "user";
                ConversationContext.content := ChatService.question0;
                ConversationContext.timestamp := 1000;
                ConversationContext.metadata := Some ChatService.EmptyObject |};
             {| ConversationContext.id := Some "uuid-message";
                ConversationContext.role := "assistant";
                ConversationContext.content := ChatService.answer result;
                ConversationContext.timestamp := 1000;
                ConversationContext.metadata :=
                  Some (ChatService.Sources (ChatService.sources result)) |} ])%list
    /\ older `suffix_of` ConversationContext.session_messages ChatService.session_s1 "s1".
Proof.
  eexists.
  assert (Hrun : ChatService.answerQuestion ChatService.one_chunk ChatService.fixed_answer
                   ChatService.session_s1 ChatService.question0 (Some "s1")
                   ConversationContext.env0 ConversationContext.env0 ConversationContext.env0
                 = Some _) by (vm_compute; reflexivity).
  destruct (proj2 (answerQuestion_records_exchange ChatService.one_chunk
                     ChatService.fixed_answer ChatService.session_s1 ChatService.question0
                     (Some "s1") ConversationContext.env0 ConversationContext.env0
                     ConversationContext.env0 _ Hrun) "s1" eq_refl
              ltac:(vm_compute; discriminate)) as (older & Hmsgs & Hsuffix).
  exists older. split; [exact Hrun|]. split; [exact Hmsgs|exact Hsuffix].
Defined.

Lemma answerQuestion_raises_exactly_witness :
  ChatService.answerQuestion ChatService.failing_search ChatService.fixed_answer
    ChatService.session_s1 ChatService.question0 (Some "s1")
    ConversationContext.env0 ConversationContext.env0 ConversationContext.env0
  = None
  /\ ChatService.answerQuestion ChatService.chunk_without_metadata ChatService.fixed_answer
       ChatService.session_s1 ChatService.question0 (Some "s1")
       ConversationContext.env0 ConversationContext.env0 ConversationContext.env0
     = None
  /\ ChatService.answerQuestion ChatService.one_chunk ChatService.failing_chat
       ChatService.session_s1 ChatService.question0 (Some "s1")
       ConversationContext.env0 ConversationContext.env0 ConversationContext.env0
     = None
  /\ exists result relevantDocs,
       ChatService.answerQuestion ChatService.one_chunk ChatService.fixed_answer
         ChatService.session_s1 ChatService.question0 (Some "s1")
         ConversationContext.env0 ConversationContext.env0 ConversationContext.env0
       = Some result
       /\ ChatService.one_chunk ChatService.question0 5 = Some relevantDocs
       /\ length (ChatService.sources result) = length relevantDocs.
Proof.
  split; [|split; [|split]].
  - apply (proj1 (answerQuestion_raises_exactly ChatService.failing_search
                    ChatService.fixed_answer ChatService.session_s1 ChatService.question0
                    (Some "s1") ConversationContext.env0 ConversationContext.env0
                    ConversationContext.env0)).
    left. reflexivity.
  - apply (proj1 (answerQuestion_raises_exactly ChatService.chunk_without_metadata
                    ChatService.fixed_answer ChatService.session_s1 ChatService.question0
                    (Some "s1") ConversationContext.env0 ConversationContext.env0
                    ConversationContext.env0)).
    right. left. eexists. split; [reflexivity|]. apply Exists_cons_hd. reflexivity.
  - apply (proj1 (answerQuestion_raises_exactly ChatService.one_chunk
                    ChatService.failing_chat ChatService.session_s1 ChatService.question0
                    (Some "s1") ConversationContext.env0 ConversationContext.env0
                    ConversationContext.env0)).
    right. right. do 2 eexists. split; [reflexivity|]. split; reflexivity.
  - eexists.
    assert (Hrun : ChatService.answerQuestion ChatService.one_chunk ChatService.fixed_answer
                     ChatService.session_s1 ChatService.question0 (Some "s1")
                     ConversationContext.env0 ConversationContext.env0
                     ConversationContext.env0
                   = Some _) by (vm_compute; reflexivity).
    destruct (proj2 (answerQuestion_raises_exactly ChatService.one_chunk
                       ChatService.fixed_answer ChatService.session_s1
                       ChatService.question0 (Some "s1") ConversationContext.env0
                       ConversationContext.env0 ConversationContext.env0) _ Hrun)
      as (relevantDocs & prompt & Hsearch & _ & _ & Hcited).
    exists relevantDocs. split; [exact Hrun|]. split; [exact Hsearch|].
    symmetry. exact (Forall2_length _ _ _ Hcited).
Defined.

(** X22. With the in-process store behind the search. When the four arrays
    of the store have one length, the [TypeError] of a record without
    metadata cannot occur: [answerQuestion] throws exactly when the index is
    not empty and the request for the embedding of the question fails, or
    when the chat request for the prompt built from the records fails;
    wherever it returns it cites [min(5, n)] sources for [n] stored records.
    When the store holds embeddings but no metadata (as after [initialize]
    from a storage file without the [metadatas] field), [answerQuestion]
    throws for every question, whatever the two services answer. *)
Theorem answerQuestion_over_simple_store {T : Type} `{Num.Number T}
    (generateEmbedding : string -> option (list T)) (chat : string -> option string)
    (st : SimpleVectorStore.t T)
    (svc : ConversationContext.t (@ChatService.MessageMetadata T))
    (question : string) (sessionId : option string)
    (e1 e2 e3 : ConversationContext.Env) :
  let search := SimpleVectorStore.similarity_search_or_throw generateEmbedding st in
  (SimpleVectorStore.aligned st ->
   (ChatService.answerQuestion search chat svc question sessionId e1 e2 e3 = None
    <-> (SimpleVectorStore.embeddings st <> [] /\ generateEmbedding question = None)
        \/ (exists relevantDocs rendered,
              search question 5 = Some relevantDocs
              /\ ChatService.all_some (map ChatService.render_document relevantDocs)
                 = Some rendered
              /\ chat (ChatService.buildPrompt question
                         (String.concat ChatService.separator rendered) "") = None))
   /\ (forall result,
         ChatService.answerQuestion search chat svc question sessionId e1 e2 e3
         = Some result ->
         Z.of_nat (length (ChatService.sources result))
         = Z.min 5 (Z.of_nat (length (SimpleVectorStore.embeddings st)))))
  /\ (SimpleVectorStore.embeddings st <> [] ->
      SimpleVectorStore.metadatas st = [] ->
      ChatService.answerQuestion search chat svc question sessionId e1 e2 e3 = None)
  /\ (forall (fresh : SimpleVectorStore.t T) (parsed : SimpleVectorStore.Snapshot T) vectors,
        st = SimpleVectorStore.initialize fresh (Some parsed) ->
        SimpleVectorStore.snap_embeddings parsed = Some vectors ->
        vectors <> [] ->
        SimpleVectorStore.snap_metadatas parsed = None ->
        ChatService.answerQuestion search chat svc question sessionId e1 e2 e3 = None).
Proof.
  intros search.
  assert (Hraises : SimpleVectorStore.embeddings st <> [] ->
                    SimpleVectorStore.metadatas st = [] ->
                    ChatService.answerQuestion search chat
                      svc question sessionId e1 e2 e3 = None).
  { intros Hne Hmeta. apply answerQuestion_None.
    destruct (search question 5) as [results|] eqn:Hsearch; [|left; reflexivity].
    right. left. exists results. split; [reflexivity|].
    apply search_or_throw_inv in Hsearch as (q & ->).
    destruct (similarity_search_generic (fun _ => q) st question 5 ltac:(lia))
      as (_ & Hlen & _).
    destruct (SimpleVectorStore.similarity_search (fun _ => q) st question 5)
      as [|r rs] eqn:Hres.
    - cbn [length] in Hlen. destruct (SimpleVectorStore.embeddings st); [contradiction|].
      cbn [length] in Hlen. lia.
    - apply Exists_cons_hd.
      destruct (search_record (fun _ => q) st question 5 r) as (i & e & He & ->).
      { rewrite Hres. left. reflexivity. }
      cbn. rewrite Hmeta. apply lookup_nil. }
  split; [|split; [exact Hraises|]].
  - intros Haligned. split.
    + rewrite answerQuestion_None. unfold search at 1.
      rewrite search_or_throw_None. split.
      * intros [Hs|[(results & Hsearch & Hex)|Hchat]].
        -- left. exact Hs.
        -- exfalso. apply search_or_throw_inv in Hsearch as (q & ->).
           apply List.Exists_exists in Hex as (r & Hr & Hmeta).
           destruct (search_record (fun _ => q) st question 5 r Hr) as (i & e & He & ->).
           destruct (aligned_lookup st i e Haligned He) as (_ & [m Hm] & _).
           cbn in Hmeta. congruence.
        -- right. exact Hchat.
      * intros [Hs|Hchat]; [left; exact Hs|right; right; exact Hchat].
    + intros result Hrun.
      apply answerQuestion_sources in Hrun as (results & Hsearch & Hcited).
      apply Forall2_length in Hcited. rewrite <- Hcited.
      apply search_or_throw_inv in Hsearch as (q & ->).
      apply (similarity_search_generic (fun _ => q) st question 5). lia.
  - intros fresh parsed vectors -> Hvectors Hne Hmissing. apply Hraises.
    + cbn. rewrite Hvectors. exact Hne.
    + cbn. rewrite Hmissing. reflexivity.
Qed.

Lemma answerQuestion_over_simple_store_witness :
  (exists result,
     ChatService.answerQuestion
       (SimpleVectorStore.similarity_search_or_throw
          (SimpleVectorStore.service_const [1; 0]%float)
          SimpleVectorStore.store_two_records)
       ChatService.fixed_answer ChatService.session_s1 ChatService.question0 None
       ConversationContext.env0 ConversationContext.env0 ConversationContext.env0
     = Some result
     /\ Z.of_nat (length (ChatService.sources result)) = Z.min 5 2)
  /\ ChatService.answerQuestion
       (SimpleVectorStore.similarity_search_or_throw
          SimpleVectorStore.service_down SimpleVectorStore.store_two_records)
       ChatService.fixed_answer ChatService.session_s1 ChatService.question0 None
       ConversationContext.env0 ConversationContext.env0 ConversationContext.env0
     = None
  /\ ChatService.answerQuestion
       (SimpleVectorStore.similarity_search_or_throw
          (SimpleVectorStore.service_const [1; 0]%float) SimpleVectorStore.store_plain)
       ChatService.fixed_answer ChatService.session_s1 ChatService.question0 None
       ConversationContext.env0 ConversationContext.env0 ConversationContext.env0
     = None.
Proof.
  assert (Haligned : SimpleVectorStore.aligned SimpleVectorStore.store_two_records)
    by (vm_compute; repeat split).
  split; [|split].
  - eexists.
    assert (Hrun : ChatService.answerQuestion
                     (SimpleVectorStore.similarity_search_or_throw
                        (SimpleVectorStore.service_const [1; 0]%float)
                        SimpleVectorStore.store_two_records)
                     ChatService.fixed_answer ChatService.session_s1
                     ChatService.question0 None ConversationContext.env0
                     ConversationContext.env0 ConversationContext.env0
                   = Some _) by (vm_compute; reflexivity).
    split; [exact Hrun|].
    exact (proj2 (proj1 (answerQuestion_over_simple_store
                           (SimpleVectorStore.service_const [1; 0]%float)
                           ChatService.fixed_answer
                           SimpleVectorStore.store_two_records ChatService.session_s1
                           ChatService.question0 None ConversationContext.env0
                           ConversationContext.env0 ConversationContext.env0) Haligned)
             _ Hrun).
  - apply (proj1 (proj1 (answerQuestion_over_simple_store
                           SimpleVectorStore.service_down ChatService.fixed_answer
                           SimpleVectorStore.store_two_records ChatService.session_s1
                           ChatService.question0 None ConversationContext.env0
                           ConversationContext.env0 ConversationContext.env0) Haligned)).
    left. split; [vm_compute; discriminate|reflexivity].
  - apply (proj1 (proj2 (answerQuestion_over_simple_store
                           (SimpleVectorStore.service_const [1; 0]%float)
                           ChatService.fixed_answer
                           SimpleVectorStore.store_plain ChatService.session_s1
                           ChatService.question0 None ConversationContext.env0
                           ConversationContext.env0 ConversationContext.env0))).
    + vm_compute. discriminate.
    + reflexivity.
Defined.

(** ** The facade over ChromaDB and the in-process store *)

Section FacadeFacts.
Import Num VectorStore.
Context {T : Type} `{Number T} {Collection : Type}.
Implicit Types (st : t T Collection) (chroma : Chroma T Collection).

Lemma initialize_unavailable chroma st :
  unavailable chroma (collectionName st) ->
  initialize chroma st = use_simple_store st.
Proof.
  intros (message & Hget & Hwhy). unfold initialize. rewrite Hget.
  destruct (connection_failure message); [reflexivity|].
  destruct Hwhy as [Hcon|Hcreate]; [discriminate|]. rewrite Hcreate. reflexivity.
Qed.

Lemma initialize_initialized chroma st : initialized (initialize chroma st).
Proof.
  unfold initialize, initialized.
  destruct (getCollection chroma (collectionName st)) as [c|message].
  - right. cbn. eauto.
  - destruct (connection_failure message); [left; reflexivity|].
    destruct (createCollection chroma (collectionName st)); [right; cbn; eauto|left; reflexivity].
Qed.

Lemma ensure_collection_initialized chroma st : initialized (ensure_collection chroma st).
Proof.
  unfold ensure_collection. destruct (collection st) eqn:Hc.
  - right. rewrite Hc. eauto.
  - apply initialize_initialized.
Qed.

Lemma search_simple_mode chroma generateEmbedding st query_ k :
  useSimpleStore st = true ->
  similarity_search chroma generateEmbedding st query_ k
  = (option_map (map of_simple)
       (SimpleVectorStore.similarity_search_or_throw generateEmbedding (simple st) query_ k),
     st).
Proof. intros Hmode. unfold similarity_search. rewrite Hmode. reflexivity. Qed.

Lemma add_simple_mode chroma generateEmbeddings clock uuid st docs :
  useSimpleStore st = true ->
  addDocuments chroma generateEmbeddings clock uuid st docs
  = match SimpleVectorStore.addDocuments_or_throw generateEmbeddings clock (simple st) docs with
    | Some (simple', file) => (Some tt, set_simple st simple' file)
    | None => (None, st)
    end.
Proof. intros Hmode. unfold addDocuments. rewrite Hmode. reflexivity. Qed.

Lemma search_uninitialized chroma generateEmbedding st query_ k :
  useSimpleStore st = false -> collection st = None ->
  unavailable chroma (collectionName st) ->
  similarity_search chroma generateEmbedding st query_ k = (None, use_simple_store st).
Proof.
  intros Hmode Hnull Hdown. unfold similarity_search, ensure_collection.
  rewrite Hmode, Hnull, (initialize_unavailable chroma st Hdown).
  cbn [use_simple_store collection]. rewrite Hnull.
  destruct (generateEmbedding query_); reflexivity.
Qed.

Lemma add_uninitialized chroma generateEmbeddings clock uuid st docs :
  useSimpleStore st = false -> collection st = None ->
  unavailable chroma (collectionName st) ->
  addDocuments chroma generateEmbeddings clock uuid st docs = (None, use_simple_store st).
Proof.
  intros Hmode Hnull Hdown. unfold addDocuments, ensure_collection.
  rewrite Hmode, Hnull, (initialize_unavailable chroma st Hdown).
  cbn [use_simple_store collection]. rewrite Hnull.
  destruct (generateEmbeddings _); reflexivity.
Qed.

End FacadeFacts.

Section FacadeExtras.
Import Num VectorStore.
Context {T : Type} `{Number T} {Collection : Type}.
Implicit Types (st : t T Collection) (chroma : Chroma T Collection).

(** X23. After [initialize] the facade holds a ChromaDB collection or has
    switched to the in-process store, and [similarity_search] and
    [addDocuments] leave it in such a state whatever state they start from
    and whether they return or throw. Once it has switched, it stays
    switched and ChromaDB is not consulted: [similarity_search] is the search
    of the in-process store, leaves the facade as it was, and throws exactly
    when the index is not empty and the request for the embedding of the
    query fails; [addDocuments] is the in-process store's [addDocuments] and
    throws exactly when the request for the embeddings fails, and then the
    facade and the store are as they were. *)
Theorem facade_stays_initialized chroma generateEmbedding generateEmbeddings clock uuid
    st query_ k docs :
  initialized (initialize chroma st)
  /\ initialized (snd (similarity_search chroma generateEmbedding st query_ k))
  /\ initialized (snd (addDocuments chroma generateEmbeddings clock uuid st docs))
  /\ (useSimpleStore st = true ->
      similarity_search chroma generateEmbedding st query_ k
      = (option_map (map of_simple)
           (SimpleVectorStore.similarity_search_or_throw generateEmbedding
              (simple st) query_ k),
         st)
      /\ (fst (similarity_search chroma generateEmbedding st query_ k) = None
          <-> SimpleVectorStore.embeddings (simple st) <> []
              /\ generateEmbedding query_ = None)
      /\ (fst (addDocuments chroma generateEmbeddings clock uuid st docs) = None
          <-> generateEmbeddings (map SimpleVectorStore.chunk_content docs) = None)
      /\ (generateEmbeddings (map SimpleVectorStore.chunk_content docs) = None ->
          addDocuments chroma generateEmbeddings clock uuid st docs = (None, st))
      /\ (forall new_embeddings,
            generateEmbeddings (map SimpleVectorStore.chunk_content docs)
            = Some new_embeddings ->
            fst (addDocuments chroma generateEmbeddings clock uuid st docs) = Some tt
            /\ Some (simple (snd (addDocuments chroma generateEmbeddings clock uuid st docs)),
                     disk (snd (addDocuments chroma generateEmbeddings clock uuid st docs)))
               = SimpleVectorStore.addDocuments_or_throw generateEmbeddings clock
                   (simple st) docs)
      /\ useSimpleStore (snd (addDocuments chroma generateEmbeddings clock uuid st docs))
         = true).
Proof.
  split; [apply initialize_initialized|]. split; [|split].
  - unfold similarity_search. destruct (useSimpleStore st) eqn:Hmode.
    + left. exact Hmode.
    + pose proof (ensure_collection_initialized chroma st) as Hinit.
      destruct (generateEmbedding query_); [|exact Hinit].
      destruct (collection (ensure_collection chroma st));
        [destruct (query chroma _ _ _)|]; exact Hinit.
  - unfold addDocuments. destruct (useSimpleStore st) eqn:Hmode.
    + destruct (SimpleVectorStore.addDocuments_or_throw _ _ _ _) as [[simple' file]|];
        left; exact Hmode.
    + pose proof (ensure_collection_initialized chroma st) as Hinit.
      destruct (generateEmbeddings _); [|exact Hinit].
      destruct (collection (ensure_collection chroma st));
        [destruct (add chroma _ _)|]; exact Hinit.
  - intros Hmode. rewrite (search_simple_mode chroma generateEmbedding st query_ k Hmode).
    rewrite (add_simple_mode chroma generateEmbeddings clock uuid st docs Hmode).
    split; [reflexivity|]. split; [|split; [|split; [|split]]].
    + cbn [fst].
      rewrite <- (search_or_throw_None generateEmbedding (simple st) query_ k).
      destruct (SimpleVectorStore.similarity_search_or_throw _ _ _ _); cbn;
        split; (discriminate || reflexivity).
    + rewrite <- (addDocuments_or_throw_None generateEmbeddings clock (simple st) docs).
      destruct (SimpleVectorStore.addDocuments_or_throw _ _ _ _) as [[simple' file]|]; cbn;
        split; (discriminate || reflexivity).
    + intros Hfail.
      apply (addDocuments_or_throw_None generateEmbeddings clock (simple st) docs) in Hfail.
      rewrite Hfail. reflexivity.
    + intros new_embeddings Hanswer.
      destruct (SimpleVectorStore.addDocuments_or_throw _ _ _ _) as [[simple' file]|] eqn:Hadd.
      * cbn. split; reflexivity.
      * apply addDocuments_or_throw_None in Hadd. congruence.
    + destruct (SimpleVectorStore.addDocuments_or_throw _ _ _ _) as [[simple' file]|];
        exact Hmode.
Qed.

(** X24. On a facade that has not been initialized (no collection, not
    switched), while ChromaDB cannot be used: the first [similarity_search]
    and the first [addDocuments] switch to the in-process store and then
    throw (on the embedding request when that fails, else on the collection
    that is still [null]); the documents of that [addDocuments] call reach
    neither store nor the storage file. From the state they leave, the same
    calls are served by the in-process store as [initialize] loaded it: the
    search is that store's search, and where the embedding service answers
    it returns that store's results; [addDocuments] throws exactly when the
    request for the embeddings fails, and returns where the service
    answers. *)
Theorem uninitialized_fallback_throws chroma generateEmbedding generateEmbeddings
    clock uuid st query_ k docs :
  useSimpleStore st = false ->
  collection st = None ->
  unavailable chroma (collectionName st) ->
  similarity_search chroma generateEmbedding st query_ k = (None, use_simple_store st)
  /\ addDocuments chroma generateEmbeddings clock uuid st docs = (None, use_simple_store st)
  /\ fst (similarity_search chroma generateEmbedding (use_simple_store st) query_ k)
     = option_map (map of_simple)
         (SimpleVectorStore.similarity_search_or_throw generateEmbedding
            (SimpleVectorStore.initialize (simple st) (disk st)) query_ k)
  /\ (forall queryEmbedding,
        generateEmbedding query_ = Some queryEmbedding ->
        fst (similarity_search chroma generateEmbedding (use_simple_store st) query_ k)
        = Some (map of_simple
                  (SimpleVectorStore.similarity_search (fun _ => queryEmbedding)
                     (SimpleVectorStore.initialize (simple st) (disk st)) query_ k)))
  /\ (fst (addDocuments chroma generateEmbeddings clock uuid (use_simple_store st) docs)
      = None
      <-> generateEmbeddings (map SimpleVectorStore.chunk_content docs) = None)
  /\ (forall new_embeddings,
        generateEmbeddings (map SimpleVectorStore.chunk_content docs) = Some new_embeddings ->
        fst (addDocuments chroma generateEmbeddings clock uuid (use_simple_store st) docs)
        = Some tt).
Proof.
  intros Hmode Hnull Hdown.
  split; [apply search_uninitialized; assumption|].
  split; [apply add_uninitialized; assumption|].
  split; [|split; [|split]].
  - rewrite search_simple_mode by reflexivity. reflexivity.
  - intros queryEmbedding Hanswer. rewrite search_simple_mode by reflexivity.
    cbn [fst use_simple_store simple].
    rewrite (search_or_throw_Some _ _ _ _ _ Hanswer). reflexivity.
  - rewrite add_simple_mode by reflexivity.
    rewrite <- (addDocuments_or_throw_None generateEmbeddings clock
                  (simple (use_simple_store st)) docs).
    destruct (SimpleVectorStore.addDocuments_or_throw _ _ _ _) as [[simple' file]|]; cbn;
      split; (discriminate || reflexivity).
  - intros new_embeddings Hanswer. rewrite add_simple_mode by reflexivity.
    destruct (SimpleVectorStore.addDocuments_or_throw _ _ _ _) as [[simple' file]|] eqn:Hadd.
    + reflexivity.
    + apply addDocuments_or_throw_None in Hadd. congruence.
Qed.

End FacadeExtras.

Lemma facade_stays_initialized_witness :
  VectorStore.similarity_search VectorStore.offline
    (SimpleVectorStore.service_const [1; 0]%float)
    (VectorStore.use_simple_store VectorStore.not_initialized) "query" 1
  = (option_map (map VectorStore.of_simple)
       (SimpleVectorStore.similarity_search_or_throw
          (SimpleVectorStore.service_const [1; 0]%float)
          (VectorStore.simple
             (VectorStore.use_simple_store VectorStore.not_initialized))
          "query" 1),
     VectorStore.use_simple_store VectorStore.not_initialized)
  /\ VectorStore.addDocuments VectorStore.offline SimpleVectorStore.batch_down
       (fun _ => 0) (fun _ => "uuid")
       (VectorStore.use_simple_store VectorStore.not_initialized)
       [SimpleVectorStore.chunk0]
     = (None, VectorStore.use_simple_store VectorStore.not_initialized)
  /\ fst (VectorStore.addDocuments VectorStore.offline
            (SimpleVectorStore.batch_const [1; 0]%float)
            (fun _ => 0) (fun _ => "uuid")
            (VectorStore.use_simple_store VectorStore.not_initialized)
            [SimpleVectorStore.chunk0])
     = Some tt.
Proof.
  split; [|split].
  - apply (proj2 (proj2 (proj2 (facade_stays_initialized VectorStore.offline
                                  (SimpleVectorStore.service_const [1; 0]%float)
                                  SimpleVectorStore.batch_down
                                  (fun _ => 0) (fun _ => "uuid")
                                  (VectorStore.use_simple_store VectorStore.not_initialized)
                                  "query" 1 [])))).
    reflexivity.
  - apply (proj2 (proj2 (proj2 (facade_stays_initialized VectorStore.offline
                                  (SimpleVectorStore.service_const [1; 0]%float)
                                  SimpleVectorStore.batch_down
                                  (fun _ => 0) (fun _ => "uuid")
                                  (VectorStore.use_simple_store VectorStore.not_initialized)
                                  "query" 1 [SimpleVectorStore.chunk0])))).
    + reflexivity.
    + reflexivity.
  - apply (proj2 (proj2 (proj2 (facade_stays_initialized VectorStore.offline
                                  (SimpleVectorStore.service_const [1; 0]%float)
                                  (SimpleVectorStore.batch_const [1; 0]%float)
                                  (fun _ => 0) (fun _ => "uuid")
                                  (VectorStore.use_simple_store VectorStore.not_initialized)
                                  "query" 1 [SimpleVectorStore.chunk0])))
             eq_refl) with (new_embeddings := [[1; 0]%float]).
    reflexivity.
Defined.

Lemma uninitialized_fallback_throws_witness :
  VectorStore.similarity_search VectorStore.offline
    (SimpleVectorStore.service_const [1; 0]%float) VectorStore.not_initialized "query" 1
  = (None, VectorStore.use_simple_store VectorStore.not_initialized)
  /\ VectorStore.addDocuments VectorStore.offline
       (SimpleVectorStore.batch_const [1; 0]%float) (fun _ => 0) (fun _ => "uuid")
       VectorStore.not_initialized [SimpleVectorStore.chunk0]
     = (None, VectorStore.use_simple_store VectorStore.not_initialized).
Proof.
  destruct (uninitialized_fallback_throws VectorStore.offline
              (SimpleVectorStore.service_const [1; 0]%float)
              (SimpleVectorStore.batch_const [1; 0]%float) (fun _ => 0) (fun _ => "uuid")
              VectorStore.not_initialized "query" 1 [SimpleVectorStore.chunk0])
    as (Hsearch & Hadd & _).
  - reflexivity.
  - reflexivity.
  - exists "Failed to connect to chromadb". split; [reflexivity|].
    left. vm_compute. reflexivity.
  - split; [exact Hsearch|exact Hadd].
Defined.
